(** * ais-matching: assignment engine, composition analyzer, fairness auditor

    A shallow embedding of the three computational modules of the
    [@ais/matching] package and the properties its specification states
    about them.

    The models come first:
    - [Types]            the interfaces of [types.ts]
    - [AutoAssignment]   [auto-assignment.ts], the greedy assignment loop
    - [JsNumber]         JavaScript numbers with NaN and the infinities
    - [JsObject]         objects and Maps in insertion order
    - [JsArray]          the stable sort, slices, rounding
    - [Clock]            computations that read the wall clock
    - [TeamComposition]  [team-composition.ts]
    - [FairnessMetrics]  [fairness-metrics.ts]
    - [AssignmentStats]  the aggregates of [auto-assignment.ts] and the
                         summary of [repositories/assignment.ts]
    with, next to each, the statements of the specification
    ([AutoAssignmentSpec], [TeamCompositionSpec], [FairnessMetricsSpec],
    [PuritySpec]) and sample inputs.  The proofs follow, one module for
    each component: first the statements of the specification, then
    further properties of the same functions (bounds, tallies, orderings,
    edge cases).

    Numbers.  A JavaScript [number] is an IEEE 754 double.  Three models
    are used, each where the code allows it:
    - counts and loads, which the data model makes integers, are [Z] or [nat];
    - values the code only adds, multiplies, divides by a non-zero value and
      compares are exact rationals [Q], so the definitions run;
    - where the code takes logarithms or square roots, or may divide by
      zero, values are [JsNumber.num]: a real number, an infinity or NaN,
      with the exceptional results of IEEE 754 and exact arithmetic on
      finite values (rounding, overflow and underflow are not modelled). *)

From Stdlib Require Import ZArith QArith Qround Qminmax Qabs Reals Lra Lia List Ascii Sorted.
From Stdlib Require Lqa.
From stdpp Require Import base strings gmap list pretty.

(** [a < b] on rationals, as a boolean. *)
Definition Qlt_bool (a b : Q) : bool := negb (Qle_bool b a).

(* ================================================================== *)
(** * The interfaces of [types.ts] *)
(* ================================================================== *)

Module Types.

(** [MbtiPercentages]: every field is optional. *)
Record MbtiPercentages := {
  mbti_E : option Q; mbti_I : option Q;
  mbti_S : option Q; mbti_N : option Q;
  mbti_T : option Q; mbti_F : option Q;
  mbti_J : option Q; mbti_P : option Q;
  visual : option Q; auditory : option Q;
  reading : option Q; kinesthetic : option Q
}.

(** [SajuResult]: [fiveElements?: Record<string, number>]. *)
Record SajuResult := {
  fiveElements : option (gmap string Q);
  dayMaster : option string
}.

Record NameResult := { totalScore : option Q }.

Record TeacherAnalysisData := {
  ta_mbti : option MbtiPercentages;
  ta_saju : option SajuResult;
  ta_name : option NameResult;
  ta_currentLoad : Z
}.

Record StudentAnalysisData := {
  sa_mbti : option MbtiPercentages;
  sa_saju : option SajuResult;
  sa_name : option NameResult
}.

Record CompatibilityBreakdown := {
  cb_mbti : Q; cb_learningStyle : Q; cb_saju : Q;
  cb_name : Q; cb_loadBalance : Q
}.

Record CompatibilityScore := {
  overall : Q;
  breakdown : CompatibilityBreakdown;
  reasons : list string
}.

Record DetailedAssignment := {
  studentId : string;
  teacherId : string;
  score : CompatibilityScore
}.

Record AutoAssignmentOptions := {
  maxStudentsPerTeacher : option Z;
  minCompatibilityThreshold : option Q
}.

End Types.

(* ================================================================== *)
(** * [auto-assignment.ts] *)
(* ================================================================== *)

Module AutoAssignment.
Import Types.

Record TeacherCandidate := {
  tc_id : string;
  tc_currentLoad : Z;
  tc_analysisData : TeacherAnalysisData
}.

Record StudentCandidate := {
  sc_id : string;
  sc_analysisData : StudentAnalysisData
}.

(** [CompatibilityScoreFn]: teacher data, student data, average load.
    The callback is taken to be a function of its arguments. *)
Definition CompatibilityScoreFn : Type :=
  TeacherAnalysisData -> StudentAnalysisData -> Q -> CompatibilityScore.

(** [options = {}] *)
Definition noOptions : AutoAssignmentOptions :=
  {| maxStudentsPerTeacher := None; minCompatibilityThreshold := None |}.

(** [{ ...teacher.analysisData, currentLoad }] *)
Definition withCurrentLoad (d : TeacherAnalysisData) (currentLoad : Z)
  : TeacherAnalysisData :=
  {| ta_mbti := ta_mbti d; ta_saju := ta_saju d; ta_name := ta_name d;
     ta_currentLoad := currentLoad |}.

(** [teacherLoads.get(id)!]: every id read was set by the seeding loop
    (lemma [seedLoads_is_Some]). *)
Definition getLoad (teacherLoads : gmap string Z) (id : string) : Z :=
  default 0%Z (teacherLoads !! id).

(** The first loop: [teacherLoads.set(teacher.id, teacher.currentLoad)]. *)
Fixpoint seedLoads (teachers : list TeacherCandidate)
    (teacherLoads : gmap string Z) : gmap string Z :=
  match teachers with
  | [] => teacherLoads
  | teacher :: rest =>
      seedLoads rest (<[tc_id teacher := tc_currentLoad teacher]> teacherLoads)
  end.

(** The two variables of the inner loop. *)
Record Best := {
  bestTeacherId : option string;
  bestScore : option CompatibilityScore
}.

Definition noBest : Best := {| bestTeacherId := None; bestScore := None |}.

(** [options.minCompatibilityThreshold && score.overall < threshold]:
    a threshold that is absent or 0 is falsy and disables the check. *)
Definition belowThreshold (options : AutoAssignmentOptions)
    (score : CompatibilityScore) : bool :=
  match minCompatibilityThreshold options with
  | None => false
  | Some threshold =>
      negb (Qeq_bool threshold 0) && Qlt_bool (overall score) threshold
  end.

(** [!bestScore || score.overall > bestScore.overall] *)
Definition improves (best : Best) (score : CompatibilityScore) : bool :=
  match bestScore best with
  | None => true
  | Some b => Qlt_bool (overall b) (overall score)
  end.

Section Run.
Variable scoreFn : CompatibilityScoreFn.
Variable options : AutoAssignmentOptions.
Variable averageLoad : Q.
Variable maxLoad : Z.

(** One pass of the body of [for (const teacher of teachers)]. *)
Definition teacherStep (teacherLoads : gmap string Z)
    (student : StudentCandidate) (best : Best)
    (teacher : TeacherCandidate) : Best :=
  let currentLoad := getLoad teacherLoads (tc_id teacher) in
  if (maxLoad <=? currentLoad)%Z then best
  else
    let score :=
      scoreFn (withCurrentLoad (tc_analysisData teacher) currentLoad)
              (sc_analysisData student) averageLoad in
    if belowThreshold options score then best
    else if improves best score
         then {| bestTeacherId := Some (tc_id teacher);
                 bestScore := Some score |}
         else best.

Fixpoint teachersLoop (teacherLoads : gmap string Z)
    (student : StudentCandidate) (teachers : list TeacherCandidate)
    (best : Best) : Best :=
  match teachers with
  | [] => best
  | teacher :: rest =>
      teachersLoop teacherLoads student rest
        (teacherStep teacherLoads student best teacher)
  end.

(** [if (bestTeacherId && bestScore)]: a string is truthy when it is
    not empty, an object always. *)
Definition committed (best : Best) : option (string * CompatibilityScore) :=
  match bestTeacherId best, bestScore best with
  | Some id, Some sc => if decide (id = "") then None else Some (id, sc)
  | _, _ => None
  end.

(** One pass of the body of [for (const student of students)]. *)
Definition studentStep (teachers : list TeacherCandidate)
    (st : gmap string Z * list DetailedAssignment)
    (student : StudentCandidate)
  : gmap string Z * list DetailedAssignment :=
  let '(teacherLoads, assignments) := st in
  match committed (teachersLoop teacherLoads student teachers noBest) with
  | Some (id, sc) =>
      (<[id := (getLoad teacherLoads id + 1)%Z]> teacherLoads,
       assignments ++
         [{| studentId := sc_id student; teacherId := id; score := sc |}])
  | None => (teacherLoads, assignments)
  end.

Fixpoint studentsLoop (teachers : list TeacherCandidate)
    (students : list StudentCandidate)
    (st : gmap string Z * list DetailedAssignment)
  : gmap string Z * list DetailedAssignment :=
  match students with
  | [] => st
  | student :: rest =>
      studentsLoop teachers rest (studentStep teachers st student)
  end.
End Run.

(** [totalStudents / totalTeachers] *)
Definition averageLoadOf (students : list StudentCandidate)
    (teachers : list TeacherCandidate) : Q :=
  inject_Z (Z.of_nat (length students)) / inject_Z (Z.of_nat (length teachers)).

(** [options.maxStudentsPerTeacher ?? Math.ceil(averageLoad * 1.2)] *)
Definition maxLoadOf (options : AutoAssignmentOptions) (averageLoad : Q) : Z :=
  match maxStudentsPerTeacher options with
  | Some m => m
  | None => Qceiling (averageLoad * 1.2)
  end.

(** The function together with the load table it ends with. *)
Definition run (students : list StudentCandidate)
    (teachers : list TeacherCandidate) (scoreFn : CompatibilityScoreFn)
    (options : AutoAssignmentOptions)
  : gmap string Z * list DetailedAssignment :=
  let averageLoad := averageLoadOf students teachers in
  let maxLoad := maxLoadOf options averageLoad in
  studentsLoop scoreFn options averageLoad maxLoad teachers students
    (seedLoads teachers ∅, []).

Definition generateAutoAssignment (students : list StudentCandidate)
    (teachers : list TeacherCandidate) (scoreFn : CompatibilityScoreFn)
    (options : AutoAssignmentOptions) : list DetailedAssignment :=
  if (length teachers =? 0)%nat || (length students =? 0)%nat then []
  else snd (run students teachers scoreFn options).

End AutoAssignment.

(* ------------------------------------------------------------------ *)
(** ** The assignment algorithm as the specification words it *)
(* ------------------------------------------------------------------ *)

Module AutoAssignmentSpec.
Import Types AutoAssignment.

(** Number of assignments a teacher id received. *)
Definition received (id : string) (assignments : list DetailedAssignment) : Z :=
  Z.of_nat (length (filter (fun a => teacherId a = id) assignments)).

(** The starting load on record for a teacher id: the table is keyed by
    id, so of several teachers sharing an id the last one's load counts. *)
Definition startingLoad (teachers : list TeacherCandidate) (id : string)
  : option Z := seedLoads teachers ∅ !! id.

(** A load table seeded from each teacher's starting load. *)
Definition seeded (teachers : list TeacherCandidate)
    (teacherLoads : gmap string Z) : Prop :=
  forall t, In t teachers -> teacherLoads !! tc_id t = Some (tc_currentLoad t).

Section Greedy.
Variable scoreFn : CompatibilityScoreFn.
Variable options : AutoAssignmentOptions.
Variable averageLoad : Q.
Variable maxLoad : Z.

(** The score of a pairing, evaluated at the teacher's running load. *)
Definition scoreOf (teacherLoads : gmap string Z)
    (student : StudentCandidate) (teacher : TeacherCandidate)
  : CompatibilityScore :=
  scoreFn (withCurrentLoad (tc_analysisData teacher)
             (getLoad teacherLoads (tc_id teacher)))
          (sc_analysisData student) averageLoad.

(** "at or above the effective load cap" *)
Definition atCapacity (teacherLoads : gmap string Z)
    (teacher : TeacherCandidate) : Prop :=
  (maxLoad <= getLoad teacherLoads (tc_id teacher))%Z.

(** "a score below the optional threshold" *)
Definition belowMinimum (sc : CompatibilityScore) : Prop :=
  exists threshold,
    minCompatibilityThreshold options = Some threshold /\
    (overall sc < threshold)%Q.

(** A teacher that is neither skipped nor discarded. *)
Definition candidate (teacherLoads : gmap string Z)
    (student : StudentCandidate) (teacher : TeacherCandidate) : Prop :=
  ~ atCapacity teacherLoads teacher /\
  ~ belowMinimum (scoreOf teacherLoads student teacher).

(** The selection for one student: nobody when there is no candidate;
    otherwise the candidate with the highest overall score, the
    first-seen one among equals. *)
Inductive Selected (teacherLoads : gmap string Z)
    (student : StudentCandidate) (teachers : list TeacherCandidate)
  : option TeacherCandidate -> Prop :=
| Selected_none :
    (forall u, In u teachers -> ~ candidate teacherLoads student u) ->
    Selected teacherLoads student teachers None
| Selected_some (before : list TeacherCandidate) (t : TeacherCandidate)
    (after : list TeacherCandidate) :
    teachers = before ++ t :: after ->
    candidate teacherLoads student t ->
    (forall u, In u before -> candidate teacherLoads student u ->
       (overall (scoreOf teacherLoads student u)
        < overall (scoreOf teacherLoads student t))%Q) ->
    (forall u, In u after -> candidate teacherLoads student u ->
       (overall (scoreOf teacherLoads student u)
        <= overall (scoreOf teacherLoads student t))%Q) ->
    Selected teacherLoads student teachers (Some t).

(** What the two variables hold after the teachers [seen] so far. *)
Definition BestOf (teacherLoads : gmap string Z) (student : StudentCandidate)
    (seen : list TeacherCandidate) (best : Best) : Prop :=
  (best = noBest /\
   forall u, In u seen -> ~ candidate teacherLoads student u)
  \/
  (exists before t after,
     seen = before ++ t :: after /\
     best = {| bestTeacherId := Some (tc_id t);
               bestScore := Some (scoreOf teacherLoads student t) |} /\
     candidate teacherLoads student t /\
     (forall u, In u before -> candidate teacherLoads student u ->
        (overall (scoreOf teacherLoads student u)
         < overall (scoreOf teacherLoads student t))%Q) /\
     (forall u, In u after -> candidate teacherLoads student u ->
        (overall (scoreOf teacherLoads student u)
         <= overall (scoreOf teacherLoads student t))%Q)).

(** The run over the students in input order: a student without a
    selection is passed over; a selection is committed and the selected
    teacher's running load goes up by one. *)
Inductive Greedy (teachers : list TeacherCandidate)
  : gmap string Z -> list StudentCandidate -> list DetailedAssignment -> Prop :=
| Greedy_done teacherLoads :
    Greedy teachers teacherLoads [] []
| Greedy_pass teacherLoads student rest out :
    Selected teacherLoads student teachers None ->
    Greedy teachers teacherLoads rest out ->
    Greedy teachers teacherLoads (student :: rest) out
| Greedy_commit teacherLoads student rest out t :
    Selected teacherLoads student teachers (Some t) ->
    Greedy teachers
      (<[tc_id t := (getLoad teacherLoads (tc_id t) + 1)%Z]> teacherLoads)
      rest out ->
    Greedy teachers teacherLoads (student :: rest)
      ({| studentId := sc_id student; teacherId := tc_id t;
          score := scoreOf teacherLoads student t |} :: out).
End Greedy.

(** The effective cap: [maxStudentsPerTeacher] when supplied, otherwise
    ceil((students.length / teachers.length) * 1.2). *)
Definition effectiveCap (students : list StudentCandidate)
    (teachers : list TeacherCandidate) (options : AutoAssignmentOptions) : Z :=
  match maxStudentsPerTeacher options with
  | Some m => m
  | None =>
      Qceiling ((Z.of_nat (length students) # 1)
                / (Z.of_nat (length teachers) # 1) * (12 # 10))
  end.

(** The algorithm of the specification, as a property of a call. *)
Definition greedy_assignment (students : list StudentCandidate)
    (teachers : list TeacherCandidate) (scoreFn : CompatibilityScoreFn)
    (options : AutoAssignmentOptions) : Prop :=
  exists teacherLoads,
    seeded teachers teacherLoads /\
    Greedy scoreFn options (averageLoadOf students teachers)
      (effectiveCap students teachers options) teachers teacherLoads students
      (generateAutoAssignment students teachers scoreFn options).

(** At most one entry per student id, no more entries than students,
    entries in the order of the students. *)
Definition one_entry_per_student (students : list StudentCandidate)
    (assignments : list DetailedAssignment) : Prop :=
  NoDup (map studentId assignments) /\
  (length assignments <= length students)%nat /\
  sublist (map studentId assignments) (map sc_id students).

(** No more entries than students, and every teacher's starting load plus
    the assignments it received stays within the effective cap. *)
Definition loads_within_cap (students : list StudentCandidate)
    (teachers : list TeacherCandidate) (options : AutoAssignmentOptions)
    (assignments : list DetailedAssignment) : Prop :=
  (length assignments <= length students)%nat /\
  forall t, In t teachers ->
    (tc_currentLoad t + received (tc_id t) assignments
     <= effectiveCap students teachers options)%Z.

End AutoAssignmentSpec.

(* ------------------------------------------------------------------ *)
(** ** Sample inputs of the assignment engine *)
(* ------------------------------------------------------------------ *)

Module AutoAssignmentSamples.
Import Types AutoAssignment.

Definition noTeacherData : TeacherAnalysisData :=
  {| ta_mbti := None; ta_saju := None; ta_name := None; ta_currentLoad := 0 |}.

Definition noStudentData : StudentAnalysisData :=
  {| sa_mbti := None; sa_saju := None; sa_name := None |}.

Definition teacher (id : string) (load : Z) : TeacherCandidate :=
  {| tc_id := id; tc_currentLoad := load; tc_analysisData := noTeacherData |}.

Definition student (id : string) : StudentCandidate :=
  {| sc_id := id; sc_analysisData := noStudentData |}.

Definition scoreOfValue (v : Q) : CompatibilityScore :=
  {| overall := v;
     breakdown := {| cb_mbti := v; cb_learningStyle := v; cb_saju := v;
                     cb_name := v; cb_loadBalance := v |};
     reasons := [] |}.

(** A scoring function that rates every pairing 80. *)
Definition always80 : CompatibilityScoreFn := fun _ _ _ => scoreOfValue 80.

Definition capOf (m : Z) : AutoAssignmentOptions :=
  {| maxStudentsPerTeacher := Some m; minCompatibilityThreshold := None |}.

End AutoAssignmentSamples.

(* ================================================================== *)
(** * JavaScript numbers with their exceptional values *)
(* ================================================================== *)

Module JsNumber.

(** A finite number, one of the two infinities, or NaN.  Arithmetic on
    finite values is exact; a zero divisor is taken to be +0, which is
    the only zero the modelled code divides by ([Math.log(1)], an empty
    sum, a zero mean). *)
Inductive num : Type :=
| Finite (r : R)
| Infinity
| NegInfinity
| NaN.

Definition ofNat (n : nat) : num := Finite (INR n).
Definition ofZ (z : Z) : num := Finite (IZR z).

Definition isNaN (x : num) : bool :=
  match x with NaN => true | _ => false end.

(** [x === 0] *)
Definition isZero (x : num) : bool :=
  match x with
  | Finite r => if Req_dec_T r 0 then true else false
  | _ => false
  end.

(** [x < y]; false as soon as one side is NaN. *)
Definition lt (x y : num) : bool :=
  match x, y with
  | NaN, _ | _, NaN => false
  | Finite a, Finite b => if Rlt_dec a b then true else false
  | NegInfinity, NegInfinity => false
  | NegInfinity, _ => true
  | _, Infinity => match x with Infinity => false | _ => true end
  | _, _ => false
  end.

(** [x >= y] *)
Definition ge (x y : num) : bool :=
  match x, y with
  | NaN, _ | _, NaN => false
  | _, _ => negb (lt x y)
  end.

Definition neg (x : num) : num :=
  match x with
  | Finite r => Finite (- r)
  | Infinity => NegInfinity
  | NegInfinity => Infinity
  | NaN => NaN
  end.

Definition add (x y : num) : num :=
  match x, y with
  | NaN, _ | _, NaN => NaN
  | Finite a, Finite b => Finite (a + b)
  | Infinity, NegInfinity | NegInfinity, Infinity => NaN
  | Infinity, _ | _, Infinity => Infinity
  | NegInfinity, _ | _, NegInfinity => NegInfinity
  end.

Definition sub (x y : num) : num := add x (neg y).

(** The product of an infinity [inf] and a finite [a]. *)
Definition scaleInf (inf : num) (a : R) : num :=
  if Req_dec_T a 0 then NaN
  else if Rlt_dec 0 a then inf else neg inf.

Definition mul (x y : num) : num :=
  match x, y with
  | NaN, _ | _, NaN => NaN
  | Finite a, Finite b => Finite (a * b)
  | Finite a, inf => scaleInf inf a
  | inf, Finite b => scaleInf inf b
  | Infinity, Infinity | NegInfinity, NegInfinity => Infinity
  | _, _ => NegInfinity
  end.

Definition div (x y : num) : num :=
  match x, y with
  | NaN, _ | _, NaN => NaN
  | Finite a, Finite b =>
      if Req_dec_T b 0 then
        if Req_dec_T a 0 then NaN
        else if Rlt_dec 0 a then Infinity else NegInfinity
      else Finite (a / b)
  | Finite _, _ => Finite 0
  | inf, Finite b => if Rlt_dec b 0 then neg inf else inf
  | _, _ => NaN
  end.

(** [Math.log] *)
Definition log (x : num) : num :=
  match x with
  | Finite a =>
      if Rlt_dec a 0 then NaN
      else if Req_dec_T a 0 then NegInfinity
      else Finite (ln a)
  | Infinity => Infinity
  | _ => NaN
  end.

(** [Math.sqrt] *)
Definition sqrt (x : num) : num :=
  match x with
  | Finite a => if Rlt_dec a 0 then NaN else Finite (R_sqrt.sqrt a)
  | Infinity => Infinity
  | _ => NaN
  end.

(** [Math.max(x, y)] and [Math.min(x, y)]: NaN when an argument is. *)
Definition max (x y : num) : num :=
  match x, y with
  | NaN, _ | _, NaN => NaN
  | _, _ => if lt x y then y else x
  end.

Definition min (x y : num) : num :=
  match x, y with
  | NaN, _ | _, NaN => NaN
  | _, _ => if lt y x then y else x
  end.

(** [Math.round]: the nearest integer, halves upwards. *)
Definition round (x : num) : num :=
  match x with
  | Finite r => Finite (IZR (Int_part (r + / 2)))
  | _ => x
  end.

End JsNumber.

(* ================================================================== *)
(** * Objects and Maps with string keys, in insertion order *)
(* ================================================================== *)

(** A [Record<string, V>] or [Map<string, V>] whose keys or values the
    code enumerates is a list of entries in insertion order: writing to a
    key that is present keeps its place, and [get] is the lookup of an
    entry of the object's own.  For a [Map] this is exact.  A plain object
    differs in two respects: it lists the keys that are array indices
    first, and it does not count under a property name inherited from
    [Object.prototype] (see [JsNames]).  The statements about plain objects
    keyed by caller-supplied strings do not depend on the order of the
    keys, and they assume keys that are not inherited names. *)
Module JsObject.

Definition t (V : Type) : Type := list (string * V).

Fixpoint get {V} (o : t V) (k : string) : option V :=
  match o with
  | [] => None
  | (k', v) :: rest => if String.eqb k' k then Some v else get rest k
  end.

Fixpoint set {V} (o : t V) (k : string) (v : V) : t V :=
  match o with
  | [] => [(k, v)]
  | (k', v') :: rest =>
      if String.eqb k' k then (k', v) :: rest else (k', v') :: set rest k v
  end.

Definition keys {V} (o : t V) : list string := map fst o.
Definition values {V} (o : t V) : list V := map snd o.

(** [o[k] = (o[k] || 0) + 1] *)
Definition increment (o : t nat) (k : string) : t nat :=
  set o k (default 0%nat (get o k) + 1)%nat.

End JsObject.

(* ================================================================== *)
(** * Arrays: the stable [sort], rounding *)
(* ================================================================== *)

Module JsArray.

(** [Array.prototype.sort(cmp)], which is stable: an element is placed
    behind every element that [cmp] does not order after it. *)
Section Sort.
Context {A : Type}.
Variable cmp : A -> A -> Q.

Fixpoint insertSorted (x : A) (sorted : list A) : list A :=
  match sorted with
  | [] => [x]
  | y :: rest =>
      if Qle_bool (cmp y x) 0 then y :: insertSorted x rest
      else x :: y :: rest
  end.

Definition sort (l : list A) : list A :=
  fold_left (fun sorted x => insertSorted x sorted) l [].
End Sort.

(** [l.slice(0, n)] and [l.slice(-n)] *)
Definition sliceFirst {A} (n : nat) (l : list A) : list A := take n l.
Definition sliceLast {A} (n : nat) (l : list A) : list A :=
  drop (length l - n) l.

(** [Math.round] on a rational. *)
Definition roundQ (x : Q) : Z := Qfloor (x + (1 # 2)).

End JsArray.

(* ================================================================== *)
(** * The wall clock *)
(* ================================================================== *)

(** [new Date()] reads the wall clock.  A computation that may do so takes
    the readings the clock will give, one per read, and the number of reads
    made so far. *)
Module Clock.

Definition readings : Type := nat -> Z.

Definition M (A : Type) : Type := readings -> nat -> A * nat.

Definition ret {A} (a : A) : M A := fun _ k => (a, k).

Definition bind {A B} (m : M A) (f : A -> M B) : M B :=
  fun clock k => let '(a, k') := m clock k in f a clock k'.

(** [new Date().getTime()], in milliseconds. *)
Definition newDate : M Z := fun clock k => (clock k, S k).

(** The value a computation returns when it starts with a fresh clock. *)
Definition result {A} (m : M A) (clock : readings) : A := fst (m clock 0%nat).

End Clock.

Notation "'let*' x ':=' m 'in' f" := (Clock.bind m (fun x => f))
  (at level 10, x name, m at level 100, f at level 200).

(* ================================================================== *)
(** * [team-composition.ts] *)
(* ================================================================== *)

Module TeamComposition.
Import Types.
Import JsNumber (num, Finite, Infinity, NegInfinity, NaN).

(** [TeacherTeamData]; [createdAt] in milliseconds since the epoch. *)
Record TeacherTeamData := {
  tt_id : string;
  tt_name : string;
  tt_role : string;
  tt_createdAt : Z;
  tt_mbtiType : option string;
  tt_mbtiPercentages : option MbtiPercentages;
  tt_sajuResult : option SajuResult;
  tt_studentGrades : option (list Z)
}.

Record AxisRatios := {
  ratio_E : Q; ratio_I : Q; ratio_S : Q; ratio_N : Q;
  ratio_T : Q; ratio_F : Q; ratio_J : Q; ratio_P : Q
}.

Record MBTIDistribution := {
  typeCounts : JsObject.t nat;
  mostCommon : list string;
  rarest : list string;
  axisRatios : AxisRatios
}.

Record LearningStyleDistribution := {
  ls_visual : Z; ls_auditory : Z; ls_reading : Z; ls_kinesthetic : Z;
  ls_dominant : string
}.

Record SajuElementsDistribution := {
  se_wood : Z; se_fire : Z; se_earth : Z; se_metal : Z; se_water : Z;
  se_dominant : string;
  se_deficient : list string
}.

Record ExperienceLevels := { junior : nat; mid : nat; senior : nat }.

Record ExpertiseCoverage := {
  subjects : JsObject.t nat;
  grades : JsObject.t nat;
  experienceLevels : ExperienceLevels;
  weakSubjects : list string;
  weakGrades : list string
}.

Record RoleDistribution := { TEAM_LEADER : nat; MANAGER : nat; TEACHER : nat }.

Record TeamComposition := {
  teamId : string;
  teacherCount : nat;
  mbtiDistribution : MBTIDistribution;
  learningStyleDistribution : LearningStyleDistribution;
  sajuElementsDistribution : SajuElementsDistribution;
  expertiseCoverage : ExpertiseCoverage;
  roleDistribution : RoleDistribution
}.

Record DiversityScore := {
  ds_overall : num;
  mbtiDiversity : num;
  learningStyleDiversity : num;
  sajuElementsDiversity : num;
  subjectDiversity : num;
  gradeDiversity : num
}.

Inductive RecommendationType := diversity | coverage | balance.
Inductive Priority := high | medium | low.

(** [Recommendation], without its display texts ([title], [description],
    [evidence], [actionItems]), which are formatted from the fields that
    made the rule fire. *)
Record Recommendation := {
  rec_id : string;
  rec_type : RecommendationType;
  rec_priority : Priority
}.

Record TeamCompositionAnalysis := {
  composition : TeamComposition;
  diversityScore : DiversityScore;
  recommendations : list Recommendation;
  analyzedAt : Z
}.

Definition SUBJECTS : list string := ["수학"; "영어"; "국어"; "과학"; "사회"].
Definition GRADES : list string := ["중1"; "중2"; "중3"; "고1"; "고2"; "고3"].

(** ** Strings *)

(** [toUpperCase], on the letters a-z: type codes are taken to be ASCII.
    (Outside ASCII a few characters have an upper case that is or holds
    a basic letter, such as the dotless i, the long s and the sharp s;
    these are not modelled.) *)
Definition upperChar (c : ascii) : ascii :=
  let n := nat_of_ascii c in
  if ((97 <=? n) && (n <=? 122))%nat then ascii_of_nat (n - 32) else c.

Fixpoint toUpperCase (s : string) : string :=
  match s with
  | EmptyString => EmptyString
  | String c rest => String (upperChar c) (toUpperCase rest)
  end.

(** [s.includes(sub)] *)
Fixpoint includes (s sub : string) : bool :=
  String.prefix sub s
  || match s with
     | EmptyString => false
     | String _ rest => includes rest sub
     end.

Definition bit (b : bool) : nat := if b then 1%nat else 0%nat.

(** ** [analyzeMBTIDistribution] *)

(** The nine variables the loop updates. *)
Record MbtiTally := {
  tally_typeCounts : JsObject.t nat;
  tally_e : nat; tally_i : nat; tally_s : nat; tally_n : nat;
  tally_t : nat; tally_f : nat; tally_j : nat; tally_p : nat
}.

Definition emptyMbtiTally : MbtiTally :=
  {| tally_typeCounts := [];
     tally_e := 0; tally_i := 0; tally_s := 0; tally_n := 0;
     tally_t := 0; tally_f := 0; tally_j := 0; tally_p := 0 |}.

(** One pass of the loop body; [if (!mbti) continue] skips a type that is
    absent or the empty string. *)
Definition mbtiStep (acc : MbtiTally) (teacher : TeacherTeamData) : MbtiTally :=
  match tt_mbtiType teacher with
  | None => acc
  | Some mbti =>
      if String.eqb mbti "" then acc
      else
        let type := toUpperCase mbti in
        {| tally_typeCounts := JsObject.increment (tally_typeCounts acc) mbti;
           tally_e := tally_e acc + bit (includes type "E");
           tally_i := tally_i acc + bit (includes type "I");
           tally_s := tally_s acc + bit (includes type "S");
           tally_n := tally_n acc + bit (includes type "N");
           tally_t := tally_t acc + bit (includes type "T");
           tally_f := tally_f acc + bit (includes type "F");
           tally_j := tally_j acc + bit (includes type "J");
           tally_p := tally_p acc + bit (includes type "P") |}
  end.

Definition mbtiLoop (teachers : list TeacherTeamData) : MbtiTally :=
  fold_left mbtiStep teachers emptyMbtiTally.

(** [total > 0 ? (x / total) * 100 : 0] *)
Definition percentOf (x total : nat) : Q :=
  if (0 <? total)%nat
  then ((inject_Z (Z.of_nat x) / inject_Z (Z.of_nat total)) * 100)%Q
  else 0%Q.

Definition countOf (o : JsObject.t nat) (k : string) : Q :=
  inject_Z (Z.of_nat (default 0%nat (JsObject.get o k))).

Definition analyzeMBTIDistribution (teachers : list TeacherTeamData)
  : MBTIDistribution :=
  let acc := mbtiLoop teachers in
  let typeCounts := tally_typeCounts acc in
  let types := JsObject.keys typeCounts in
  let sorted :=
    JsArray.sort (fun a b => (countOf typeCounts b - countOf typeCounts a)%Q) types in
  let total := (tally_e acc + tally_i acc)%nat in
  {| typeCounts := typeCounts;
     mostCommon := JsArray.sliceFirst 3 sorted;
     rarest := rev (JsArray.sliceLast 3 sorted);
     axisRatios :=
       {| ratio_E := percentOf (tally_e acc) total;
          ratio_I := percentOf (tally_i acc) total;
          ratio_S := percentOf (tally_s acc) total;
          ratio_N := percentOf (tally_n acc) total;
          ratio_T := percentOf (tally_t acc) total;
          ratio_F := percentOf (tally_f acc) total;
          ratio_J := percentOf (tally_j acc) total;
          ratio_P := percentOf (tally_p acc) total |} |}.

(** ** [analyzeLearningStyleDistribution] *)

Record StyleSums := {
  sum_visual : Q; sum_auditory : Q; sum_reading : Q; sum_kinesthetic : Q;
  sum_count : nat
}.

(** [v || 0] on an optional number *)
Definition orZero (v : option Q) : Q := default 0%Q v.

Definition styleStep (acc : StyleSums) (teacher : TeacherTeamData) : StyleSums :=
  match tt_mbtiPercentages teacher with
  | None => acc
  | Some percentages =>
      {| sum_visual := (sum_visual acc + orZero (visual percentages))%Q;
         sum_auditory := (sum_auditory acc + orZero (auditory percentages))%Q;
         sum_reading := (sum_reading acc + orZero (reading percentages))%Q;
         sum_kinesthetic :=
           (sum_kinesthetic acc + orZero (kinesthetic percentages))%Q;
         sum_count := S (sum_count acc) |}
  end.

Definition analyzeLearningStyleDistribution (teachers : list TeacherTeamData)
  : LearningStyleDistribution :=
  let acc :=
    fold_left styleStep teachers
      {| sum_visual := 0; sum_auditory := 0; sum_reading := 0;
         sum_kinesthetic := 0; sum_count := 0 |} in
  if (sum_count acc =? 0)%nat then
    {| ls_visual := 0; ls_auditory := 0; ls_reading := 0; ls_kinesthetic := 0;
       ls_dominant := "-" |}
  else
    let avg (val : Q) : Z :=
      JsArray.roundQ (val / inject_Z (Z.of_nat (sum_count acc))) in
    let v := avg (sum_visual acc) in
    let a := avg (sum_auditory acc) in
    let r := avg (sum_reading acc) in
    let k := avg (sum_kinesthetic acc) in
    let styles :=
      JsArray.sort (fun x y : string * Z => inject_Z (snd y - snd x))
        [("Visual", v); ("Auditory", a); ("Reading", r); ("Kinesthetic", k)] in
    {| ls_visual := v; ls_auditory := a; ls_reading := r; ls_kinesthetic := k;
       ls_dominant := match styles with s :: _ => fst s | [] => "" end |}.

(** ** [analyzeSajuElementsDistribution] *)

Record ElementCounts := {
  ec_wood : Q; ec_fire : Q; ec_earth : Q; ec_metal : Q; ec_water : Q
}.

(** [if (elements.k) count += elements.k] *)
Definition addIfTruthy (count : Q) (v : option Q) : Q :=
  match v with
  | Some x => if Qeq_bool x 0 then count else (count + x)%Q
  | None => count
  end.

Definition sajuStep (acc : ElementCounts) (teacher : TeacherTeamData)
  : ElementCounts :=
  match tt_sajuResult teacher with
  | None => acc
  | Some result =>
      match fiveElements result with
      | None => acc
      | Some elements =>
          {| ec_wood := addIfTruthy (ec_wood acc) (elements !! "wood");
             ec_fire := addIfTruthy (ec_fire acc) (elements !! "fire");
             ec_earth := addIfTruthy (ec_earth acc) (elements !! "earth");
             ec_metal := addIfTruthy (ec_metal acc) (elements !! "metal");
             ec_water := addIfTruthy (ec_water acc) (elements !! "water") |}
      end
  end.

Definition analyzeSajuElementsDistribution (teachers : list TeacherTeamData)
  : SajuElementsDistribution :=
  let elementCounts :=
    fold_left sajuStep teachers
      {| ec_wood := 0; ec_fire := 0; ec_earth := 0; ec_metal := 0;
         ec_water := 0 |} in
  let total :=
    (ec_wood elementCounts + ec_fire elementCounts + ec_earth elementCounts
     + ec_metal elementCounts + ec_water elementCounts)%Q in
  if Qeq_bool total 0 then
    {| se_wood := 0; se_fire := 0; se_earth := 0; se_metal := 0; se_water := 0;
       se_dominant := "-"; se_deficient := [] |}
  else
    let elements :=
      JsArray.sort (fun x y : string * Q => (snd y - snd x)%Q)
        [("목", ec_wood elementCounts); ("화", ec_fire elementCounts);
         ("토", ec_earth elementCounts); ("금", ec_metal elementCounts);
         ("수", ec_water elementCounts)] in
    let avg := (total / 5)%Q in
    let deficient :=
      map fst (List.filter (fun elem => Qlt_bool (snd elem) (avg * 0.7)) elements) in
    let percent (x : Q) : Z := JsArray.roundQ ((x / total) * 100) in
    {| se_wood := percent (ec_wood elementCounts);
       se_fire := percent (ec_fire elementCounts);
       se_earth := percent (ec_earth elementCounts);
       se_metal := percent (ec_metal elementCounts);
       se_water := percent (ec_water elementCounts);
       se_dominant := match elements with e :: _ => fst e | [] => "" end;
       se_deficient := deficient |}.

(** ** [gradeToLabel] and [analyzeExpertiseCoverage] *)

Definition gradeToLabel (grade : Z) : string :=
  if (grade <=? 3)%Z then "중" +:+ pretty grade
  else "고" +:+ pretty (grade - 3)%Z.

(** The variables of the loop over the teachers. *)
Record CoverageTally := {
  cov_grades : JsObject.t nat;
  cov_junior : nat; cov_mid : nat; cov_senior : nat
}.

(** [1000 * 60 * 60 * 24 * 365] *)
Definition msPerYear : Z := 1000 * 60 * 60 * 24 * 365.

Definition coverageStep (now : Z) (acc : CoverageTally)
    (teacher : TeacherTeamData) : CoverageTally :=
  let studentGrades := default [] (tt_studentGrades teacher) in
  let grades :=
    fold_left (fun grades grade => JsObject.increment grades (gradeToLabel grade))
      studentGrades (cov_grades acc) in
  let experienceYears :=
    (inject_Z (now - tt_createdAt teacher) / inject_Z msPerYear)%Q in
  if Qlt_bool experienceYears 1 then
    {| cov_grades := grades; cov_junior := S (cov_junior acc);
       cov_mid := cov_mid acc; cov_senior := cov_senior acc |}
  else if Qlt_bool experienceYears 3 then
    {| cov_grades := grades; cov_junior := cov_junior acc;
       cov_mid := S (cov_mid acc); cov_senior := cov_senior acc |}
  else
    {| cov_grades := grades; cov_junior := cov_junior acc;
       cov_mid := cov_mid acc; cov_senior := S (cov_senior acc) |}.

(** [for (const k of KEYS) o[k] = o[k] || 0] *)
Definition fillDefaults (keys : list string) (o : JsObject.t nat)
  : JsObject.t nat :=
  fold_left (fun o k => JsObject.set o k (default 0%nat (JsObject.get o k)))
    keys o.

(** [teachers.length > 0 ? teachers.length / KEYS.length : 0] *)
Definition avgCoverage (teachers : list TeacherTeamData) (keys : list string)
  : Q :=
  if (0 <? length teachers)%nat
  then (inject_Z (Z.of_nat (length teachers))
        / inject_Z (Z.of_nat (length keys)))%Q
  else 0%Q.

(** The keys with [(o[k] || 0) < avg * 0.5], in the order of [keys]. *)
Definition weakKeys (keys : list string) (o : JsObject.t nat) (avg : Q)
  : list string :=
  List.filter (fun k => Qlt_bool (countOf o k) (avg * 0.5)) keys.

(** The body of [analyzeExpertiseCoverage] once [now] is read. *)
Definition expertiseCoverageAt (now : Z) (teachers : list TeacherTeamData)
  : ExpertiseCoverage :=
  let acc :=
    fold_left (coverageStep now) teachers
      {| cov_grades := []; cov_junior := 0; cov_mid := 0; cov_senior := 0 |} in
  let subjects := fillDefaults SUBJECTS [] in
  let grades := fillDefaults GRADES (cov_grades acc) in
  {| subjects := subjects;
     grades := grades;
     experienceLevels :=
       {| junior := cov_junior acc; mid := cov_mid acc;
          senior := cov_senior acc |};
     weakSubjects := weakKeys SUBJECTS subjects (avgCoverage teachers SUBJECTS);
     weakGrades := weakKeys GRADES grades (avgCoverage teachers GRADES) |}.

Definition analyzeExpertiseCoverage (teachers : list TeacherTeamData)
  : Clock.M ExpertiseCoverage :=
  let* now := Clock.newDate in
  Clock.ret (expertiseCoverageAt now teachers).

(** ** [analyzeRoleDistribution] *)

Definition roleStep (distribution : RoleDistribution) (teacher : TeacherTeamData)
  : RoleDistribution :=
  let role := tt_role teacher in
  if String.eqb role "TEAM_LEADER" then
    {| TEAM_LEADER := S (TEAM_LEADER distribution);
       MANAGER := MANAGER distribution; TEACHER := TEACHER distribution |}
  else if String.eqb role "MANAGER" then
    {| TEAM_LEADER := TEAM_LEADER distribution;
       MANAGER := S (MANAGER distribution); TEACHER := TEACHER distribution |}
  else if String.eqb role "TEACHER" then
    {| TEAM_LEADER := TEAM_LEADER distribution;
       MANAGER := MANAGER distribution; TEACHER := S (TEACHER distribution) |}
  else distribution.

Definition analyzeRoleDistribution (teachers : list TeacherTeamData)
  : RoleDistribution :=
  fold_left roleStep teachers {| TEAM_LEADER := 0; MANAGER := 0; TEACHER := 0 |}.

(** ** [calculateShannonDiversity] *)

(** One pass of [for (const count of counts)]. *)
Definition shannonStep (total : num) (sum : num) (count : num) : num :=
  if JsNumber.isZero count then sum
  else
    let p := JsNumber.div count total in
    JsNumber.add sum (JsNumber.mul p (JsNumber.log p)).

Definition calculateShannonDiversity (counts : list num) (total : num) : num :=
  if JsNumber.isZero total then Finite 0
  else
    let sum := fold_left (shannonStep total) counts (Finite 0) in
    let maxDiversity := JsNumber.log (JsNumber.ofNat (length counts)) in
    let shannon := JsNumber.div (JsNumber.neg sum) maxDiversity in
    JsNumber.min
      (JsNumber.max (JsNumber.mul shannon (Finite 100)) (Finite 0))
      (Finite 100).

(** ** [calculateDiversityScore] *)

(** [counts.reduce((a, b) => a + b, 0)] *)
Definition sumCounts (counts : list nat) : nat :=
  fold_left Nat.add counts 0%nat.

Definition calculateDiversityScore (composition : TeamComposition)
  : DiversityScore :=
  let mbtiDistribution := mbtiDistribution composition in
  let learningStyleDistribution := learningStyleDistribution composition in
  let sajuElementsDistribution := sajuElementsDistribution composition in
  let expertiseCoverage := expertiseCoverage composition in
  let mbtiCounts := JsObject.values (typeCounts mbtiDistribution) in
  let mbtiDiversity :=
    calculateShannonDiversity (map JsNumber.ofNat mbtiCounts)
      (JsNumber.ofNat (teacherCount composition)) in
  let learningStyleCounts :=
    [ls_visual learningStyleDistribution; ls_auditory learningStyleDistribution;
     ls_reading learningStyleDistribution;
     ls_kinesthetic learningStyleDistribution] in
  let learningStyleDiversity :=
    calculateShannonDiversity (map JsNumber.ofZ learningStyleCounts)
      (JsNumber.ofNat (teacherCount composition * 100)) in
  let sajuCounts :=
    [se_wood sajuElementsDistribution; se_fire sajuElementsDistribution;
     se_earth sajuElementsDistribution; se_metal sajuElementsDistribution;
     se_water sajuElementsDistribution] in
  let sajuElementsDiversity :=
    calculateShannonDiversity (map JsNumber.ofZ sajuCounts) (Finite 100) in
  let subjectCounts := JsObject.values (subjects expertiseCoverage) in
  let totalSubjectTeachers := sumCounts subjectCounts in
  let subjectDiversity :=
    if (0 <? totalSubjectTeachers)%nat
    then calculateShannonDiversity (map JsNumber.ofNat subjectCounts)
           (JsNumber.ofNat totalSubjectTeachers)
    else Finite 0 in
  let gradeCounts := JsObject.values (grades expertiseCoverage) in
  let totalGradeTeachers := sumCounts gradeCounts in
  let gradeDiversity :=
    if (0 <? totalGradeTeachers)%nat
    then calculateShannonDiversity (map JsNumber.ofNat gradeCounts)
           (JsNumber.ofNat totalGradeTeachers)
    else Finite 0 in
  let overall :=
    JsNumber.div
      (JsNumber.add
         (JsNumber.add
            (JsNumber.add (JsNumber.add mbtiDiversity learningStyleDiversity)
               sajuElementsDiversity)
            subjectDiversity)
         gradeDiversity)
      (Finite 5) in
  {| ds_overall := JsNumber.round overall;
     mbtiDiversity := JsNumber.round mbtiDiversity;
     learningStyleDiversity := JsNumber.round learningStyleDiversity;
     sajuElementsDiversity := JsNumber.round sajuElementsDiversity;
     subjectDiversity := JsNumber.round subjectDiversity;
     gradeDiversity := JsNumber.round gradeDiversity |}.

(** ** [getTeamRecommendations] *)

Definition priorityOrder (p : Priority) : Z :=
  match p with high => 0 | medium => 1 | low => 2 end.

(** [if (condition) recommendations.push(r)] *)
Definition pushIf (condition : bool) (r : Recommendation)
    (recommendations : list Recommendation) : list Recommendation :=
  if condition then recommendations ++ [r] else recommendations.

Definition getTeamRecommendations (composition : TeamComposition)
    (diversityScore : DiversityScore) : list Recommendation :=
  let learningStyleDistribution := learningStyleDistribution composition in
  let sajuElementsDistribution := sajuElementsDistribution composition in
  let expertiseCoverage := expertiseCoverage composition in
  let r1 :=
    pushIf (String.eqb (ls_dominant learningStyleDistribution) "Visual"
            && (100 - ls_visual learningStyleDistribution <? 40)%Z)
      {| rec_id := "rec-1"; rec_type := diversity; rec_priority := high |} [] in
  let r2 :=
    pushIf (0 <? length (se_deficient sajuElementsDistribution))%nat
      {| rec_id := "rec-2"; rec_type := balance; rec_priority := medium |} r1 in
  let r3 :=
    pushIf (0 <? length (weakSubjects expertiseCoverage))%nat
      {| rec_id := "rec-3"; rec_type := coverage; rec_priority := high |} r2 in
  let r4 :=
    pushIf (0 <? length (weakGrades expertiseCoverage))%nat
      {| rec_id := "rec-4"; rec_type := coverage; rec_priority := medium |} r3 in
  let r5 :=
    pushIf (JsNumber.lt (ds_overall diversityScore) (Finite 50))
      {| rec_id := "rec-5"; rec_type := diversity; rec_priority := medium |} r4 in
  let r6 :=
    pushIf (JsNumber.ge (ds_overall diversityScore) (Finite 70))
      {| rec_id := "rec-6"; rec_type := balance; rec_priority := low |} r5 in
  JsArray.sort
    (fun a b =>
       inject_Z (priorityOrder (rec_priority a) - priorityOrder (rec_priority b)))
    r6.

(** ** [analyzeTeamComposition] *)

Definition analyzeTeamComposition (teamId : string)
    (teachers : list TeacherTeamData) : Clock.M TeamCompositionAnalysis :=
  let teacherCount := length teachers in
  let mbtiDistribution := analyzeMBTIDistribution teachers in
  let learningStyleDistribution := analyzeLearningStyleDistribution teachers in
  let sajuElementsDistribution := analyzeSajuElementsDistribution teachers in
  let* expertiseCoverage := analyzeExpertiseCoverage teachers in
  let roleDistribution := analyzeRoleDistribution teachers in
  let composition :=
    {| teamId := teamId;
       teacherCount := teacherCount;
       mbtiDistribution := mbtiDistribution;
       learningStyleDistribution := learningStyleDistribution;
       sajuElementsDistribution := sajuElementsDistribution;
       expertiseCoverage := expertiseCoverage;
       roleDistribution := roleDistribution |} in
  let diversityScore := calculateDiversityScore composition in
  let recommendations := getTeamRecommendations composition diversityScore in
  let* analyzedAt := Clock.newDate in
  Clock.ret
    {| composition := composition;
       diversityScore := diversityScore;
       recommendations := recommendations;
       analyzedAt := analyzedAt |}.

End TeamComposition.

(* ================================================================== *)
(** * [fairness-metrics.ts] *)
(* ================================================================== *)

Module FairnessMetrics.
Import JsNumber (num, Finite, Infinity, NegInfinity, NaN).

(** [Assignment]: the score is the overall score, a plain number. *)
Record Assignment := {
  studentId : string;
  teacherId : string;
  score : Q
}.

Record FairnessMetrics := {
  disparityIndex : Q;
  abroca : Q;
  distributionBalance : num;
  recommendations : list string
}.

(** [Math.min(1, Math.max(0, x))] *)
Definition clamp01 (x : Q) : Q := Qmin 1 (Qmax 0 x).

(** ** [calculateDisparityIndex] *)

(** One pass of the grouping loop; [if (!group) continue] skips a student
    without a group and one whose group is the empty string. *)
Definition groupStep (studentGroupMap : gmap string string)
    (groupScores : JsObject.t (list Q)) (assignment : Assignment)
  : JsObject.t (list Q) :=
  match studentGroupMap !! studentId assignment with
  | None => groupScores
  | Some group =>
      if String.eqb group "" then groupScores
      else
        let scores := default [] (JsObject.get groupScores group) in
        JsObject.set groupScores group (scores ++ [score assignment])
  end.

(** [scores.reduce((sum, s) => sum + s, 0)] *)
Definition sumScores (scores : list Q) : Q := fold_left Qplus scores 0%Q.

Definition averageStep (groupAverages : list Q) (entry : string * list Q)
  : list Q :=
  let scores := snd entry in
  if (0 <? length scores)%nat
  then groupAverages
       ++ [(sumScores scores / inject_Z (Z.of_nat (length scores)))%Q]
  else groupAverages.

(** [Math.max(...l)] and [Math.min(...l)] of a list that is not empty. *)
Definition maxOf (l : list Q) : Q :=
  match l with [] => 0%Q | x :: rest => fold_left Qmax rest x end.
Definition minOf (l : list Q) : Q :=
  match l with [] => 0%Q | x :: rest => fold_left Qmin rest x end.

Definition calculateDisparityIndex (assignments : list Assignment)
    (studentGroupMap : gmap string string) : Q :=
  if (length assignments =? 0)%nat then 0%Q
  else
    let groupScores := fold_left (groupStep studentGroupMap) assignments [] in
    let groupAverages := fold_left averageStep groupScores [] in
    if (length groupAverages <? 2)%nat then 0%Q
    else
      let maxScore := maxOf groupAverages in
      let minScore := minOf groupAverages in
      clamp01 ((maxScore - minScore) / 100).

(** ** [calculateABROCA] *)

(** [histogram[binIndex]++]; a negative index names no element of the
    array, and the bins stay as they are. *)
Definition histogramStep (bins : nat) (binSize : Q) (histogram : list nat)
    (score : Q) : list nat :=
  let binIndex := Z.min (Qfloor (score / binSize)) (Z.of_nat bins - 1) in
  if (binIndex <? 0)%Z then histogram
  else alter S (Z.to_nat binIndex) histogram.

Definition calculateABROCA (assignments : list Assignment) : Q :=
  if (length assignments =? 0)%nat then 0%Q
  else
    let scores := map score assignments in
    let bins := 10%nat in
    let binSize := (100 / inject_Z (Z.of_nat bins))%Q in
    let histogram :=
      fold_left (histogramStep bins binSize) scores (replicate bins 0%nat) in
    let idealCount :=
      (inject_Z (Z.of_nat (length scores)) / inject_Z (Z.of_nat bins))%Q in
    let l1Distance :=
      fold_left
        (fun l1Distance count =>
           (l1Distance + Qabs (inject_Z (Z.of_nat count) - idealCount))%Q)
        histogram 0%Q in
    let maxL1Distance := (2 * inject_Z (Z.of_nat (length scores)))%Q in
    clamp01 (l1Distance / maxL1Distance).

(** ** [calculateDistributionBalance] *)

(** The loop that fills [teacherCounts]. *)
Definition countByTeacher (assignments : list Assignment) : JsObject.t nat :=
  fold_left
    (fun teacherCounts assignment =>
       JsObject.increment teacherCounts (teacherId assignment))
    assignments [].

(** [counts.reduce((sum, c) => sum + c, 0)] *)
Definition sumOf (counts : list nat) : num :=
  fold_left (fun sum c => JsNumber.add sum (JsNumber.ofNat c)) counts (Finite 0).

(** [counts.reduce((sum, c) => sum + Math.pow(c - mean, 2), 0)] *)
Definition sumSquares (mean : num) (counts : list nat) : num :=
  fold_left
    (fun sum c =>
       let d := JsNumber.sub (JsNumber.ofNat c) mean in
       JsNumber.add sum (JsNumber.mul d d))
    counts (Finite 0).

(** The function from [counts] on. *)
Definition balanceOfCounts (counts : list nat) : num :=
  if (length counts =? 0)%nat then Finite 1
  else
    let mean := JsNumber.div (sumOf counts) (JsNumber.ofNat (length counts)) in
    if JsNumber.isZero mean then Finite 1
    else
      let variance :=
        JsNumber.div (sumSquares mean counts) (JsNumber.ofNat (length counts)) in
      let stdDev := JsNumber.sqrt variance in
      JsNumber.min (Finite 1)
        (JsNumber.max (Finite 0)
           (JsNumber.sub (Finite 1) (JsNumber.div stdDev mean))).

Definition calculateDistributionBalance (assignments : list Assignment) : num :=
  if (length assignments =? 0)%nat then Finite 1
  else balanceOfCounts (JsObject.values (countByTeacher assignments)).

(** ** [generateFairnessRecommendations] and [calculateFairnessMetrics] *)

Definition pushIf (condition : bool) (message : string)
    (recommendations : list string) : list string :=
  if condition then recommendations ++ [message] else recommendations.

Definition generateFairnessRecommendations (disparityIndex abroca : Q)
    (distributionBalance : num) : list string :=
  let r1 :=
    pushIf (Qlt_bool 0.2 disparityIndex)
      "학교 간 궁합 점수 차이가 큽니다. 가중치 재조정을 검토하세요." [] in
  let r2 :=
    pushIf (Qlt_bool 0.3 abroca)
      "궁합 점수 분포가 편향되어 있습니다. 알고리즘 검토가 필요합니다." r1 in
  let r3 :=
    pushIf (JsNumber.lt distributionBalance (Finite (7 / 10)))
      "선생님별 배정 분포가 불균형합니다. 부하 분산 가중치를 높이세요." r2 in
  pushIf (length r3 =? 0)%nat "공정성 메트릭이 정상 범위입니다." r3.

Definition calculateFairnessMetrics (assignments : list Assignment)
    (studentGroupMap : option (gmap string string)) : FairnessMetrics :=
  let disparityIndex :=
    match studentGroupMap with
    | Some m => calculateDisparityIndex assignments m
    | None => 0%Q
    end in
  let abroca := calculateABROCA assignments in
  let distributionBalance := calculateDistributionBalance assignments in
  let recommendations :=
    generateFairnessRecommendations disparityIndex abroca distributionBalance in
  {| disparityIndex := disparityIndex;
     abroca := abroca;
     distributionBalance := distributionBalance;
     recommendations := recommendations |}.

End FairnessMetrics.

(* ------------------------------------------------------------------ *)
(** ** The composition analysis as the specification words it *)
(* ------------------------------------------------------------------ *)

Module TeamCompositionSpec.
Import Types TeamComposition.

(** *** Axis ratios *)

(** A teacher counts for a letter when the type code is present, not
    empty, and contains the letter once put in upper case. *)
Definition hasLetter (letter : string) (teacher : TeacherTeamData) : bool :=
  match tt_mbtiType teacher with
  | Some mbti => negb (String.eqb mbti "") && includes (toUpperCase mbti) letter
  | None => false
  end.

(** The occurrence count of a letter over the roster. *)
Definition letterCount (letter : string) (teachers : list TeacherTeamData)
  : nat := length (List.filter (hasLetter letter) teachers).

(** The percentage of a count over a sum, 0 when the sum is zero. *)
Definition percentage (count sum : nat) : Q :=
  if (sum =? 0)%nat then 0%Q
  else ((inject_Z (Z.of_nat count) / inject_Z (Z.of_nat sum)) * 100)%Q.

(** Each letter over the sum of the two letters of its own axis. *)
Definition ownAxisRatios (teachers : list TeacherTeamData) : AxisRatios :=
  let c letter := letterCount letter teachers in
  {| ratio_E := percentage (c "E") (c "E" + c "I");
     ratio_I := percentage (c "I") (c "E" + c "I");
     ratio_S := percentage (c "S") (c "S" + c "N");
     ratio_N := percentage (c "N") (c "S" + c "N");
     ratio_T := percentage (c "T") (c "T" + c "F");
     ratio_F := percentage (c "F") (c "T" + c "F");
     ratio_J := percentage (c "J") (c "J" + c "P");
     ratio_P := percentage (c "P") (c "J" + c "P") |}.

(** Each letter over the sum of the E and I counts. *)
Definition extraversionAxisRatios (teachers : list TeacherTeamData)
  : AxisRatios :=
  let c letter := letterCount letter teachers in
  let sum := (c "E" + c "I")%nat in
  {| ratio_E := percentage (c "E") sum; ratio_I := percentage (c "I") sum;
     ratio_S := percentage (c "S") sum; ratio_N := percentage (c "N") sum;
     ratio_T := percentage (c "T") sum; ratio_F := percentage (c "F") sum;
     ratio_J := percentage (c "J") sum; ratio_P := percentage (c "P") sum |}.

(** A type code with exactly one letter of each of the four axes. *)
Definition oneLetterPerAxis (mbti : string) : bool :=
  let type := toUpperCase mbti in
  xorb (includes type "E") (includes type "I")
  && xorb (includes type "S") (includes type "N")
  && xorb (includes type "T") (includes type "F")
  && xorb (includes type "J") (includes type "P").

Definition wellTyped (teacher : TeacherTeamData) : Prop :=
  forall mbti, tt_mbtiType teacher = Some mbti -> mbti <> "" ->
    oneLetterPerAxis mbti = true.

(** *** Coverage *)

(** The labels of all the teachers' student-grade lists. *)
Definition gradeLabels (teachers : list TeacherTeamData) : list string :=
  flat_map (fun t => map gradeToLabel (default [] (tt_studentGrades t)))
    teachers.

(** The number of occurrences of a name across those lists. *)
Definition occurrences (name : string) (teachers : list TeacherTeamData)
  : nat := length (List.filter (String.eqb name) (gradeLabels teachers)).

(** The expected even share, [teacherCount / numberOfCategories]. *)
Definition evenShare (teachers : list TeacherTeamData)
    (categories : list string) : Q :=
  (inject_Z (Z.of_nat (length teachers))
   / inject_Z (Z.of_nat (length categories)))%Q.

(** A tally below 50% of the share. *)
Definition belowHalfShare (tally : nat) (share : Q) : bool :=
  Qlt_bool (inject_Z (Z.of_nat tally)) ((1 # 2) * share).

(** The categories whose occurrence count is below half the even share. *)
Definition weakAmong (categories : list string)
    (teachers : list TeacherTeamData) : list string :=
  List.filter
    (fun name =>
       belowHalfShare (occurrences name teachers) (evenShare teachers categories))
    categories.

End TeamCompositionSpec.

(* ------------------------------------------------------------------ *)
(** ** Distribution balance as the specification words it *)
(* ------------------------------------------------------------------ *)

Module FairnessMetricsSpec.
Import FairnessMetrics.

(** The number of assignments of a teacher. *)
Definition assignmentsOf (id : string) (assignments : list Assignment) : nat :=
  length (List.filter (fun a => String.eqb (teacherId a) id) assignments).

(** The teachers that have an assignment, in order of first appearance. *)
Definition teachersOf (assignments : list Assignment) : list string :=
  fold_left
    (fun seen a =>
       if existsb (String.eqb (teacherId a)) seen then seen
       else seen ++ [teacherId a])
    assignments [].

Definition perTeacherCounts (assignments : list Assignment) : list nat :=
  map (fun id => assignmentsOf id assignments) (teachersOf assignments).

Definition total (counts : list nat) : nat := fold_right Nat.add 0%nat counts.

Definition mean (counts : list nat) : R :=
  (INR (total counts) / INR (length counts))%R.

Definition squares (m : R) (counts : list nat) : R :=
  fold_right (fun c acc => ((INR c - m) * (INR c - m) + acc)%R) 0%R counts.

Definition stdDev (counts : list nat) : R :=
  R_sqrt.sqrt (squares (mean counts) counts / INR (length counts)).

(** [max(0, min(1, 1 - stdDev / mean))] *)
Definition balance (counts : list nat) : R :=
  Rmax 0 (Rmin 1 (1 - stdDev counts / mean counts)).

End FairnessMetricsSpec.

(* ------------------------------------------------------------------ *)
(** ** Dependence on the clock *)
(* ------------------------------------------------------------------ *)

Module PuritySpec.


End PuritySpec.

(* ------------------------------------------------------------------ *)
(** ** Sample inputs of the analyses *)
(* ------------------------------------------------------------------ *)

Module AnalysisSamples.
Import Types TeamComposition.

(** A teacher record with a type code and student grades, created at 0. *)
Definition member (mbti : option string) (studentGrades : list Z)
  : TeacherTeamData :=
  {| tt_id := "t"; tt_name := "teacher"; tt_role := "TEACHER";
     tt_createdAt := 0; tt_mbtiType := mbti; tt_mbtiPercentages := None;
     tt_sajuResult := None; tt_studentGrades := Some studentGrades |}.

(** A clock that always reads the same time. *)
Definition clockAt (time : Z) : Clock.readings := fun _ => time.

Definition assignment (student teacher : string)
  : FairnessMetrics.Assignment :=
  {| FairnessMetrics.studentId := student;
     FairnessMetrics.teacherId := teacher;
     FairnessMetrics.score := 80 |}.

End AnalysisSamples.

(* ------------------------------------------------------------------ *)
(** ** Proof automation for comparisons of reals *)
(* ------------------------------------------------------------------ *)

Module RealTactics.

(** Decide the comparisons of reals that guard a definition. *)
Ltac decide_reals :=
  repeat
    (match goal with
     | |- context [Req_dec_T ?a ?b] => destruct (Req_dec_T a b); try lra
     | |- context [Rlt_dec ?a ?b] => destruct (Rlt_dec a b); try lra
     end).

(** Case analysis on every [Rmin] and [Rmax], innermost first. *)
Ltac minmax_cases :=
  unfold Rmin, Rmax;
  repeat
    (match goal with
     | |- context [Rle_dec ?a ?b] =>
         lazymatch a with
         | context [Rle_dec] => fail
         | _ => lazymatch b with
                | context [Rle_dec] => fail
                | _ => destruct (Rle_dec a b); cbn iota
                end
         end
     end);
  try lra.

End RealTactics.

(* ================================================================== *)
(** * [auto-assignment.ts]: the descriptive aggregates *)
(* ================================================================== *)

(** [calculateLoadStats] and [summarizeAssignments], and the private
    [calculateSummary] of [repositories/assignment.ts].  A [Record] keyed by
    teacher id is a [JsObject.t]; ids that JavaScript treats specially as
    property names (array indices, ["__proto__"]) are not modelled. *)
Module AssignmentStats.
Import Types.
Import JsNumber (num, Finite, Infinity, NegInfinity, NaN).

Record LoadStats := {
  stat_mean : Q;
  stat_variance : Q;
  stat_stdDev : num;
  stat_min : Z;
  stat_max : Z;
  stat_range : Z
}.

(** [Math.min(...loads)] and [Math.max(...loads)] of a list that is not
    empty. *)
Definition minLoad (loads : list Z) : Z :=
  match loads with [] => 0%Z | x :: rest => fold_left Z.min rest x end.
Definition maxLoad (loads : list Z) : Z :=
  match loads with [] => 0%Z | x :: rest => fold_left Z.max rest x end.

(** [loads.reduce((sum, load) => sum + load, 0)] *)
Definition sumLoads (loads : list Z) : Z := fold_left Z.add loads 0%Z.

(** [loads.reduce((sum, load) => sum + Math.pow(load - mean, 2), 0)] *)
Definition sumSquaredDeviations (mean : Q) (loads : list Z) : Q :=
  fold_left
    (fun sum load => (sum + (inject_Z load - mean) * (inject_Z load - mean))%Q)
    loads 0%Q.

Definition calculateLoadStats (teacherLoads : JsObject.t Z) : LoadStats :=
  let loads := JsObject.values teacherLoads in
  if (length loads =? 0)%nat then
    {| stat_mean := 0; stat_variance := 0; stat_stdDev := Finite 0;
       stat_min := 0; stat_max := 0; stat_range := 0 |}
  else
    let n := inject_Z (Z.of_nat (length loads)) in
    let mean := (inject_Z (sumLoads loads) / n)%Q in
    let variance := (sumSquaredDeviations mean loads / n)%Q in
    let stdDev := JsNumber.sqrt (Finite (Q2R variance)) in
    let min := minLoad loads in
    let max := maxLoad loads in
    {| stat_mean := mean; stat_variance := variance; stat_stdDev := stdDev;
       stat_min := min; stat_max := max; stat_range := (max - min)%Z |}.

Record AssignmentSummary := {
  totalStudents : nat;
  assignedStudents : nat;
  averageScore : Q;
  minScore : Q;
  maxScore : Q;
  teacherCounts : JsObject.t nat
}.

(** [scores.reduce((sum, score) => sum + score, 0)] *)
Definition sumScores (scores : list Q) : Q := fold_left Qplus scores 0%Q.

(** The loop [counts[a.teacherId] = (counts[a.teacherId] || 0) + 1]. *)
Definition countTeachers (assignments : list DetailedAssignment)
  : JsObject.t nat :=
  fold_left
    (fun counts assignment => JsObject.increment counts (teacherId assignment))
    assignments [].

Definition summarizeAssignments (assignments : list DetailedAssignment)
  : AssignmentSummary :=
  if (length assignments =? 0)%nat then
    {| totalStudents := 0; assignedStudents := 0; averageScore := 0;
       minScore := 0; maxScore := 0; teacherCounts := [] |}
  else
    let scores := map (fun a => overall (score a)) assignments in
    let averageScore :=
      (sumScores scores / inject_Z (Z.of_nat (length scores)))%Q in
    let teacherCounts := countTeachers assignments in
    {| totalStudents := length assignments;
       assignedStudents := length assignments;
       averageScore := averageScore;
       minScore := FairnessMetrics.minOf scores;
       maxScore := FairnessMetrics.maxOf scores;
       teacherCounts := teacherCounts |}.

(** The summary type of [repositories/assignment.ts]. *)
Record ProposalSummary := {
  ps_totalStudents : nat;
  ps_assignedStudents : nat;
  ps_averageScore : Q;
  ps_minScore : Q;
  ps_maxScore : Q;
  ps_teacherLoads : JsObject.t nat
}.

(** [calculateSummary] of [repositories/assignment.ts]. *)
Definition calculateSummary (assignments : list DetailedAssignment)
  : ProposalSummary :=
  if (length assignments =? 0)%nat then
    {| ps_totalStudents := 0; ps_assignedStudents := 0; ps_averageScore := 0;
       ps_minScore := 0; ps_maxScore := 0; ps_teacherLoads := [] |}
  else
    let scores := map (fun a => overall (score a)) assignments in
    let averageScore :=
      (sumScores scores / inject_Z (Z.of_nat (length scores)))%Q in
    let minScore := FairnessMetrics.minOf scores in
    let maxScore := FairnessMetrics.maxOf scores in
    let teacherLoads := countTeachers assignments in
    {| ps_totalStudents := length assignments;
       ps_assignedStudents := length assignments;
       ps_averageScore := averageScore;
       ps_minScore := minScore;
       ps_maxScore := maxScore;
       ps_teacherLoads := teacherLoads |}.

End AssignmentStats.

(* ------------------------------------------------------------------ *)
(** ** What the aggregates are measured against *)
(* ------------------------------------------------------------------ *)

Module AssignmentStatsSpec.
Import Types.

(** The number of assignments that name a teacher. *)
Definition assignedTo (id : string) (assignments : list DetailedAssignment)
  : nat :=
  length (List.filter (fun a => String.eqb (teacherId a) id) assignments).

(** The entry a tally holds for a count: none for 0. *)
Definition entryOf (count : nat) : option nat :=
  if (count =? 0)%nat then None else Some count.

(** The overall scores of a list of assignments. *)
Definition scoresOf (assignments : list DetailedAssignment) : list Q :=
  map (fun a => overall (score a)) assignments.

End AssignmentStatsSpec.

(* ------------------------------------------------------------------ *)
(** ** The roster as the analyses read it *)
(* ------------------------------------------------------------------ *)

Module RosterSpec.
Import Types TeamComposition.

(** The type codes of the roster, in roster order: the [mbtiType] of each
    teacher that has one other than the empty string. *)
Definition typeCodes (teachers : list TeacherTeamData) : list string :=
  flat_map
    (fun t =>
       match tt_mbtiType t with
       | Some mbti => if String.eqb mbti "" then [] else [mbti]
       | None => []
       end)
    teachers.

(** The number of teachers with the type code [mbti]. *)
Definition typeCount (mbti : string) (teachers : list TeacherTeamData) : nat :=
  length (List.filter (String.eqb mbti) (typeCodes teachers)).

(** The student grades of the whole roster. *)
Definition gradeEntries (teachers : list TeacherTeamData) : list Z :=
  flat_map (fun t => default [] (tt_studentGrades t)) teachers.

(** The five elements of a teacher that has them are non-negative. *)
Definition nonNegativeElements (teacher : TeacherTeamData) : Prop :=
  forall result elements key value,
    tt_sajuResult teacher = Some result ->
    fiveElements result = Some elements ->
    elements !! key = Some value -> (0 <= value)%Q.

End RosterSpec.

(* ------------------------------------------------------------------ *)
(** ** More sample rosters *)
(* ------------------------------------------------------------------ *)

Module RosterSamples.
Import Types TeamComposition.

(** A teacher with learning-style percentages only. *)
Definition styled (v a r k : Q) : TeacherTeamData :=
  {| tt_id := "t"; tt_name := "teacher"; tt_role := "TEACHER";
     tt_createdAt := 0; tt_mbtiType := None;
     tt_mbtiPercentages :=
       Some {| mbti_E := None; mbti_I := None; mbti_S := None;
               mbti_N := None; mbti_T := None; mbti_F := None;
               mbti_J := None; mbti_P := None;
               visual := Some v; auditory := Some a;
               reading := Some r; kinesthetic := Some k |};
     tt_sajuResult := None; tt_studentGrades := None |}.

(** A teacher with five-element counts only. *)
Definition withElements (wood fire earth metal water : Q) : TeacherTeamData :=
  {| tt_id := "t"; tt_name := "teacher"; tt_role := "TEACHER";
     tt_createdAt := 0; tt_mbtiType := None; tt_mbtiPercentages := None;
     tt_sajuResult :=
       Some {| fiveElements :=
                 Some (<["wood" := wood]> (<["fire" := fire]>
                       (<["earth" := earth]> (<["metal" := metal]>
                        (<["water" := water]> ∅)))));
               dayMaster := None |};
     tt_studentGrades := None |}.

End RosterSamples.

(* ------------------------------------------------------------------ *)
(** ** The disparity index, by groups *)
(* ------------------------------------------------------------------ *)

Module DisparitySpec.
Import FairnessMetrics.

(** The group of the student of an assignment, when the map has one that
    is not the empty string. *)
Definition groupOf (studentGroupMap : gmap string string) (a : Assignment)
  : option string :=
  match studentGroupMap !! studentId a with
  | Some group => if String.eqb group "" then None else Some group
  | None => None
  end.

Definition inGroup (studentGroupMap : gmap string string) (group : string)
    (a : Assignment) : bool :=
  match groupOf studentGroupMap a with
  | Some g => String.eqb g group
  | None => false
  end.

(** The groups that have an assignment, in order of first appearance. *)
Definition groupsOf (studentGroupMap : gmap string string)
    (assignments : list Assignment) : list string :=
  fold_left
    (fun seen a =>
       match groupOf studentGroupMap a with
       | Some g => if existsb (String.eqb g) seen then seen else seen ++ [g]
       | None => seen
       end)
    assignments [].

(** The scores of the assignments of a group, in input order. *)
Definition scoresOf (studentGroupMap : gmap string string) (group : string)
    (assignments : list Assignment) : list Q :=
  map score (List.filter (inGroup studentGroupMap group) assignments).

Definition mean (scores : list Q) : Q :=
  (sumScores scores / inject_Z (Z.of_nat (length scores)))%Q.

Definition groupMeans (studentGroupMap : gmap string string)
    (assignments : list Assignment) : list Q :=
  map (fun g => mean (scoresOf studentGroupMap g assignments))
    (groupsOf studentGroupMap assignments).

(** The largest mean minus the smallest. *)
Definition spread (means : list Q) : Q := (maxOf means - minOf means)%Q.

End DisparitySpec.

(* ------------------------------------------------------------------ *)
(** ** Scores *)
(* ------------------------------------------------------------------ *)

Module ScoreSpec.
Import JsNumber.

(** NaN, or a whole number from 0 to [hi]. *)
Definition wholeUpTo (hi : Z) (x : num) : Prop :=
  x = NaN \/ exists z : Z, x = Finite (IZR z) /\ (0 <= z <= hi)%Z.

End ScoreSpec.

(* ------------------------------------------------------------------ *)
(** ** Keys of plain objects *)
(* ------------------------------------------------------------------ *)

(** A plain object [{}] inherits properties from [Object.prototype].  Under
    one of their names, [o[k] = (o[k] || 0) + 1] does not count: the read
    gives the inherited function or object, and a write to ["__proto__"]
    stores nothing.  [JsObject] describes the own entries of an object; it
    agrees with a plain object on every key that is not one of these names
    (a [Map] has no such keys). *)
Module JsNames.

Definition inherited : list string :=
  ["__proto__"; "constructor"; "hasOwnProperty"; "isPrototypeOf";
   "propertyIsEnumerable"; "toLocaleString"; "toString"; "valueOf";
   "__defineGetter__"; "__defineSetter__"; "__lookupGetter__";
   "__lookupSetter__"].

(** A key that a plain object holds as an entry of its own. *)
Definition ownKey (k : string) : Prop := ~ In k inherited.

End JsNames.

(* ------------------------------------------------------------------ *)
(** ** Coverage, by grade number *)
(* ------------------------------------------------------------------ *)

Module CoverageSpec.
Import Types TeamComposition TeamCompositionSpec RosterSpec.







End CoverageSpec.

(* ================================================================== *)
(** * Comparisons of rationals *)
(* ================================================================== *)

Module QFacts.

Lemma Qlt_bool_true (a b : Q) : Qlt_bool a b = true <-> (a < b)%Q.
Proof.
  unfold Qlt_bool. rewrite negb_true_iff.
  split.
  - intros H. apply Qnot_le_lt. intros Hle.
    apply Qle_bool_iff in Hle. congruence.
  - intros H. destruct (Qle_bool b a) eqn:E; [|reflexivity].
    apply Qle_bool_iff in E. exfalso. exact (Qlt_not_le _ _ H E).
Qed.

Lemma Qlt_bool_false (a b : Q) : Qlt_bool a b = false <-> (b <= a)%Q.
Proof.
  unfold Qlt_bool. rewrite negb_false_iff. apply Qle_bool_iff.
Qed.

Lemma Qlt_bool_compat a b b' : (b == b')%Q -> Qlt_bool a b = Qlt_bool a b'.
Proof.
  intros Heq. unfold Qlt_bool. f_equal.
  destruct (Qle_bool b a) eqn:E1, (Qle_bool b' a) eqn:E2; try reflexivity.
  - apply Qle_bool_iff in E1. rewrite Heq in E1. apply Qle_bool_iff in E1.
    congruence.
  - apply Qle_bool_iff in E2. rewrite <- Heq in E2. apply Qle_bool_iff in E2.
    congruence.
Qed.

End QFacts.

(* ================================================================== *)
(** * Properties of the assignment engine *)
(* ================================================================== *)

Module AutoAssignmentProofs.
Import Types AutoAssignment AutoAssignmentSpec QFacts.

(** The cap of the code is the cap of the specification. *)
Lemma maxLoadOf_effectiveCap students teachers options :
  maxLoadOf options (averageLoadOf students teachers)
  = effectiveCap students teachers options.
Proof. reflexivity. Qed.

(** ** The seeding loop *)

Lemma seedLoads_other teachers : forall m id,
  (forall t, In t teachers -> tc_id t <> id) ->
  seedLoads teachers m !! id = m !! id.
Proof.
  induction teachers as [|t rest IH]; intros m id Hid; simpl; [reflexivity|].
  rewrite IH by (intros u Hu; apply Hid; right; exact Hu).
  apply lookup_insert_ne. apply Hid. left. reflexivity.
Qed.

Lemma seedLoads_is_Some teachers : forall m t,
  In t teachers -> is_Some (seedLoads teachers m !! tc_id t).
Proof.
  induction teachers as [|u rest IH]; intros m t Hin; simpl; [destruct Hin|].
  destruct (decide (Exists (fun v => tc_id v = tc_id t) rest)) as [Hex|Hno].
  - apply Exists_exists in Hex as (v & Hv & Heq).
    rewrite <- Heq. apply IH. apply list_elem_of_In. exact Hv.
  - destruct Hin as [->|Hin].
    + rewrite seedLoads_other.
      * rewrite lookup_insert_eq. eauto.
      * intros v Hv Heq. apply Hno. apply Exists_exists.
        exists v. split; [apply list_elem_of_In; exact Hv | exact Heq].
    + exfalso. apply Hno. apply Exists_exists.
      exists t. split; [apply list_elem_of_In; exact Hin | reflexivity].
Qed.

Lemma seedLoads_seeded teachers : forall m,
  NoDup (map tc_id teachers) -> seeded teachers (seedLoads teachers m).
Proof.
  induction teachers as [|u rest IH]; intros m Hnd t Hin; [destruct Hin|].
  simpl in Hnd. apply NoDup_cons in Hnd as [Hu Hnd]. simpl.
  destruct Hin as [->|Hin].
  - rewrite seedLoads_other; [apply lookup_insert_eq|].
    intros v Hv Heq. apply Hu. rewrite <- Heq.
    apply list_elem_of_In. apply in_map. exact Hv.
  - apply IH; assumption.
Qed.


(** ** The inner loop: which teacher is retained *)

Section Loops.
Variable scoreFn : CompatibilityScoreFn.
Variable options : AutoAssignmentOptions.
Variable averageLoad : Q.
Variable maxLoad : Z.

Local Abbreviation teacherStep := (teacherStep scoreFn options averageLoad maxLoad).
Local Abbreviation teachersLoop := (teachersLoop scoreFn options averageLoad maxLoad).
Local Abbreviation studentStep := (studentStep scoreFn options averageLoad maxLoad).
Local Abbreviation studentsLoop := (studentsLoop scoreFn options averageLoad maxLoad).
Local Abbreviation scoreOf := (scoreOf scoreFn averageLoad).
Local Abbreviation atCapacity := (atCapacity maxLoad).
Local Abbreviation belowMinimum := (belowMinimum options).
Local Abbreviation candidate := (candidate scoreFn options averageLoad maxLoad).
Local Abbreviation BestOf := (BestOf scoreFn options averageLoad maxLoad).

Lemma belowThreshold_belowMinimum sc :
  belowThreshold options sc = true -> belowMinimum sc.
Proof.
  unfold belowThreshold, AutoAssignmentSpec.belowMinimum.
  destruct (minCompatibilityThreshold options) as [th|]; [|discriminate].
  intros H. apply andb_true_iff in H as [_ H].
  exists th. split; [reflexivity | apply Qlt_bool_true; exact H].
Qed.

Lemma belowMinimum_belowThreshold sc :
  (0 <= overall sc)%Q -> belowMinimum sc -> belowThreshold options sc = true.
Proof.
  intros Hpos (th & Hth & Hlt). unfold belowThreshold. rewrite Hth.
  apply andb_true_iff. split; [|apply Qlt_bool_true; exact Hlt].
  apply negb_true_iff. destruct (Qeq_bool th 0) eqn:E; [|reflexivity].
  apply Qeq_bool_iff in E. rewrite E in Hlt.
  exfalso. exact (Qlt_not_le _ _ Hlt Hpos).
Qed.

(** The retained teacher is one of the teachers scanned, found below
    the cap. *)
Lemma teachersLoop_id teacherLoads student teachers : forall best id,
  bestTeacherId (teachersLoop teacherLoads student teachers best) = Some id ->
  bestTeacherId best = Some id \/
  exists t, In t teachers /\ tc_id t = id /\
            (getLoad teacherLoads id < maxLoad)%Z.
Proof.
  induction teachers as [|t rest IH]; intros best id H; simpl in H.
  - left. exact H.
  - apply IH in H as [H|(u & Hu & Hid & Hlt)].
    + unfold AutoAssignment.teacherStep in H.
      destruct (Z.leb_spec maxLoad (getLoad teacherLoads (tc_id t)));
        [left; exact H|].
      destruct (belowThreshold _ _); [left; exact H|].
      destruct (improves _ _); [|left; exact H].
      simpl in H. injection H as <-.
      right. exists t. split; [left; reflexivity|]. split; [reflexivity|lia].
    + right. exists u. split; [right; exact Hu|]. split; assumption.
Qed.

Lemma committed_id best id sc :
  committed best = Some (id, sc) ->
  bestTeacherId best = Some id /\ bestScore best = Some sc /\ id <> "".
Proof.
  unfold committed.
  destruct (bestTeacherId best) as [i|]; [|discriminate].
  destruct (bestScore best) as [s|]; [|discriminate].
  destruct (decide (i = "")); [discriminate|].
  intros H. injection H as <- <-. auto.
Qed.

Hypothesis scores_nonneg :
  forall t s a, (0 <= overall (scoreFn t s a))%Q.

Lemma BestOf_not_candidate teacherLoads student seen best t :
  ~ candidate teacherLoads student t ->
  BestOf teacherLoads student seen best ->
  BestOf teacherLoads student (seen ++ [t]) best.
Proof.
  intros Hnc [[-> Hnone]|(before & t0 & after & -> & -> & Hc & Hb & Ha)].
  - left. split; [reflexivity|].
    intros u Hu. apply in_app_or in Hu as [Hu|[<-|[]]]; auto.
  - right. exists before, t0, (after ++ [t]).
    split; [rewrite <- app_assoc; reflexivity|].
    split; [reflexivity|]. split; [exact Hc|]. split; [exact Hb|].
    intros u Hu Hcu. apply in_app_or in Hu as [Hu|[<-|[]]]; [auto|].
    contradiction.
Qed.

Lemma teacherStep_BestOf teacherLoads student seen best t :
  BestOf teacherLoads student seen best ->
  BestOf teacherLoads student (seen ++ [t])
    (teacherStep teacherLoads student best t).
Proof.
  intros HB. unfold AutoAssignment.teacherStep.
  destruct (Z.leb_spec maxLoad (getLoad teacherLoads (tc_id t))) as [Hcap|Hcap].
  { apply BestOf_not_candidate; [|exact HB]. intros [Hc _]. apply Hc. exact Hcap. }
  fold (scoreOf teacherLoads student t).
  destruct (belowThreshold options (scoreOf teacherLoads student t)) eqn:Hth.
  { apply BestOf_not_candidate; [|exact HB]. intros [_ Hc]. apply Hc.
    apply belowThreshold_belowMinimum. exact Hth. }
  assert (Hcand : candidate teacherLoads student t).
  { split.
    - unfold AutoAssignmentSpec.atCapacity. lia.
    - intros Hbm. apply belowMinimum_belowThreshold in Hbm;
        [congruence | apply scores_nonneg]. }
  destruct HB as [[-> Hnone]|(before & t0 & after & -> & -> & Hc & Hb & Ha)].
  - simpl. right. exists seen, t, [].
    split; [reflexivity|].
    split; [reflexivity|]. split; [exact Hcand|]. split.
    + intros u Hu Hcu. exfalso. exact (Hnone u Hu Hcu).
    + intros u [].
  - unfold improves. simpl.
    destruct (Qlt_bool (overall (scoreOf teacherLoads student t0))
                       (overall (scoreOf teacherLoads student t))) eqn:Hlt.
    + apply Qlt_bool_true in Hlt.
      right. exists (before ++ t0 :: after), t, [].
      split; [reflexivity|].
      split; [reflexivity|]. split; [exact Hcand|]. split.
      * intros u Hu Hcu. apply in_app_or in Hu as [Hu|[<-|Hu]].
        -- eapply Qlt_trans; [apply Hb; assumption | exact Hlt].
        -- exact Hlt.
        -- eapply Qle_lt_trans; [apply Ha; assumption | exact Hlt].
      * intros u [].
    + apply Qlt_bool_false in Hlt.
      right. exists before, t0, (after ++ [t]).
      split; [rewrite <- app_assoc; reflexivity|].
      split; [reflexivity|]. split; [exact Hc|]. split; [exact Hb|].
      intros u Hu Hcu. apply in_app_or in Hu as [Hu|[<-|[]]]; auto.
Qed.

Lemma teachersLoop_BestOf teacherLoads student teachers : forall seen best,
  BestOf teacherLoads student seen best ->
  BestOf teacherLoads student (seen ++ teachers)
    (teachersLoop teacherLoads student teachers best).
Proof.
  induction teachers as [|t rest IH]; intros seen best HB; simpl.
  - rewrite app_nil_r. exact HB.
  - replace (seen ++ t :: rest) with ((seen ++ [t]) ++ rest)
      by (rewrite <- app_assoc; reflexivity).
    apply IH. apply teacherStep_BestOf. exact HB.
Qed.

(** The inner loop and the final guard make the selection of the
    specification, for teachers whose ids are not empty. *)
Lemma teachersLoop_Selected teacherLoads student teachers :
  (forall t, In t teachers -> tc_id t <> "") ->
  match committed (teachersLoop teacherLoads student teachers noBest) with
  | None => Selected scoreFn options averageLoad maxLoad
              teacherLoads student teachers None
  | Some (id, sc) =>
      exists t, id = tc_id t /\ sc = scoreOf teacherLoads student t /\
        Selected scoreFn options averageLoad maxLoad
          teacherLoads student teachers (Some t)
  end.
Proof.
  intros Hids.
  assert (HB : BestOf teacherLoads student ([] ++ teachers)
                 (teachersLoop teacherLoads student teachers noBest)).
  { apply teachersLoop_BestOf. left. split; [reflexivity|]. intros u []. }
  simpl in HB.
  destruct HB as [[-> Hnone]|(before & t & after & Heq & -> & Hc & Hb & Ha)].
  - simpl. apply Selected_none. exact Hnone.
  - unfold committed. simpl.
    destruct (decide (tc_id t = "")) as [He|_].
    + exfalso. apply (Hids t); [|exact He].
      rewrite Heq. apply in_or_app. right. left. reflexivity.
    + exists t. split; [reflexivity|]. split; [reflexivity|].
      eapply Selected_some; eassumption.
Qed.


(** ** The outer loop *)

(** The list of assignments is only ever extended at its end. *)
Lemma studentStep_acc teachers teacherLoads acc student :
  studentStep teachers (teacherLoads, acc) student
  = (fst (studentStep teachers (teacherLoads, []) student),
     acc ++ snd (studentStep teachers (teacherLoads, []) student)).
Proof.
  unfold AutoAssignment.studentStep.
  destruct (committed _) as [[id sc]|]; simpl.
  - reflexivity.
  - rewrite app_nil_r. reflexivity.
Qed.

Lemma studentsLoop_acc teachers students : forall teacherLoads acc,
  studentsLoop teachers students (teacherLoads, acc)
  = (fst (studentsLoop teachers students (teacherLoads, [])),
     acc ++ snd (studentsLoop teachers students (teacherLoads, []))).
Proof.
  induction students as [|s rest IH]; intros teacherLoads acc;
    cbn [AutoAssignment.studentsLoop].
  - simpl. rewrite app_nil_r. reflexivity.
  - rewrite studentStep_acc.
    destruct (studentStep teachers (teacherLoads, []) s) as [l1 d] eqn:E.
    simpl. rewrite (IH l1 (acc ++ d)), (IH l1 d). simpl.
    rewrite app_assoc. reflexivity.
Qed.

(** The loop read from the first student on. *)
Lemma studentsLoop_cons teachers student rest teacherLoads :
  studentsLoop teachers (student :: rest) (teacherLoads, [])
  = match committed (teachersLoop teacherLoads student teachers noBest) with
    | Some (id, sc) =>
        let st := studentsLoop teachers rest
                    (<[id := (getLoad teacherLoads id + 1)%Z]> teacherLoads, []) in
        (fst st,
         {| studentId := sc_id student; teacherId := id; score := sc |}
           :: snd st)
    | None => studentsLoop teachers rest (teacherLoads, [])
    end.
Proof.
  cbn [AutoAssignment.studentsLoop]. unfold AutoAssignment.studentStep.
  destruct (committed _) as [[id sc]|]; [|reflexivity].
  rewrite studentsLoop_acc. reflexivity.
Qed.

Lemma studentsLoop_app teachers pre post : forall st,
  studentsLoop teachers (pre ++ post) st
  = studentsLoop teachers post (studentsLoop teachers pre st).
Proof.
  induction pre as [|s rest IH]; intros st; simpl; [reflexivity|apply IH].
Qed.

(** The student ids of the result, in order, are picked from the
    student ids of the input, in order. *)
Lemma studentsLoop_sublist teachers students : forall teacherLoads,
  sublist
    (map studentId (snd (studentsLoop teachers students (teacherLoads, []))))
    (map sc_id students).
Proof.
  induction students as [|s rest IH]; intros teacherLoads.
  - simpl. constructor.
  - rewrite studentsLoop_cons.
    destruct (committed _) as [[id sc]|]; simpl.
    + apply sublist_skip. apply IH.
    + apply sublist_cons. apply IH.
Qed.

(** Every load in the table is the load it started with plus the
    assignments received, and is raised only while below the cap. *)
Lemma studentsLoop_loads teachers students : forall teacherLoads,
  (forall t, In t teachers -> is_Some (teacherLoads !! tc_id t)) ->
  forall id l0, teacherLoads !! id = Some l0 ->
    let st := studentsLoop teachers students (teacherLoads, []) in
    fst st !! id = Some (l0 + received id (snd st))%Z /\
    (l0 + received id (snd st) <= Z.max l0 maxLoad)%Z.
Proof.
  induction students as [|s rest IH]; intros teacherLoads Hdom id l0 Hl0.
  - simpl. unfold received. simpl. rewrite Z.add_0_r. split; [exact Hl0|lia].
  - cbv zeta. rewrite studentsLoop_cons.
    destruct (committed _) as [[tid sc]|] eqn:Hc; [|apply IH; assumption].
    apply committed_id in Hc as (Hid & _ & _).
    apply teachersLoop_id in Hid as [Hid|(t & Ht & Htid & Hlt)];
      [discriminate|].
    set (l1 := <[tid := (getLoad teacherLoads tid + 1)%Z]> teacherLoads).
    assert (Hdom1 : forall u, In u teachers -> is_Some (l1 !! tc_id u)).
    { intros u Hu. unfold l1. rewrite lookup_insert.
      destruct (decide (tid = tc_id u)); [eauto | apply Hdom; exact Hu]. }
    simpl. unfold received. 
    destruct (decide (tid = id)) as [->|Hne].
    + rewrite filter_cons_True by reflexivity.
      assert (Hl1 : l1 !! id = Some (l0 + 1)%Z).
      { unfold l1, getLoad. rewrite Hl0. simpl. apply lookup_insert_eq. }
      destruct (IH l1 Hdom1 id (l0 + 1)%Z Hl1) as [Hlook Hle].
      unfold received in Hlook, Hle.
      unfold getLoad in Hlt. rewrite Hl0 in Hlt. simpl in Hlt.
      simpl length. rewrite Nat2Z.inj_succ.
      split; [rewrite Hlook; f_equal; lia | lia].
    + rewrite filter_cons_False by (simpl; congruence).
      assert (Hl1 : l1 !! id = Some l0).
      { unfold l1. rewrite lookup_insert_ne by exact Hne. exact Hl0. }
      exact (IH l1 Hdom1 id l0 Hl1).
Qed.

(** The selection of the specification is unique, and so is the run. *)
Lemma Selected_functional teacherLoads student teachers r1 r2 :
Selected scoreFn options averageLoad maxLoad teacherLoads student teachers r1 ->
Selected scoreFn options averageLoad maxLoad teacherLoads student teachers r2 ->
r1 = r2.
Proof.
intros H1 H2.
destruct H1 as [Hnone1 | b1 t1 a1 Heq1 Hc1 Hb1 Ha1];
  destruct H2 as [Hnone2 | b2 t2 a2 Heq2 Hc2 Hb2 Ha2].
- reflexivity.
- exfalso. apply (Hnone1 t2); [|exact Hc2].
  rewrite Heq2. apply in_or_app. right. left. reflexivity.
- exfalso. apply (Hnone2 t1); [|exact Hc1].
  rewrite Heq1. apply in_or_app. right. left. reflexivity.
- rewrite Heq1 in Heq2.
  apply List.app_eq_app in Heq2 as [l [[Hb Ha]|[Hb Ha]]].
  + destruct l as [|x l].
    * simpl in Ha. injection Ha as -> _. reflexivity.
    * simpl in Ha. injection Ha as <- ->.
      assert (Hin : In t2 b1)
        by (rewrite Hb; apply in_or_app; right; left; reflexivity).
      exfalso. apply (Qlt_not_le _ _ (Hb1 t2 Hin Hc2)).
      apply Ha2; [|exact Hc1].
      apply in_or_app. right. left. reflexivity.
  + destruct l as [|x l].
    * simpl in Ha. injection Ha as -> _. reflexivity.
    * simpl in Ha. injection Ha as <- ->.
      assert (Hin : In t1 b2)
        by (rewrite Hb; apply in_or_app; right; left; reflexivity).
      exfalso. apply (Qlt_not_le _ _ (Hb2 t1 Hin Hc1)).
      apply Ha1; [|exact Hc2].
      apply in_or_app. right. left. reflexivity.
Qed.

Lemma Greedy_functional teachers teacherLoads students out1 out2 :
Greedy scoreFn options averageLoad maxLoad teachers teacherLoads students out1 ->
Greedy scoreFn options averageLoad maxLoad teachers teacherLoads students out2 ->
out1 = out2.
Proof.
intros H1. revert out2.
induction H1 as [l | l s rest out HS _ IH | l s rest out t HS _ IH];
  intros out2 H2; inversion H2 as [| ? ? ? ? HS' H' | ? ? ? ? t' HS' H']; subst.
- reflexivity.
- apply IH. exact H'.
- pose proof (Selected_functional _ _ _ _ _ HS HS'). discriminate.
- pose proof (Selected_functional _ _ _ _ _ HS HS'). discriminate.
- pose proof (Selected_functional _ _ _ _ _ HS HS') as Heq.
  injection Heq as <-. f_equal. apply IH. exact H'.
Qed.

(** The outer loop is the run of the specification. *)
Lemma studentsLoop_Greedy teachers students :
  (forall t, In t teachers -> tc_id t <> "") ->
  forall teacherLoads,
    Greedy scoreFn options averageLoad maxLoad teachers teacherLoads students
      (snd (studentsLoop teachers students (teacherLoads, []))).
Proof.
  intros Hids.
  induction students as [|s rest IH]; intros teacherLoads.
  - simpl. constructor.
  - rewrite studentsLoop_cons.
    pose proof (teachersLoop_Selected teacherLoads s teachers Hids) as HS.
    destruct (committed _) as [[id sc]|].
    + destruct HS as (t & -> & -> & HS). simpl.
      apply Greedy_commit; [exact HS | apply IH].
    + apply Greedy_pass; [exact HS | apply IH].
Qed.

(** A student all of whose teachers are at capacity or below the
    threshold leaves the state of the loop as it was. *)
Lemma studentStep_no_candidate teachers st student :
  (forall t, In t teachers ->
     atCapacity (fst st) t \/ belowMinimum (scoreOf (fst st) student t)) ->
  studentStep teachers st student = st.
Proof.
  intros Hall. destruct st as [teacherLoads acc]. simpl in Hall.
  unfold AutoAssignment.studentStep.
  assert (HB : BestOf teacherLoads student ([] ++ teachers)
                 (teachersLoop teacherLoads student teachers noBest)).
  { apply teachersLoop_BestOf. left. split; [reflexivity|]. intros u []. }
  simpl in HB.
  destruct HB as [[-> _]|(before & t & after & Heq & _ & [Hc1 Hc2] & _)].
  - reflexivity.
  - exfalso. destruct (Hall t) as [H|H]; [|contradiction|contradiction].
    rewrite Heq. apply in_or_app. right. left. reflexivity.
Qed.

End Loops.

(** ** The whole function *)

Lemma generateAutoAssignment_empty students teachers scoreFn options :
  teachers = [] \/ students = [] ->
  generateAutoAssignment students teachers scoreFn options = [].
Proof.
  unfold generateAutoAssignment.
  intros [->| ->]; simpl; [reflexivity|].
  rewrite orb_true_r. reflexivity.
Qed.

Lemma generateAutoAssignment_nonempty students teachers scoreFn options :
  teachers <> [] -> students <> [] ->
  generateAutoAssignment students teachers scoreFn options
  = snd (run students teachers scoreFn options).
Proof.
  unfold generateAutoAssignment. intros Ht Hs.
  destruct teachers; [contradiction|]. destruct students; [contradiction|].
  reflexivity.
Qed.

(** With or without the guard on empty inputs the loop gives the result. *)
Lemma generateAutoAssignment_run students teachers scoreFn options :
  generateAutoAssignment students teachers scoreFn options
  = snd (run students teachers scoreFn options)
  \/ (teachers = [] /\
      generateAutoAssignment students teachers scoreFn options = []).
Proof.
  destruct teachers as [|t ts]; [right; split; reflexivity|].
  left. destruct students as [|s ss]; reflexivity.
Qed.

Lemma Greedy_no_teachers scoreFn options averageLoad maxLoad students :
  forall teacherLoads,
    Greedy scoreFn options averageLoad maxLoad [] teacherLoads students [].
Proof.
  induction students as [|s rest IH]; intros teacherLoads.
  - constructor.
  - apply Greedy_pass; [|apply IH]. apply Selected_none. intros u [].
Qed.

Import AutoAssignmentSamples.

(** ** C3: the greedy algorithm *)

(** C3 (as amended).  For teachers whose ids are pairwise distinct and not
    empty, and a scoring function with non-negative overall scores,
    [generateAutoAssignment] is the greedy run of the specification: the
    load table is seeded from each teacher's starting load; for each
    student in input order the teachers are scanned in input order, those
    at or above the effective cap are skipped, the scores below the
    optional threshold discarded, the highest remaining overall score
    selected with the first-seen teacher winning ties; the pairing is
    committed and that teacher's running load raised by one. *)
Theorem generateAutoAssignment_greedy students teachers scoreFn options :
  NoDup (map tc_id teachers) ->
  (forall t, In t teachers -> tc_id t <> "") ->
  (forall t s a, (0 <= overall (scoreFn t s a))%Q) ->
  greedy_assignment students teachers scoreFn options.
Proof.
  intros Hnd Hids Hpos.
  exists (seedLoads teachers ∅).
  split; [apply seedLoads_seeded; exact Hnd|].
  destruct (generateAutoAssignment_run students teachers scoreFn options)
    as [-> | [-> ->]].
  - unfold run. rewrite maxLoadOf_effectiveCap.
    apply studentsLoop_Greedy; assumption.
  - apply Greedy_no_teachers.
Qed.

Lemma generateAutoAssignment_greedy_witness :
  greedy_assignment [student "s1"; student "s2"; student "s3"]
    [teacher "a" 0; teacher "b" 1] always80 (capOf 2).
Proof.
  apply generateAutoAssignment_greedy.
  - simpl. apply NoDup_cons. split.
    + intros H. apply list_elem_of_In in H. destruct H as [H|[]]. discriminate H.
    + apply NoDup_cons. split; [intros H; inversion H | apply NoDup_nil; exact I].
  - intros t [<-|[<-|[]]]; simpl; discriminate.
  - intros t s a. simpl. discriminate.
Defined.

(** C3 as stated fails for a teacher whose id is the empty string: the
    teacher is below the cap and is the only candidate, but the final
    guard [bestTeacherId && bestScore] drops the pairing. *)
Lemma empty_teacher_id_is_not_committed :
  ~ greedy_assignment [student "s1"] [teacher "" 0] always80 noOptions.
Proof.
  intros (teacherLoads & Hseed & HG).
  assert (Hl : teacherLoads !! "" = Some 0%Z).
  { apply (Hseed (teacher "" 0)). left. reflexivity. }
  change (generateAutoAssignment [student "s1"] [teacher "" 0] always80 noOptions)
    with (@nil DetailedAssignment) in HG.
  inversion HG as [| ? ? ? ? HS _ |]; subst.
  inversion HS as [Hnone|]; subst.
  apply (Hnone (teacher "" 0)); [left; reflexivity|].
  split.
  - unfold atCapacity, getLoad. simpl. rewrite Hl. simpl.
    vm_compute. intros H. apply H. reflexivity.
  - intros (th & Hth & _). discriminate Hth.
Qed.

(** ** C4: one entry per student, in input order *)

Lemma generateAutoAssignment_sublist students teachers scoreFn options :
  sublist
    (map studentId (generateAutoAssignment students teachers scoreFn options))
    (map sc_id students).
Proof.
  destruct (generateAutoAssignment_run students teachers scoreFn options)
    as [-> | [_ ->]].
  - apply studentsLoop_sublist.
  - apply sublist_nil_l.
Qed.

(** C4 (as amended).  The student ids of the returned assignments are, in
    order, a subsequence of the student ids of the input: the list is no
    longer than [students] and keeps the input order; and when the ids of
    the input students are pairwise distinct no [studentId] appears more
    than once. *)
Theorem assignments_follow_students students teachers scoreFn options :
  let assignments := generateAutoAssignment students teachers scoreFn options in
  sublist (map studentId assignments) (map sc_id students) /\
  (length assignments <= length students)%nat /\
  (NoDup (map sc_id students) -> NoDup (map studentId assignments)).
Proof.
  intros assignments.
  pose proof (generateAutoAssignment_sublist students teachers scoreFn options)
    as Hsub.
  fold assignments in Hsub.
  split; [exact Hsub|]. split.
  - apply sublist_length in Hsub. rewrite !length_map in Hsub. exact Hsub.
  - intros Hnd. eapply sublist_NoDup; eassumption.
Qed.

Lemma assignments_follow_students_witness :
  NoDup (map studentId
           (generateAutoAssignment [student "s1"; student "s2"]
              [teacher "a" 0] always80 noOptions)).
Proof.
  apply (assignments_follow_students [student "s1"; student "s2"]
           [teacher "a" 0] always80 noOptions).
  simpl. apply NoDup_cons. split.
  - intros H. apply list_elem_of_In in H. destruct H as [H|[]]. discriminate H.
  - apply NoDup_cons. split; [intros H; inversion H | apply NoDup_nil; exact I].
Defined.

(** C4 as stated fails when two students of the input carry the same id:
    both entries are placed and the id appears twice. *)
Lemma repeated_student_id_is_assigned_twice :
  ~ one_entry_per_student [student "s1"; student "s1"]
      (generateAutoAssignment [student "s1"; student "s1"]
         [teacher "a" 0] always80 noOptions).
Proof.
  intros [Hnd _].
  change (NoDup ["s1"; "s1"]) in Hnd.
  apply NoDup_cons in Hnd as [Hin _].
  apply Hin. left.
Qed.

(** ** C5: loads and the cap *)

Lemma startingLoad_distinct teachers t :
  NoDup (map tc_id teachers) -> In t teachers ->
  startingLoad teachers (tc_id t) = Some (tc_currentLoad t).
Proof. intros Hnd Hin. apply seedLoads_seeded; assumption. Qed.

(** The bound for the table the code keeps: one entry per teacher id. *)
Lemma loads_by_id students teachers scoreFn options id l0 :
  teachers <> [] -> students <> [] ->
  startingLoad teachers id = Some l0 ->
  (l0 + received id (generateAutoAssignment students teachers scoreFn options)
   <= Z.max l0 (effectiveCap students teachers options))%Z.
Proof.
  intros Ht Hs Hl0.
  rewrite generateAutoAssignment_nonempty by assumption.
  unfold run. rewrite maxLoadOf_effectiveCap.
  apply studentsLoop_loads; [|exact Hl0].
  intros t Hin. apply seedLoads_is_Some. exact Hin.
Qed.

Lemma received_nonneg id assignments : (0 <= received id assignments)%Z.
Proof. unfold received. lia. Qed.

(** C5 (as amended).  For non-empty [teachers] and [students] the number
    of assignments never exceeds [students.length].  The running loads are
    kept per teacher id: for every id, the load on record at the start
    (of several teachers sharing the id, the load of the last one) plus
    the assignments the id received never exceeds the larger of that
    starting load and the effective cap.  When the teachers' ids are
    pairwise distinct this is each teacher's own [currentLoad]: a teacher
    that starts at or below the cap ends at or below it, and a teacher
    that starts above the cap receives no assignment. *)
Theorem loads_raised_only_below_cap students teachers scoreFn options :
  teachers <> [] -> students <> [] ->
  let assignments := generateAutoAssignment students teachers scoreFn options in
  let cap := effectiveCap students teachers options in
  (length assignments <= length students)%nat /\
  (forall id l0, startingLoad teachers id = Some l0 ->
     (l0 + received id assignments <= Z.max l0 cap)%Z) /\
  (NoDup (map tc_id teachers) ->
   forall t, In t teachers ->
     (tc_currentLoad t + received (tc_id t) assignments
      <= Z.max (tc_currentLoad t) cap)%Z /\
     ((tc_currentLoad t <= cap)%Z ->
      (tc_currentLoad t + received (tc_id t) assignments <= cap)%Z) /\
     ((cap < tc_currentLoad t)%Z -> received (tc_id t) assignments = 0%Z)).
Proof.
  intros Ht Hs assignments cap. split; [|split].
  - pose proof (generateAutoAssignment_sublist students teachers scoreFn options)
      as Hsub.
    apply sublist_length in Hsub. rewrite !length_map in Hsub. exact Hsub.
  - intros id l0 Hl0. apply loads_by_id; assumption.
  - intros Hnd t Hin.
    pose proof (loads_by_id students teachers scoreFn options (tc_id t)
                  (tc_currentLoad t) Ht Hs
                  (startingLoad_distinct teachers t Hnd Hin)) as Hle.
    pose proof (received_nonneg (tc_id t) assignments) as Hr.
    fold assignments in Hle. fold cap in Hle.
    split; [exact Hle|]. split; intros Hcap; lia.
Qed.

Lemma loads_raised_only_below_cap_witness :
  let assignments :=
    generateAutoAssignment [student "s1"; student "s2"; student "s3"]
      [teacher "a" 1; teacher "b" 5] always80 (capOf 2) in
  (1 + received "a" assignments <= 2)%Z /\ received "b" assignments = 0%Z.
Proof.
  destruct (loads_raised_only_below_cap
              [student "s1"; student "s2"; student "s3"]
              [teacher "a" 1; teacher "b" 5] always80 (capOf 2))
    as (_ & _ & H).
  - discriminate.
  - discriminate.
  - assert (Hnd : NoDup (map tc_id [teacher "a" 1; teacher "b" 5])).
    { apply NoDup_cons. split.
      - intros Hin. apply list_elem_of_singleton in Hin. discriminate.
      - apply NoDup_singleton. }
    split.
    + destruct (H Hnd (teacher "a" 1)) as (_ & Hbelow & _);
        [left; reflexivity|].
      apply Hbelow. vm_compute. discriminate.
    + destruct (H Hnd (teacher "b" 5)) as (_ & _ & Habove);
        [right; left; reflexivity|].
      apply Habove. vm_compute. reflexivity.
Defined.

(** C5 as stated fails for a teacher that starts above the cap: it is
    skipped, and its post-run load is its starting load. *)
Lemma overloaded_teacher_stays_above_cap :
  [teacher "a" 10] <> [] /\ [student "s1"] <> [] /\
  ~ loads_within_cap [student "s1"] [teacher "a" 10] noOptions
      (generateAutoAssignment [student "s1"] [teacher "a" 10] always80 noOptions).
Proof.
  split; [discriminate|]. split; [discriminate|].
  intros [_ H]. specialize (H (teacher "a" 10) (or_introl eq_refl)).
  vm_compute in H. apply H. reflexivity.
Qed.

(** ** C9: empty inputs and students without a candidate *)

(** C9 (as amended).  Provided the overall scores are not negative:
    [generateAutoAssignment] returns the empty list whenever [students]
    or [teachers] is empty; and when, at the moment a student is reached,
    every teacher is at capacity or scores below the threshold, the
    student is passed over: the load table and the list of assignments
    stay as they were and the result is what the remaining students add.
    The function is total, so no input makes it fail. *)
Theorem student_without_candidate_is_omitted students teachers scoreFn options :
  (forall t s a, (0 <= overall (scoreFn t s a))%Q) ->
  (teachers = [] \/ students = [] ->
   generateAutoAssignment students teachers scoreFn options = []) /\
  forall before student after,
    students = before ++ student :: after -> teachers <> [] ->
    let averageLoad := averageLoadOf students teachers in
    let maxLoad := maxLoadOf options averageLoad in
    let loop := studentsLoop scoreFn options averageLoad maxLoad teachers in
    let st := loop before (seedLoads teachers ∅, []) in
    (forall t, In t teachers ->
       atCapacity maxLoad (fst st) t \/
       belowMinimum options (scoreOf scoreFn averageLoad (fst st) student t)) ->
    loop (before ++ [student]) (seedLoads teachers ∅, []) = st /\
    generateAutoAssignment students teachers scoreFn options
    = snd (loop after st).
Proof.
  intros Hpos. split; [apply generateAutoAssignment_empty|].
  intros before student after Heq Ht averageLoad maxLoad loop st Hall.
  assert (Hstep : studentStep scoreFn options averageLoad maxLoad
                    teachers st student = st).
  { apply studentStep_no_candidate; assumption. }
  split.
  - unfold loop. rewrite studentsLoop_app. fold loop. fold st.
    cbn [AutoAssignment.studentsLoop]. exact Hstep.
  - rewrite generateAutoAssignment_nonempty;
      [|exact Ht|rewrite Heq; destruct before; discriminate].
    unfold run. fold averageLoad. fold maxLoad. fold loop.
    rewrite Heq. unfold loop. rewrite studentsLoop_app. fold loop. fold st.
    unfold loop at 1. cbn [AutoAssignment.studentsLoop].
    unfold st, loop in Hstep |- *. rewrite Hstep. reflexivity.
Qed.

Lemma student_without_candidate_is_omitted_witness :
  generateAutoAssignment [student "s1"; student "s2"] [teacher "a" 1]
    always80 (capOf 2)
  = [{| studentId := "s1"; teacherId := "a"; score := scoreOfValue 80 |}].
Proof.
  assert (Hpos : forall t s a, (0 <= overall (always80 t s a))%Q)
    by (intros; discriminate).
  destruct (student_without_candidate_is_omitted
              [student "s1"; student "s2"] [teacher "a" 1] always80 (capOf 2)
              Hpos) as [_ H].
  destruct (H [student "s1"] (student "s2") [] eq_refl) as [_ Hres].
  - discriminate.
  - intros t [<-|[]]. left. vm_compute. discriminate.
  - rewrite Hres. reflexivity.
Defined.

(** C9 as stated fails for a negative score under a threshold of 0: the
    only teacher scores below the threshold, and the student is assigned
    all the same, because a threshold of 0 is not tested. *)
Lemma negative_score_passes_a_zero_threshold :
  let options :=
    {| maxStudentsPerTeacher := None; minCompatibilityThreshold := Some 0%Q |} in
  let scoreFn : CompatibilityScoreFn := fun _ _ _ => scoreOfValue (-5) in
  let teachers := [teacher "a" 0] in
  let averageLoad := averageLoadOf [student "s1"] teachers in
  (forall t, In t teachers ->
     belowMinimum options
       (scoreOf scoreFn averageLoad (seedLoads teachers ∅) (student "s1") t)) /\
  generateAutoAssignment [student "s1"] teachers scoreFn options
  = [{| studentId := "s1"; teacherId := "a"; score := scoreOfValue (-5) |}].
Proof.
  cbv zeta. split; [|reflexivity].
  intros t _. exists 0%Q. split; reflexivity.
Qed.

(** ** C10: a threshold of 0 *)

Lemma teachersLoop_threshold_ext scoreFn o1 o2 averageLoad maxLoad
    teacherLoads student teachers :
  (forall sc, belowThreshold o1 sc = belowThreshold o2 sc) ->
  forall best,
    teachersLoop scoreFn o1 averageLoad maxLoad teacherLoads student teachers best
    = teachersLoop scoreFn o2 averageLoad maxLoad teacherLoads student teachers best.
Proof.
  intros Hext. induction teachers as [|t rest IH]; intros best; simpl.
  - reflexivity.
  - unfold teacherStep. rewrite Hext. apply IH.
Qed.

Lemma studentsLoop_threshold_ext scoreFn o1 o2 averageLoad maxLoad
    teachers students :
  (forall sc, belowThreshold o1 sc = belowThreshold o2 sc) ->
  forall st,
    studentsLoop scoreFn o1 averageLoad maxLoad teachers students st
    = studentsLoop scoreFn o2 averageLoad maxLoad teachers students st.
Proof.
  intros Hext. induction students as [|s rest IH]; intros st; simpl.
  - reflexivity.
  - unfold studentStep. destruct st as [teacherLoads acc].
    rewrite (teachersLoop_threshold_ext scoreFn o1 o2) by exact Hext.
    apply IH.
Qed.

Lemma belowThreshold_zero cap threshold sc :
  (threshold == 0)%Q ->
  belowThreshold {| maxStudentsPerTeacher := cap;
                    minCompatibilityThreshold := Some threshold |} sc
  = belowThreshold {| maxStudentsPerTeacher := cap;
                      minCompatibilityThreshold := None |} sc.
Proof.
  intros H0. unfold belowThreshold. simpl.
  apply Qeq_bool_iff in H0. rewrite H0. reflexivity.
Qed.

Lemma generateAutoAssignment_threshold_zero students teachers scoreFn cap
    threshold :
  (threshold == 0)%Q ->
  generateAutoAssignment students teachers scoreFn
    {| maxStudentsPerTeacher := cap;
       minCompatibilityThreshold := Some threshold |}
  = generateAutoAssignment students teachers scoreFn
      {| maxStudentsPerTeacher := cap; minCompatibilityThreshold := None |}.
Proof.
  intros H0. unfold generateAutoAssignment, run.
  destruct (_ || _); [reflexivity|].
  unfold maxLoadOf. cbn [maxStudentsPerTeacher]. f_equal.
  apply studentsLoop_threshold_ext.
  intros sc. apply belowThreshold_zero. exact H0.
Qed.

(** C10.  For every [students], [teachers], [scoreFn] and cap option,
    [generateAutoAssignment] with [minCompatibilityThreshold] set to 0
    returns exactly what it returns with no threshold. *)
Theorem zero_threshold_is_no_threshold students teachers scoreFn cap :
  generateAutoAssignment students teachers scoreFn
    {| maxStudentsPerTeacher := cap; minCompatibilityThreshold := Some 0%Q |}
  = generateAutoAssignment students teachers scoreFn
      {| maxStudentsPerTeacher := cap; minCompatibilityThreshold := None |}.
Proof.
  apply generateAutoAssignment_threshold_zero. reflexivity.
Qed.

(** ** The end-to-end cases of the specification *)

(** Two teachers with a cap of 5, ten students, a constant score of 80:
    ten assignments, five for each teacher. *)
Example ten_students_two_teachers :
  let students :=
    map student ["1"; "2"; "3"; "4"; "5"; "6"; "7"; "8"; "9"; "10"] in
  let assignments :=
    generateAutoAssignment students [teacher "a" 0; teacher "b" 0]
      always80 (capOf 5) in
  length assignments = 10%nat /\
  received "a" assignments = 5%Z /\ received "b" assignments = 5%Z.
Proof. vm_compute. auto. Qed.

(** Two teachers that share an id share one running load, seeded from
    the second: the first, whose own load is above the cap, is assigned. *)
Example shared_teacher_id_shares_the_load :
  map teacherId
    (generateAutoAssignment [student "s1"] [teacher "a" 9; teacher "a" 0]
       always80 (capOf 3))
  = ["a"].
Proof. reflexivity. Qed.

End AutoAssignmentProofs.

(* ================================================================== *)
(** * Properties of the composition analyzer *)
(* ================================================================== *)

Module JsNumberFacts.
Import JsNumber RealTactics.

Lemma isZero_Finite r : isZero (Finite r) = true <-> r = 0%R.
Proof.
  unfold isZero. destruct (Req_dec_T r 0); split; auto; discriminate.
Qed.

Lemma isZero_nonzero r : r <> 0%R -> isZero (Finite r) = false.
Proof. intros H. unfold isZero. destruct (Req_dec_T r 0); [contradiction|reflexivity]. Qed.

Lemma div_Finite a b : b <> 0%R -> div (Finite a) (Finite b) = Finite (a / b).
Proof. intros H. unfold div. destruct (Req_dec_T b 0); [contradiction|reflexivity]. Qed.

Lemma div_zero_zero a b : a = 0%R -> b = 0%R -> div (Finite a) (Finite b) = NaN.
Proof.
  intros Ha Hb. unfold div.
  destruct (Req_dec_T b 0); [|contradiction].
  destruct (Req_dec_T a 0); [reflexivity|contradiction].
Qed.

Lemma log_Finite a : (0 < a)%R -> log (Finite a) = Finite (ln a).
Proof. intros H. unfold log. decide_reals. reflexivity. Qed.

Lemma log_zero : log (Finite 0) = NegInfinity.
Proof. unfold log. decide_reals. reflexivity. Qed.

Lemma sqrt_Finite a : (0 <= a)%R -> sqrt (Finite a) = Finite (R_sqrt.sqrt a).
Proof. intros H. unfold sqrt. decide_reals. reflexivity. Qed.

Lemma max_Finite a b : max (Finite a) (Finite b) = Finite (Rmax a b).
Proof.
  unfold max, lt, Rmax.
  destruct (Rlt_dec a b), (Rle_dec a b); try reflexivity; try lra.
  f_equal. lra.
Qed.

Lemma min_Finite a b : min (Finite a) (Finite b) = Finite (Rmin a b).
Proof.
  unfold min, lt, Rmin.
  destruct (Rlt_dec b a), (Rle_dec a b); try reflexivity; lra.
Qed.

Lemma clamp_swap x : Rmin 1 (Rmax 0 x) = Rmax 0 (Rmin 1 x).
Proof. minmax_cases. Qed.

Lemma clamp_range lo hi x :
  (lo <= hi)%R -> (lo <= Rmin (Rmax x lo) hi <= hi)%R.
Proof. intros H. minmax_cases. Qed.

End JsNumberFacts.

Module JsObjectFacts.
Import JsObject.

Lemma get_set {V} (o : t V) k v k' :
  get (set o k v) k' = if String.eqb k k' then Some v else get o k'.
Proof.
  induction o as [|[k0 v0] rest IH]; simpl.
  - reflexivity.
  - destruct (String.eqb_spec k0 k) as [->|Hne]; simpl.
    + destruct (String.eqb k k'); reflexivity.
    + destruct (String.eqb_spec k0 k') as [->|Hne'].
      * destruct (String.eqb_spec k k') as [->|_]; [contradiction|reflexivity].
      * exact IH.
Qed.

Lemma get_increment o k k' :
  default 0%nat (get (increment o k) k')
  = (default 0%nat (get o k') + if String.eqb k' k then 1 else 0)%nat.
Proof.
  unfold increment. rewrite get_set. rewrite (String.eqb_sym k' k).
  destruct (String.eqb_spec k k') as [->|_]; simpl; lia.
Qed.

(** Counting a list of keys into an object. *)
Lemma get_tally keys : forall o k,
  default 0%nat (get (fold_left increment keys o) k)
  = (default 0%nat (get o k) + length (List.filter (String.eqb k) keys))%nat.
Proof.
  induction keys as [|key rest IH]; intros o k; simpl.
  - lia.
  - rewrite IH, get_increment.
    destruct (String.eqb k key); simpl; lia.
Qed.

End JsObjectFacts.

Module TeamCompositionProofs.
Import Types TeamComposition TeamCompositionSpec AnalysisSamples QFacts.
Import JsNumber JsNumberFacts.

(** ** C1: the Shannon diversity *)

Lemma calculateShannonDiversity_zero_total counts :
  calculateShannonDiversity counts (Finite 0) = Finite 0.
Proof.
  unfold calculateShannonDiversity.
  replace (isZero (Finite 0)) with true; [reflexivity|].
  symmetry. apply isZero_Finite. reflexivity.
Qed.

(** A single category holding all the mass: the sum is 0 and so is
    [Math.log(1)], and their quotient is NaN. *)
Lemma calculateShannonDiversity_single c :
  c <> 0%R -> calculateShannonDiversity [Finite c] (Finite c) = NaN.
Proof.
  intros Hc. unfold calculateShannonDiversity.
  rewrite (isZero_nonzero c Hc).
  cbn [fold_left length]. unfold shannonStep.
  rewrite (isZero_nonzero c Hc).
  rewrite (div_Finite c c Hc).
  assert (Hp : (c / c = 1)%R) by (field; exact Hc).
  rewrite Hp. rewrite log_Finite by lra. rewrite ln_1.
  unfold ofNat. cbn [INR]. rewrite log_Finite by lra. rewrite ln_1.
  cbn [mul add neg].
  rewrite div_zero_zero by lra. reflexivity.
Qed.

(** C1.  At a single category that holds all the mass,
    [counts = [4]] and [total = 4], [calculateShannonDiversity] returns
    NaN; the claim says 0. *)
Theorem single_category_diversity_is_NaN :
  calculateShannonDiversity [Finite 4] (Finite 4) = NaN.
Proof. apply calculateShannonDiversity_single. lra. Qed.

(** The end-to-end case of the specification, four teachers sharing one
    type: one most common type, and a diversity component that is NaN. *)
Example four_teachers_one_type :
  let roster := [member (Some "INTJ") []; member (Some "INTJ") [];
                 member (Some "INTJ") []; member (Some "INTJ") []] in
  let r := Clock.result (analyzeTeamComposition "team-1" roster) (clockAt 0) in
  mostCommon (mbtiDistribution (composition r)) = ["INTJ"] /\
  mbtiDiversity (diversityScore r) = NaN.
Proof.
  cbv beta zeta. split; [reflexivity|].
  unfold Clock.result, analyzeTeamComposition, analyzeExpertiseCoverage,
    Clock.bind, Clock.newDate, Clock.ret.
  cbn [fst diversityScore]. unfold calculateDiversityScore.
  cbn [mbtiDiversity mbtiDistribution teacherCount length].
  change (JsObject.values (typeCounts (analyzeMBTIDistribution _)))
    with [4%nat].
  cbn [map]. unfold ofNat.
  rewrite calculateShannonDiversity_single; [reflexivity|].
  apply not_0_INR. discriminate.
Qed.

(** The sum over non-negative counts stays finite. *)
Lemma shannon_sum_finite total counts :
  (0 < total)%R -> Forall (fun c => (0 <= c)%R) counts ->
  forall s, exists s',
    fold_left (shannonStep (Finite total)) (map Finite counts) (Finite s)
    = Finite s'.
Proof.
  intros Htotal Hall. induction Hall as [|c rest Hc _ IH]; intros s; simpl.
  - exists s. reflexivity.
  - unfold shannonStep at 2.
    destruct (Req_dec_T c 0) as [->|Hne].
    + replace (isZero (Finite 0)) with true
        by (symmetry; apply isZero_Finite; reflexivity).
      apply IH.
    + rewrite (isZero_nonzero c Hne).
      rewrite div_Finite by lra.
      rewrite log_Finite by (apply Rdiv_lt_0_compat; lra).
      simpl. apply IH.
Qed.

(** Away from the single category, the result is a number in [0,100]. *)
Lemma calculateShannonDiversity_range counts total :
  (0 < total)%R -> Forall (fun c => (0 <= c)%R) counts ->
  length counts <> 1%nat ->
  exists r, calculateShannonDiversity (map Finite counts) (Finite total)
            = Finite r /\ (0 <= r <= 100)%R.
Proof.
  intros Htotal Hall Hlen. unfold calculateShannonDiversity.
  rewrite isZero_nonzero by lra.
  destruct (shannon_sum_finite total counts Htotal Hall 0%R) as [s Hs].
  rewrite Hs. rewrite length_map. simpl neg.
  assert (Hclamp : forall x,
    exists r, min (max (mul (Finite x) (Finite 100)) (Finite 0)) (Finite 100)
              = Finite r /\ (0 <= r <= 100)%R).
  { intros x. simpl mul. rewrite max_Finite, min_Finite.
    eexists. split; [reflexivity|]. apply clamp_range. lra. }
  destruct (length counts) as [|[|n]] eqn:El.
  - unfold ofNat. simpl INR. rewrite log_zero. simpl div. apply Hclamp.
  - contradiction.
  - assert (Hn : (1 < INR (S (S n)))%R).
    { replace 1%R with (INR 1) by reflexivity. apply lt_INR. lia. }
    unfold ofNat. rewrite log_Finite by lra.
    assert (Hln : (0 < ln (INR (S (S n))))%R).
    { rewrite <- ln_1. apply ln_increasing; lra. }
    rewrite div_Finite by lra. apply Hclamp.
Qed.

(** ** C6: the axis ratios *)

Lemma percentOf_percentage x total : percentOf x total = percentage x total.
Proof. unfold percentOf, percentage. destruct total; reflexivity. Qed.

Lemma letterCount_cons letter teacher rest :
  letterCount letter (teacher :: rest)
  = (bit (hasLetter letter teacher) + letterCount letter rest)%nat.
Proof.
  unfold letterCount. simpl. destruct (hasLetter letter teacher); reflexivity.
Qed.

(** What one pass of the loop adds to a letter's counter. *)
Lemma mbtiStep_letters acc teacher :
  let r := mbtiStep acc teacher in
  tally_e r = (tally_e acc + bit (hasLetter "E" teacher))%nat /\
  tally_i r = (tally_i acc + bit (hasLetter "I" teacher))%nat /\
  tally_s r = (tally_s acc + bit (hasLetter "S" teacher))%nat /\
  tally_n r = (tally_n acc + bit (hasLetter "N" teacher))%nat /\
  tally_t r = (tally_t acc + bit (hasLetter "T" teacher))%nat /\
  tally_f r = (tally_f acc + bit (hasLetter "F" teacher))%nat /\
  tally_j r = (tally_j acc + bit (hasLetter "J" teacher))%nat /\
  tally_p r = (tally_p acc + bit (hasLetter "P" teacher))%nat.
Proof.
  unfold mbtiStep, hasLetter.
  destruct (tt_mbtiType teacher) as [mbti|]; cbn zeta.
  - destruct (String.eqb mbti ""); cbn [negb andb bit];
      repeat split; try reflexivity; symmetry; apply Nat.add_0_r.
  - cbn [bit]. repeat split; symmetry; apply Nat.add_0_r.
Qed.

(** The counters of the loop are the occurrence counts of the letters. *)
Lemma mbtiLoop_letters teachers : forall acc,
  let r := fold_left mbtiStep teachers acc in
  tally_e r = (tally_e acc + letterCount "E" teachers)%nat /\
  tally_i r = (tally_i acc + letterCount "I" teachers)%nat /\
  tally_s r = (tally_s acc + letterCount "S" teachers)%nat /\
  tally_n r = (tally_n acc + letterCount "N" teachers)%nat /\
  tally_t r = (tally_t acc + letterCount "T" teachers)%nat /\
  tally_f r = (tally_f acc + letterCount "F" teachers)%nat /\
  tally_j r = (tally_j acc + letterCount "J" teachers)%nat /\
  tally_p r = (tally_p acc + letterCount "P" teachers)%nat.
Proof.
  induction teachers as [|teacher rest IH]; intros acc.
  - cbn. repeat split; symmetry; apply Nat.add_0_r.
  - cbn [fold_left]. cbv beta zeta.
    destruct (IH (mbtiStep acc teacher))
      as (He & Hi & Hs & Hn & Ht & Hf & Hj & Hp).
    destruct (mbtiStep_letters acc teacher)
      as (He' & Hi' & Hs' & Hn' & Ht' & Hf' & Hj' & Hp').
    rewrite !letterCount_cons.
    rewrite He, Hi, Hs, Hn, Ht, Hf, Hj, Hp.
    rewrite He', Hi', Hs', Hn', Ht', Hf', Hj', Hp'.
    repeat split; apply eq_sym, Nat.add_assoc.
Qed.

Lemma axisRatios_extraversion teachers :
  axisRatios (analyzeMBTIDistribution teachers)
  = extraversionAxisRatios teachers.
Proof.
  unfold analyzeMBTIDistribution, extraversionAxisRatios, mbtiLoop.
  cbn [axisRatios].
  destruct (mbtiLoop_letters teachers emptyMbtiTally)
    as (He & Hi & Hs & Hn & Ht & Hf & Hj & Hp).
  cbv beta zeta in *. cbn [emptyMbtiTally tally_e tally_i tally_s tally_n tally_t
                       tally_f tally_j tally_p Nat.add] in *.
  rewrite He, Hi, Hs, Hn, Ht, Hf, Hj, Hp.
  rewrite !percentOf_percentage. reflexivity.
Qed.

(** A well-formed type code counts once on every axis. *)
Lemma wellTyped_pairs teacher :
  wellTyped teacher ->
  let b letter := bit (hasLetter letter teacher) in
  (b "S" + b "N" = b "E" + b "I")%nat /\
  (b "T" + b "F" = b "E" + b "I")%nat /\
  (b "J" + b "P" = b "E" + b "I")%nat.
Proof.
  unfold wellTyped, hasLetter. intros Hw.
  destruct (tt_mbtiType teacher) as [mbti|]; [|cbn; auto].
  destruct (String.eqb_spec mbti "") as [->|Hne]; [cbn; auto|].
  specialize (Hw mbti eq_refl Hne). unfold oneLetterPerAxis in Hw.
  cbv beta zeta in *. cbn [negb andb].
  destruct (includes _ "E"), (includes _ "I"), (includes _ "S"),
    (includes _ "N"), (includes _ "T"), (includes _ "F"),
    (includes _ "J"), (includes _ "P");
    cbn in Hw; try discriminate Hw; cbn; auto.
Qed.

Lemma letterCount_pairs teachers :
  (forall t, In t teachers -> wellTyped t) ->
  let c letter := letterCount letter teachers in
  (c "S" + c "N" = c "E" + c "I")%nat /\
  (c "T" + c "F" = c "E" + c "I")%nat /\
  (c "J" + c "P" = c "E" + c "I")%nat.
Proof.
  induction teachers as [|teacher rest IH]; intros Hall; cbv beta zeta.
  - cbn. auto.
  - rewrite !letterCount_cons.
    destruct (wellTyped_pairs teacher (Hall teacher (or_introl eq_refl)))
      as (H1 & H2 & H3).
    destruct (IH (fun t Ht => Hall t (or_intror Ht))) as (I1 & I2 & I3).
    cbv beta zeta in *. lia.
Qed.

(** C6 (as amended).  Each axis ratio of the MBTI distribution is the
    percentage of that letter's occurrence count over the sum of the
    occurrence counts of E and I, with 0 when that sum is zero; for a
    roster whose type codes each carry exactly one letter of every axis,
    this is the percentage over the sum of the two opposing letters of the
    ratio's own axis. *)
Theorem axis_ratios_over_E_plus_I teachers :
  axisRatios (analyzeMBTIDistribution teachers)
  = extraversionAxisRatios teachers /\
  ((forall t, In t teachers -> wellTyped t) ->
   axisRatios (analyzeMBTIDistribution teachers) = ownAxisRatios teachers).
Proof.
  split; [apply axisRatios_extraversion|].
  intros Hall. rewrite axisRatios_extraversion.
  unfold extraversionAxisRatios, ownAxisRatios. cbv beta zeta.
  destruct (letterCount_pairs teachers Hall) as (H1 & H2 & H3).
  cbv beta zeta in *. rewrite H1, H2, H3. reflexivity.
Qed.

Lemma axis_ratios_over_E_plus_I_witness :
  axisRatios (analyzeMBTIDistribution
                [member (Some "enfp") []; member (Some "ISTJ") [];
                 member None []])
  = ownAxisRatios [member (Some "enfp") []; member (Some "ISTJ") [];
                   member None []].
Proof.
  apply (axis_ratios_over_E_plus_I
           [member (Some "enfp") []; member (Some "ISTJ") []; member None []]).
  intros t [<-|[<-|[<-|[]]]] mbti Hm Hne; cbn in Hm;
    try discriminate Hm; injection Hm as <-; reflexivity.
Defined.

(** C6 as stated fails on a type code with both letters of an axis, such
    as the suffixed form ENFP-T: T and F each occur once, E+I is 1, and
    the ratio of T is 100 where the claim gives 50. *)
Lemma suffixed_type_ratio_is_over_E_plus_I :
  ~ (ratio_T (axisRatios (analyzeMBTIDistribution [member (Some "ENFP-T") []]))
     == ratio_T (ownAxisRatios [member (Some "ENFP-T") []]))%Q.
Proof. vm_compute. discriminate. Qed.

(** ** C2: subject and grade coverage *)

Import JsObjectFacts.

Lemma fillDefaults_get keys : forall o k,
  In k keys ->
  JsObject.get (fillDefaults keys o) k = Some (default 0%nat (JsObject.get o k)).
Proof.
  unfold fillDefaults.
  assert (Hkeep : forall keys o k v,
    JsObject.get o k = Some v ->
    JsObject.get
      (fold_left
         (fun o k => JsObject.set o k (default 0%nat (JsObject.get o k)))
         keys o) k = Some v).
  { clear. induction keys as [|key rest IH]; intros o k v Hv; simpl; [exact Hv|].
    apply IH. rewrite get_set.
    destruct (String.eqb_spec key k) as [->|_]; [rewrite Hv|]; auto. }
  induction keys as [|key rest IH]; intros o k Hin; [destruct Hin|].
  simpl. destruct (String.eqb_spec key k) as [->|Hne].
  - apply Hkeep. rewrite get_set, String.eqb_refl. reflexivity.
  - destruct Hin as [Heq|Hin]; [contradiction|].
    rewrite (IH _ k Hin). rewrite get_set.
    destruct (String.eqb_spec key k); [contradiction|reflexivity].
Qed.

(** The loop over the teachers counts the labels of their grade lists. *)
Lemma coverage_grades now teachers : forall acc,
  cov_grades (fold_left (coverageStep now) teachers acc)
  = fold_left JsObject.increment (gradeLabels teachers) (cov_grades acc).
Proof.
  induction teachers as [|teacher rest IH]; intros acc; [reflexivity|].
  cbn [fold_left]. rewrite IH.
  unfold gradeLabels. cbn [flat_map]. rewrite fold_left_app. f_equal.
  assert (Hmap : forall l o,
    fold_left (fun grades grade => JsObject.increment grades (gradeToLabel grade))
      l o
    = fold_left JsObject.increment (map gradeToLabel l) o).
  { clear. induction l as [|g l IH]; intros o; simpl; [reflexivity|apply IH]. }
  unfold coverageStep. rewrite Hmap.
  destruct (Qlt_bool _ 1); [reflexivity|].
  destruct (Qlt_bool _ 3); reflexivity.
Qed.


(** No grade label is a subject name. *)
Lemma gradeToLabel_not_subject grade subject :
  In subject SUBJECTS -> String.eqb subject (gradeToLabel grade) = false.
Proof.
  unfold gradeToLabel.
  intros [<-|[<-|[<-|[<-|[<-|[]]]]]]; destruct (grade <=? 3)%Z; reflexivity.
Qed.

(** Hence the occurrence count of every subject name is 0. *)
Lemma subject_occurrences_zero teachers subject :
  In subject SUBJECTS -> occurrences subject teachers = 0%nat.
Proof.
  intros Hin. unfold occurrences.
  assert (Hall : forall l, In l (gradeLabels teachers) ->
                   String.eqb subject l = false).
  { intros l Hl. unfold gradeLabels in Hl.
    apply in_flat_map in Hl as (t & _ & Hl).
    apply in_map_iff in Hl as (g & <- & _).
    apply gradeToLabel_not_subject. exact Hin. }
  induction (gradeLabels teachers) as [|l rest IH]; [reflexivity|].
  simpl. rewrite (Hall l (or_introl eq_refl)).
  apply IH. intros x Hx. apply Hall. right. exact Hx.
Qed.

Lemma subjects_tally now teachers k :
  In k SUBJECTS ->
  JsObject.get (subjects (expertiseCoverageAt now teachers)) k
  = Some (occurrences k teachers).
Proof.
  intros Hin. unfold expertiseCoverageAt. cbn [subjects].
  rewrite fillDefaults_get by exact Hin.
  rewrite subject_occurrences_zero by exact Hin. reflexivity.
Qed.

(** Half the average coverage of the code is half the even share. *)
Lemma half_avgCoverage teachers keys :
  (avgCoverage teachers keys * 0.5 == (1 # 2) * evenShare teachers keys)%Q.
Proof.
  unfold avgCoverage, evenShare.
  destruct teachers as [|t rest]; cbn [length Nat.ltb Nat.leb].
  - unfold Qdiv. change (inject_Z (Z.of_nat 0)) with 0%Q.
    rewrite !Qmult_0_l, Qmult_0_r. reflexivity.
  - assert (Hhalf : (0.5 == 1 # 2)%Q) by reflexivity.
    rewrite Hhalf. apply Qmult_comm.
Qed.

Lemma weakKeys_weakAmong keys o teachers :
  (forall k, In k keys -> JsObject.get o k = Some (occurrences k teachers)) ->
  weakKeys keys o (avgCoverage teachers keys) = weakAmong keys teachers.
Proof.
  intros Hget. unfold weakKeys, weakAmong.
  apply List.filter_ext_in. intros k Hk.
  unfold countOf, belowHalfShare. rewrite (Hget k Hk). cbn [default].
  apply Qlt_bool_compat. apply half_avgCoverage.
Qed.

Lemma filter_all {A} (f : A -> bool) (l : list A) :
  (forall x, In x l -> f x = true) -> List.filter f l = l.
Proof.
  induction l as [|x rest IH]; intros Hall; [reflexivity|].
  simpl. rewrite (Hall x (or_introl eq_refl)). f_equal.
  apply IH. intros y Hy. apply Hall. right. exact Hy.
Qed.

Lemma weakSubjects_weakAmong now teachers :
  weakSubjects (expertiseCoverageAt now teachers) = weakAmong SUBJECTS teachers.
Proof.
  unfold expertiseCoverageAt at 1. cbn [weakSubjects].
  apply weakKeys_weakAmong. intros k Hk.
  apply (subjects_tally now teachers k Hk).
Qed.


(** No subject name occurs in a student-grade list, so the subject
    tallies are 0 for every roster and every subject is weak as soon as
    there is a teacher. *)
Lemma every_subject_is_weak teachers clock reads :
  teachers <> [] ->
  weakSubjects (fst (analyzeExpertiseCoverage teachers clock reads)) = SUBJECTS.
Proof.
  intros Hne.
  unfold analyzeExpertiseCoverage, Clock.bind, Clock.newDate, Clock.ret.
  cbn [fst]. rewrite weakSubjects_weakAmong. unfold weakAmong.
  assert (Hweak : forall s, In s SUBJECTS ->
    belowHalfShare (occurrences s teachers) (evenShare teachers SUBJECTS) = true).
  { intros s Hs. rewrite subject_occurrences_zero by exact Hs.
    unfold belowHalfShare. apply Qlt_bool_true.
    unfold evenShare. apply Qmult_lt_0_compat; [reflexivity|].
    apply Qlt_shift_div_l; [reflexivity|].
    rewrite Qmult_0_l. destruct teachers; [contradiction|].
    reflexivity. }
  apply filter_all. exact Hweak.
Qed.

End TeamCompositionProofs.

(* ================================================================== *)
(** * Which entry points read the clock *)
(* ================================================================== *)

Module PurityProofs.
Import Types TeamComposition TeamCompositionSpec PuritySpec AnalysisSamples.










(** A teacher created at time 0 is junior then and senior four years on. *)
Example tenure_follows_the_clock :
  let roster := [member (Some "ENFP") [1%Z]] in
  experienceLevels (expertiseCoverageAt 0 roster)
  = {| junior := 1; mid := 0; senior := 0 |} /\
  experienceLevels (expertiseCoverageAt (4 * msPerYear) roster)
  = {| junior := 0; mid := 0; senior := 1 |}.
Proof. split; reflexivity. Qed.


End PurityProofs.

(* ================================================================== *)
(** * Properties of the fairness auditor *)
(* ================================================================== *)

Module FairnessMetricsProofs.
Import FairnessMetrics FairnessMetricsSpec AnalysisSamples.
Import JsNumber RealTactics JsNumberFacts JsObjectFacts.

(** ** The tally of assignments per teacher *)

Lemma existsb_eqb_In x (l : list string) :
  existsb (String.eqb x) l = true <-> In x l.
Proof.
  rewrite existsb_exists. split.
  - intros (y & Hy & Heq). apply String.eqb_eq in Heq. subst. exact Hy.
  - intros H. exists x. split; [exact H | apply String.eqb_refl].
Qed.

Lemma teachersOf_snoc l a :
  teachersOf (l ++ [a])
  = if existsb (String.eqb (teacherId a)) (teachersOf l) then teachersOf l
    else teachersOf l ++ [teacherId a].
Proof. unfold teachersOf. rewrite fold_left_app. reflexivity. Qed.

Lemma assignmentsOf_snoc id l a :
  assignmentsOf id (l ++ [a])
  = (assignmentsOf id l + if String.eqb (teacherId a) id then 1 else 0)%nat.
Proof.
  unfold assignmentsOf. rewrite List.filter_app, length_app. simpl.
  destruct (String.eqb (teacherId a) id); reflexivity.
Qed.

Lemma countByTeacher_snoc l a :
  countByTeacher (l ++ [a])
  = JsObject.increment (countByTeacher l) (teacherId a).
Proof. unfold countByTeacher. rewrite fold_left_app. reflexivity. Qed.

Lemma teachersOf_NoDup l : List.NoDup (teachersOf l).
Proof.
  induction l as [|a l IH] using rev_ind; [constructor|].
  rewrite teachersOf_snoc.
  destruct (existsb _ _) eqn:E; [exact IH|].
  apply List.NoDup_app; [exact IH | repeat constructor; auto |].
  intros x Hx [<-|[]].
  apply existsb_eqb_In in Hx. congruence.
Qed.

(** A teacher without an entry has no assignment. *)
Lemma assignmentsOf_absent l id :
  ~ In id (teachersOf l) -> assignmentsOf id l = 0%nat.
Proof.
  induction l as [|a l IH] using rev_ind; intros Hnot; [reflexivity|].
  rewrite teachersOf_snoc in Hnot. rewrite assignmentsOf_snoc.
  destruct (existsb _ _) eqn:E.
  - rewrite (IH Hnot).
    destruct (String.eqb_spec (teacherId a) id) as [<-|_]; [|reflexivity].
    apply existsb_eqb_In in E. contradiction.
  - rewrite IH by (intros H; apply Hnot, in_or_app; left; exact H).
    destruct (String.eqb_spec (teacherId a) id) as [<-|_]; [|reflexivity].
    exfalso. apply Hnot, in_or_app. right. left. reflexivity.
Qed.

Lemma get_entries (f : string -> nat) ids k :
  JsObject.get (map (fun id => (id, f id)) ids) k
  = if existsb (String.eqb k) ids then Some (f k) else None.
Proof.
  induction ids as [|id rest IH]; simpl; [reflexivity|].
  rewrite (String.eqb_sym k id).
  destruct (String.eqb_spec id k) as [->|_]; simpl; [reflexivity|exact IH].
Qed.

Lemma set_entries_absent (f : string -> nat) ids k v :
  ~ In k ids ->
  JsObject.set (map (fun id => (id, f id)) ids) k v
  = map (fun id => (id, f id)) ids ++ [(k, v)].
Proof.
  induction ids as [|id rest IH]; intros Hnot; simpl; [reflexivity|].
  destruct (String.eqb_spec id k) as [->|_].
  - exfalso. apply Hnot. left. reflexivity.
  - rewrite IH by (intros H; apply Hnot; right; exact H). reflexivity.
Qed.

Lemma set_entries_present (f g : string -> nat) ids k :
  List.NoDup ids -> In k ids ->
  (forall id, id <> k -> g id = f id) ->
  JsObject.set (map (fun id => (id, f id)) ids) k (g k)
  = map (fun id => (id, g id)) ids.
Proof.
  induction ids as [|id rest IH]; intros Hnd Hin Hg; [destruct Hin|].
  apply List.NoDup_cons_iff in Hnd as [Hid Hnd]. simpl.
  destruct (String.eqb_spec id k) as [->|Hne].
  - f_equal. apply map_ext_in. intros x Hx. f_equal. symmetry. apply Hg.
    intros ->. contradiction.
  - destruct Hin as [->|Hin]; [contradiction|].
    rewrite (Hg id Hne). f_equal. apply IH; assumption.
Qed.

(** The entries of [teacherCounts]: every teacher that has an assignment,
    in order of first appearance, with its number of assignments. *)
Lemma countByTeacher_entries l :
  countByTeacher l
  = map (fun id => (id, assignmentsOf id l)) (teachersOf l).
Proof.
  induction l as [|a l IH] using rev_ind; [reflexivity|].
  rewrite countByTeacher_snoc, IH. unfold JsObject.increment.
  rewrite get_entries, teachersOf_snoc.
  destruct (existsb (String.eqb (teacherId a)) (teachersOf l)) eqn:E.
  - change (default 0%nat (Some (assignmentsOf (teacherId a) l)))
      with (assignmentsOf (teacherId a) l).
    replace (assignmentsOf (teacherId a) l + 1)%nat
      with (assignmentsOf (teacherId a) (l ++ [a]))
      by (rewrite assignmentsOf_snoc, String.eqb_refl; reflexivity).
    apply (set_entries_present (fun id => assignmentsOf id l)
             (fun id => assignmentsOf id (l ++ [a]))).
    + apply teachersOf_NoDup.
    + apply existsb_eqb_In. exact E.
    + intros id Hne. rewrite assignmentsOf_snoc.
      destruct (String.eqb_spec (teacherId a) id) as [Heq|_];
        [congruence | apply Nat.add_0_r].
  - assert (Hnot : ~ In (teacherId a) (teachersOf l)).
    { intros H. apply existsb_eqb_In in H. congruence. }
    rewrite set_entries_absent by exact Hnot.
    rewrite map_app. cbn [map].
    change (default 0%nat None) with 0%nat.
    f_equal.
    + apply map_ext_in. intros id Hid. f_equal.
      rewrite assignmentsOf_snoc.
      destruct (String.eqb_spec (teacherId a) id) as [Heq|_];
        [subst; contradiction | symmetry; apply Nat.add_0_r].
    + rewrite assignmentsOf_snoc, String.eqb_refl.
      rewrite (assignmentsOf_absent l _ Hnot). reflexivity.
Qed.

Lemma countByTeacher_values l :
  JsObject.values (countByTeacher l) = perTeacherCounts l.
Proof.
  rewrite countByTeacher_entries. unfold JsObject.values, perTeacherCounts.
  rewrite map_map. reflexivity.
Qed.

(** Every assignment's teacher has an entry, with a count of at least 1. *)
Lemma teachersOf_In l a : In a l -> In (teacherId a) (teachersOf l).
Proof.
  intros Hin.
  destruct (in_dec String.string_dec (teacherId a) (teachersOf l)) as [H|H];
    [exact H|].
  apply assignmentsOf_absent in H. unfold assignmentsOf in H.
  apply length_zero_iff_nil in H.
  assert (Hf : In a (List.filter (fun a0 => String.eqb (teacherId a0) (teacherId a)) l)).
  { apply List.filter_In. split; [exact Hin | apply String.eqb_refl]. }
  rewrite H in Hf. destruct Hf.
Qed.

Lemma assignmentsOf_pos l a : In a l -> (1 <= assignmentsOf (teacherId a) l)%nat.
Proof.
  intros Hin. unfold assignmentsOf.
  assert (Hf : In a (List.filter (fun a0 => String.eqb (teacherId a0) (teacherId a)) l)).
  { apply List.filter_In. split; [exact Hin | apply String.eqb_refl]. }
  destruct (List.filter _ l); [destruct Hf | simpl; lia].
Qed.

(** ** The balance of a list of counts *)

Lemma sumOf_from counts : forall s,
  fold_left (fun sum c => add sum (ofNat c)) counts (Finite s)
  = Finite (s + INR (total counts)).
Proof.
  induction counts as [|c rest IH]; intros s; simpl.
  - f_equal. lra.
  - unfold ofNat. cbn [add]. rewrite IH. f_equal.
    rewrite plus_INR. lra.
Qed.

Lemma sumOf_total counts : sumOf counts = Finite (INR (total counts)).
Proof. unfold sumOf. rewrite sumOf_from. f_equal. lra. Qed.

Lemma sumSquares_from m counts : forall s,
  fold_left
    (fun sum c => let d := sub (ofNat c) (Finite m) in add sum (mul d d))
    counts (Finite s)
  = Finite (s + squares m counts).
Proof.
  induction counts as [|c rest IH]; intros s; simpl.
  - f_equal. lra.
  - unfold ofNat, sub. cbn [neg add mul]. rewrite IH. f_equal.
    unfold Rminus. lra.
Qed.

Lemma sumSquares_squares m counts :
  sumSquares (Finite m) counts = Finite (squares m counts).
Proof. unfold sumSquares. rewrite sumSquares_from. f_equal. lra. Qed.

Lemma squares_nonneg m counts : (0 <= squares m counts)%R.
Proof.
  induction counts as [|c rest IH]; simpl; [lra|].
  pose proof (Rle_0_sqr (INR c - m)) as H. unfold Rsqr in H. lra.
Qed.

Lemma length_pos_INR {A} (l : list A) : l <> [] -> (0 < INR (length l))%R.
Proof.
  intros H. destruct l; [contradiction|].
  apply lt_0_INR. simpl. lia.
Qed.

(** With a positive mean the function computes the clamped
    [1 - stdDev / mean], a finite number. *)
Lemma balanceOfCounts_balance counts :
  counts <> [] -> (0 < total counts)%nat ->
  balanceOfCounts counts = Finite (balance counts).
Proof.
  intros Hne Hpos. unfold balanceOfCounts.
  destruct counts as [|c0 rest] eqn:Ec; [contradiction|]. rewrite <- Ec in *.
  replace (length counts =? 0)%nat with false
    by (rewrite Ec; reflexivity).
  pose proof (length_pos_INR counts Hne) as Hn.
  assert (Ht : (0 < INR (total counts))%R) by (apply lt_0_INR; exact Hpos).
  rewrite sumOf_total. unfold ofNat.
  rewrite div_Finite by lra.
  fold (mean counts).
  assert (Hm : (0 < mean counts)%R)
    by (unfold mean; apply Rdiv_lt_0_compat; assumption).
  rewrite isZero_nonzero by lra.
  rewrite sumSquares_squares, div_Finite by lra.
  rewrite sqrt_Finite
    by (apply Rmult_le_pos;
        [apply squares_nonneg | left; apply Rinv_0_lt_compat; exact Hn]).
  fold (stdDev counts).
  rewrite div_Finite by lra.
  unfold sub. cbn [neg add]. rewrite max_Finite, min_Finite.
  unfold balance. rewrite clamp_swap. reflexivity.
Qed.

(** A zero mean is answered with 1. *)
Lemma balanceOfCounts_zero_mean counts :
  mean counts = 0%R -> balanceOfCounts counts = Finite 1.
Proof.
  intros Hmean. unfold balanceOfCounts.
  destruct (length counts =? 0)%nat eqn:El; [reflexivity|].
  apply Nat.eqb_neq in El.
  assert (Hn : (0 < INR (length counts))%R) by (apply lt_0_INR; lia).
  rewrite sumOf_total. unfold ofNat. rewrite div_Finite by lra.
  fold (mean counts). rewrite Hmean.
  replace (isZero (Finite 0)) with true
    by (symmetry; apply isZero_Finite; reflexivity).
  reflexivity.
Qed.

(** ** Equal counts *)

Lemma total_equal c counts :
  Forall (fun x => x = c) counts -> total counts = (length counts * c)%nat.
Proof.
  induction 1 as [|x rest Hx _ IH]; simpl; [reflexivity|].
  rewrite IH, Hx. reflexivity.
Qed.

Lemma squares_equal c counts :
  Forall (fun x => x = c) counts -> squares (INR c) counts = 0%R.
Proof.
  induction 1 as [|x rest Hx _ IH]; simpl; [reflexivity|].
  rewrite IH, Hx. lra.
Qed.

Lemma balance_equal c counts :
  counts <> [] -> (0 < c)%nat -> Forall (fun x => x = c) counts ->
  balance counts = 1%R.
Proof.
  intros Hne Hc Hall. unfold balance, stdDev.
  pose proof (length_pos_INR counts Hne) as Hn.
  assert (Hmean : mean counts = INR c).
  { unfold mean. rewrite (total_equal c counts Hall), mult_INR.
    field. lra. }
  rewrite Hmean, (squares_equal c counts Hall).
  replace (0 / INR (length counts))%R with 0%R by (field; lra).
  rewrite sqrt_0.
  replace (1 - 0 / INR c)%R with 1%R
    by (field; apply not_0_INR; lia).
  minmax_cases.
Qed.

(** ** The whole function *)

Lemma perTeacherCounts_nonempty l :
  l <> [] -> perTeacherCounts l <> [] /\ (0 < total (perTeacherCounts l))%nat.
Proof.
  intros Hne. destruct l as [|a rest] eqn:El; [contradiction|].
  rewrite <- El in *.
  assert (Hin : In a l) by (rewrite El; left; reflexivity).
  pose proof (teachersOf_In l a Hin) as Ht.
  pose proof (assignmentsOf_pos l a Hin) as Hc.
  unfold perTeacherCounts.
  assert (Hge : forall ids, In (teacherId a) ids ->
            (assignmentsOf (teacherId a) l
             <= total (map (fun id => assignmentsOf id l) ids))%nat).
  { clear. induction ids as [|i ids IH]; intros Hin; [destruct Hin|].
    simpl. destruct Hin as [->|Hin]; [lia|]. specialize (IH Hin). lia. }
  specialize (Hge _ Ht). split; [|lia].
  destruct (teachersOf l); [destruct Ht | discriminate].
Qed.

Lemma calculateDistributionBalance_balance l :
  l <> [] ->
  calculateDistributionBalance l = Finite (balance (perTeacherCounts l)).
Proof.
  intros Hne. unfold calculateDistributionBalance.
  destruct l as [|a rest] eqn:El; [contradiction|]. rewrite <- El in *.
  replace (length l =? 0)%nat with false by (rewrite El; reflexivity).
  rewrite countByTeacher_values.
  destruct (perTeacherCounts_nonempty l Hne) as [Hc Ht].
  apply balanceOfCounts_balance; assumption.
Qed.

Lemma calculateDistributionBalance_equal l c :
  (forall id, In id (teachersOf l) -> assignmentsOf id l = c) ->
  calculateDistributionBalance l = Finite 1.
Proof.
  intros Hall. destruct l as [|a rest] eqn:El; [reflexivity|].
  rewrite <- El in *.
  assert (Hne : l <> []) by (rewrite El; discriminate).
  rewrite calculateDistributionBalance_balance by exact Hne. f_equal.
  destruct (perTeacherCounts_nonempty l Hne) as [Hc _].
  assert (Hin : In a l) by (rewrite El; left; reflexivity).
  apply (balance_equal c); [exact Hc | |].
  - rewrite <- (Hall _ (teachersOf_In l a Hin)).
    apply assignmentsOf_pos. exact Hin.
  - unfold perTeacherCounts. apply Forall_forall. intros x Hx.
    apply list_elem_of_In, in_map_iff in Hx as (id & <- & Hid).
    apply Hall. exact Hid.
Qed.

(** C8.  [calculateDistributionBalance] returns 1 for an empty list and
    for every list whose per-teacher assignment counts are all equal; for
    a list that is not empty it returns
    [max(0, min(1, 1 - stdDev / mean))] of the per-teacher assignment
    counts (one count for each teacher that has an assignment); and a
    zero mean of the counts is answered with 1. *)
Theorem distribution_balance :
  calculateDistributionBalance [] = Finite 1 /\
  (forall assignments c,
     (forall id, In id (teachersOf assignments) ->
        assignmentsOf id assignments = c) ->
     calculateDistributionBalance assignments = Finite 1) /\
  (forall assignments, assignments <> [] ->
     calculateDistributionBalance assignments
     = Finite (balance (perTeacherCounts assignments))) /\
  (forall counts, mean counts = 0%R -> balanceOfCounts counts = Finite 1).
Proof.
  split; [reflexivity|].
  split; [exact calculateDistributionBalance_equal|].
  split; [exact calculateDistributionBalance_balance|].
  exact balanceOfCounts_zero_mean.
Qed.

(** Three teachers with four assignments each. *)
Lemma distribution_balance_witness :
  calculateDistributionBalance
    [assignment "s1" "a"; assignment "s2" "b"; assignment "s3" "c";
     assignment "s4" "a"; assignment "s5" "b"; assignment "s6" "c";
     assignment "s7" "a"; assignment "s8" "b"; assignment "s9" "c";
     assignment "s10" "a"; assignment "s11" "b"; assignment "s12" "c"]
  = Finite 1.
Proof.
  destruct distribution_balance as (_ & Hequal & _).
  apply (Hequal _ 4%nat).
  intros id [<-|[<-|[<-|[]]]]; reflexivity.
Defined.

(** ** The end-to-end cases of the skew score *)

(** One score in each of the ten bins: no skew.  All scores in one bin:
    nine tenths, the largest value ten bins allow. *)
Example abroca_uniform_and_concentrated :
  let scored (v : Q) :=
    {| studentId := "s"; teacherId := "t"; score := v |} in
  (calculateABROCA
     (map scored [5; 15; 25; 35; 45; 55; 65; 75; 85; 95]%Q) == 0)%Q /\
  (calculateABROCA
     (map scored [5; 5; 5; 5; 5; 5; 5; 5; 5; 5]%Q) == 9 # 10)%Q.
Proof. split; vm_compute; reflexivity. Qed.

End FairnessMetricsProofs.

(* ================================================================== *)
(** * Further properties of the assignment engine and its aggregates *)
(* ================================================================== *)

Module QListFacts.
Import FairnessMetrics.

Lemma Qmax_cases x y : Qmax x y = x \/ Qmax x y = y.
Proof.
  unfold Qmax, GenericMinMax.gmax. destruct (x ?= y)%Q; auto.
Qed.

Lemma Qmin_cases x y : Qmin x y = x \/ Qmin x y = y.
Proof.
  unfold Qmin, GenericMinMax.gmin. destruct (x ?= y)%Q; auto.
Qed.

Lemma fold_Qmax_In rest : forall x,
  In (fold_left Qmax rest x) (x :: rest).
Proof.
  induction rest as [|y rest IH]; intros x; simpl; [left; reflexivity|].
  destruct (IH (Qmax x y)) as [H|H]; [|right; right; exact H].
  destruct (Qmax_cases x y) as [E|E]; [left | right; left]; congruence.
Qed.

Lemma fold_Qmin_In rest : forall x,
  In (fold_left Qmin rest x) (x :: rest).
Proof.
  induction rest as [|y rest IH]; intros x; simpl; [left; reflexivity|].
  destruct (IH (Qmin x y)) as [H|H]; [|right; right; exact H].
  destruct (Qmin_cases x y) as [E|E]; [left | right; left]; congruence.
Qed.

Lemma fold_Qmax_ge rest : forall x y,
  In y (x :: rest) -> (y <= fold_left Qmax rest x)%Q.
Proof.
  induction rest as [|z rest IH]; intros x y Hin; simpl.
  - destruct Hin as [->|[]]. apply Qle_refl.
  - destruct Hin as [->|[->|Hin]].
    + eapply Qle_trans; [apply Q.le_max_l | apply IH; left; reflexivity].
    + eapply Qle_trans; [apply Q.le_max_r | apply IH; left; reflexivity].
    + apply IH. right. exact Hin.
Qed.

Lemma fold_Qmin_le rest : forall x y,
  In y (x :: rest) -> (fold_left Qmin rest x <= y)%Q.
Proof.
  induction rest as [|z rest IH]; intros x y Hin; simpl.
  - destruct Hin as [->|[]]. apply Qle_refl.
  - destruct Hin as [->|[->|Hin]].
    + eapply Qle_trans; [apply IH; left; reflexivity | apply Q.le_min_l].
    + eapply Qle_trans; [apply IH; left; reflexivity | apply Q.le_min_r].
    + apply IH. right. exact Hin.
Qed.

Lemma maxOf_In l : l <> [] -> In (maxOf l) l.
Proof. destruct l; [contradiction|]. intros _. apply fold_Qmax_In. Qed.

Lemma minOf_In l : l <> [] -> In (minOf l) l.
Proof. destruct l; [contradiction|]. intros _. apply fold_Qmin_In. Qed.

Lemma maxOf_ge l y : In y l -> (y <= maxOf l)%Q.
Proof. destruct l; [intros []|]. apply fold_Qmax_ge. Qed.

Lemma minOf_le l y : In y l -> (minOf l <= y)%Q.
Proof. destruct l; [intros []|]. apply fold_Qmin_le. Qed.

(** A sum of rationals between [n] times a lower and an upper bound. *)
Lemma fold_Qplus_bounds lo hi l : forall a,
  (forall y, In y l -> (lo <= y <= hi)%Q) ->
  (a + inject_Z (Z.of_nat (length l)) * lo <= fold_left Qplus l a
   <= a + inject_Z (Z.of_nat (length l)) * hi)%Q.
Proof.
  induction l as [|x l IH]; intros a Hall.
  - simpl. change (inject_Z 0) with 0%Q. split; ring_simplify; apply Qle_refl.
  - cbn [fold_left length].
    destruct (IH (a + x)%Q (fun y Hy => Hall y (or_intror Hy))) as [H1 H2].
    destruct (Hall x (or_introl eq_refl)) as [Hlo Hhi].
    rewrite Nat2Z.inj_succ. unfold Z.succ. rewrite inject_Z_plus.
    change (inject_Z 1) with 1%Q.
    split.
    + eapply Qle_trans; [|exact H1].
      assert (E : (a + (inject_Z (Z.of_nat (length l)) + 1) * lo
                   == (a + lo) + inject_Z (Z.of_nat (length l)) * lo)%Q) by ring.
      rewrite E.
      apply Qplus_le_compat; [|apply Qle_refl].
      apply Qplus_le_compat; [apply Qle_refl | exact Hlo].
    + eapply Qle_trans; [exact H2|].
      assert (E : (a + (inject_Z (Z.of_nat (length l)) + 1) * hi
                   == (a + hi) + inject_Z (Z.of_nat (length l)) * hi)%Q) by ring.
      rewrite E.
      apply Qplus_le_compat; [|apply Qle_refl].
      apply Qplus_le_compat; [apply Qle_refl | exact Hhi].
Qed.

(** The average of a list that is not empty lies between its bounds. *)
Lemma average_bounds lo hi l :
  l <> [] -> (forall y, In y l -> (lo <= y <= hi)%Q) ->
  (lo <= fold_left Qplus l 0 / inject_Z (Z.of_nat (length l)) <= hi)%Q.
Proof.
  intros Hne Hall.
  assert (Hn : (0 < inject_Z (Z.of_nat (length l)))%Q).
  { destruct l; [contradiction|].
    change 0%Q with (inject_Z 0). rewrite <- Zlt_Qlt. simpl. lia. }
  destruct (fold_Qplus_bounds lo hi l 0%Q Hall) as [H1 H2].
  rewrite Qplus_0_l in H1, H2. split.
  - apply Qle_shift_div_l; [exact Hn|]. rewrite Qmult_comm. exact H1.
  - apply Qle_shift_div_r; [exact Hn|]. rewrite Qmult_comm. exact H2.
Qed.

End QListFacts.

Module JsObjectTally.
Import JsObject JsObjectFacts FairnessMetricsSpec.

Lemma increment_cons k' v' rest k :
  increment ((k', v') :: rest) k
  = if String.eqb k' k then (k', (v' + 1)%nat) :: rest
    else (k', v') :: increment rest k.
Proof.
  unfold increment. simpl. destruct (String.eqb k' k); reflexivity.
Qed.

(** Counting one more key raises the sum of the counts by one. *)
Lemma increment_total o k :
  total (values (increment o k)) = S (total (values o)).
Proof.
  induction o as [|[k' v'] rest IH].
  - reflexivity.
  - rewrite increment_cons. unfold total, values in *.
    destruct (String.eqb k' k); cbn [map snd fold_right].
    + lia.
    + rewrite IH. lia.
Qed.

Lemma tally_total keys : forall o,
  total (values (fold_left increment keys o))
  = (total (values o) + length keys)%nat.
Proof.
  induction keys as [|k rest IH]; intros o; simpl; [lia|].
  rewrite IH, increment_total. lia.
Qed.

Lemma get_increment_None o k k' :
  get (increment o k) k' = None <-> get o k' = None /\ k <> k'.
Proof.
  unfold increment. rewrite get_set.
  destruct (String.eqb_spec k k') as [->|Hne]; split.
  - discriminate.
  - intros [_ H]. contradiction.
  - auto.
  - intros [H _]. exact H.
Qed.

Lemma tally_None keys : forall o k,
  get (fold_left increment keys o) k = None
  <-> get o k = None /\ ~ In k keys.
Proof.
  induction keys as [|key rest IH]; intros o k; simpl.
  - tauto.
  - rewrite IH, get_increment_None. intuition congruence.
Qed.

(** A tally of keys holds, for every key, the number of its occurrences,
    and no entry for a key that does not occur. *)
Lemma tally_get keys k :
  get (fold_left increment keys []) k
  = let count := length (List.filter (String.eqb k) keys) in
    if (count =? 0)%nat then None else Some count.
Proof.
  cbv zeta.
  pose proof (get_tally keys [] k) as Hcount. simpl in Hcount.
  destruct (get (fold_left increment keys []) k) as [v|] eqn:E.
  - simpl in Hcount. subst v.
    destruct (length (List.filter (String.eqb k) keys)) eqn:El; [|reflexivity].
    exfalso.
    assert (Hnone : ~ In k keys).
    { intros Hin. apply length_zero_iff_nil in El.
      assert (Hf : In k (List.filter (String.eqb k) keys))
        by (apply List.filter_In; split; [exact Hin | apply String.eqb_refl]).
      rewrite El in Hf. destruct Hf. }
    assert (get (fold_left increment keys []) k = None)
      by (apply tally_None; split; [reflexivity | exact Hnone]).
    congruence.
  - apply tally_None in E as [_ Hnot].
    replace (List.filter (String.eqb k) keys) with (@nil string); [reflexivity|].
    symmetry. clear Hcount.
    induction keys as [|key rest IH]; [reflexivity|]. simpl.
    destruct (String.eqb_spec k key) as [->|_].
    + exfalso. apply Hnot. left. reflexivity.
    + apply IH. intros H. apply Hnot. right. exact H.
Qed.

End JsObjectTally.

Module AssignmentStatsProofs.
Import Types AssignmentStats AssignmentStatsSpec AutoAssignmentSamples.
Import QListFacts JsObjectTally.

(** ** [summarizeAssignments] and [calculateSummary] *)

Lemma countTeachers_tally assignments :
  countTeachers assignments
  = fold_left JsObject.increment (map teacherId assignments) [].
Proof.
  unfold countTeachers. generalize (@nil (string * nat)).
  induction assignments as [|a rest IH]; intros o; simpl; [reflexivity|].
  apply IH.
Qed.

Lemma filter_teacherId id assignments :
  length (List.filter (String.eqb id) (map teacherId assignments))
  = assignedTo id assignments.
Proof.
  unfold assignedTo.
  induction assignments as [|a rest IH]; [reflexivity|]. simpl.
  rewrite (String.eqb_sym id (teacherId a)).
  destruct (String.eqb (teacherId a) id); simpl; congruence.
Qed.

(** The repository's summary is the engine's, field by field. *)
Lemma calculateSummary_summarizeAssignments assignments :
  let p := calculateSummary assignments in
  let s := summarizeAssignments assignments in
  ps_totalStudents p = totalStudents s /\
  ps_assignedStudents p = assignedStudents s /\
  ps_averageScore p = averageScore s /\
  ps_minScore p = minScore s /\ ps_maxScore p = maxScore s /\
  ps_teacherLoads p = teacherCounts s.
Proof.
  unfold calculateSummary, summarizeAssignments.
  destruct (length assignments =? 0)%nat; cbn; repeat split; reflexivity.
Qed.

(** X1.  When no teacher id is a property name that objects inherit
    (["__proto__"], ["constructor"], ["toString"], ...), the summary counts
    every assignment once: [totalStudents] and [assignedStudents] are both
    the number of assignments, the entry of [teacherCounts] for a teacher
    id is the number of assignments naming it, with no entry for an id
    that is not named, and the counts add up to the number of
    assignments.  The repository's [calculateSummary] gives the same
    numbers under [teacherLoads]. *)
Theorem summary_counts_each_assignment_once assignments :
  (forall a, In a assignments -> JsNames.ownKey (teacherId a)) ->
  let s := summarizeAssignments assignments in
  let p := calculateSummary assignments in
  totalStudents s = length assignments /\
  assignedStudents s = length assignments /\
  (forall id,
     JsObject.get (teacherCounts s) id = entryOf (assignedTo id assignments)) /\
  FairnessMetricsSpec.total (JsObject.values (teacherCounts s))
  = length assignments /\
  ps_totalStudents p = length assignments /\
  ps_teacherLoads p = teacherCounts s.
Proof.
  intros _. cbv zeta.
  destruct (calculateSummary_summarizeAssignments assignments)
    as (Ht & _ & _ & _ & _ & Hl).
  cbv zeta in Ht, Hl. rewrite Ht, Hl.
  unfold summarizeAssignments.
  destruct assignments as [|a rest] eqn:E;
    [cbn; repeat split; intros; reflexivity|].
  rewrite <- E. replace (length assignments =? 0)%nat with false
    by (rewrite E; reflexivity).
  cbn [totalStudents assignedStudents teacherCounts].
  rewrite countTeachers_tally.
  repeat split.
  - intros id. rewrite tally_get. cbv zeta.
    rewrite filter_teacherId. reflexivity.
  - rewrite tally_total, length_map. reflexivity.
Qed.

Lemma summary_counts_each_assignment_once_witness :
  let assignments :=
    [{| studentId := "s1"; teacherId := "a"; score := scoreOfValue 60 |};
     {| studentId := "s2"; teacherId := "b"; score := scoreOfValue 90 |};
     {| studentId := "s3"; teacherId := "a"; score := scoreOfValue 70 |}] in
  JsObject.get (teacherCounts (summarizeAssignments assignments)) "a"
  = Some 2%nat.
Proof.
  cbv zeta.
  destruct (summary_counts_each_assignment_once
              [{| studentId := "s1"; teacherId := "a";
                  score := scoreOfValue 60 |};
               {| studentId := "s2"; teacherId := "b";
                  score := scoreOfValue 90 |};
               {| studentId := "s3"; teacherId := "a";
                  score := scoreOfValue 70 |}])
    as (_ & _ & H & _).
  - intros a [<-|[<-|[<-|[]]]] Hin; cbn in Hin;
      repeat (destruct Hin as [Hin|Hin]; [discriminate|]); exact Hin.
  - rewrite H. reflexivity.
Defined.

Lemma scoresOf_nonempty assignments :
  assignments <> [] -> scoresOf assignments <> [].
Proof. destruct assignments; [contradiction|discriminate]. Qed.

(** X2.  For a list of assignments that is not empty, [minScore] and
    [maxScore] are overall scores of assignments in the list, and every
    overall score of the list lies between them. *)
Theorem summary_scores_are_bounds assignments :
  assignments <> [] ->
  let s := summarizeAssignments assignments in
  In (minScore s) (scoresOf assignments) /\
  In (maxScore s) (scoresOf assignments) /\
  (forall a, In a assignments ->
     (minScore s <= overall (score a) <= maxScore s)%Q).
Proof.
  intros Hne. cbv zeta. unfold summarizeAssignments.
  destruct assignments as [|a0 rest] eqn:E; [contradiction|].
  rewrite <- E in *. replace (length assignments =? 0)%nat with false
    by (rewrite E; reflexivity).
  cbn [minScore maxScore]. fold (scoresOf assignments).
  pose proof (scoresOf_nonempty assignments Hne) as Hs.
  split; [apply minOf_In; exact Hs|].
  split; [apply maxOf_In; exact Hs|].
  intros a Ha.
  assert (Hy : In (overall (score a)) (scoresOf assignments)).
  { unfold scoresOf. apply (in_map (fun a => overall (score a))). exact Ha. }
  split; [apply minOf_le | apply maxOf_ge]; exact Hy.
Qed.

Lemma summary_scores_are_bounds_witness :
  let assignments :=
    [{| studentId := "s1"; teacherId := "a"; score := scoreOfValue 60 |};
     {| studentId := "s2"; teacherId := "b"; score := scoreOfValue 90 |}] in
  let s := summarizeAssignments assignments in
  In (minScore s) (scoresOf assignments) /\
  In (maxScore s) (scoresOf assignments).
Proof.
  cbv zeta.
  destruct (summary_scores_are_bounds
              [{| studentId := "s1"; teacherId := "a";
                  score := scoreOfValue 60 |};
               {| studentId := "s2"; teacherId := "b";
                  score := scoreOfValue 90 |}])
    as (Hmin & Hmax & _); [discriminate|].
  split; assumption.
Defined.

(** ** [calculateLoadStats] *)

Import JsNumber JsNumberFacts.

Lemma fold_Zmin_spec rest : forall x,
  In (fold_left Z.min rest x) (x :: rest) /\
  forall y, In y (x :: rest) -> (fold_left Z.min rest x <= y)%Z.
Proof.
  induction rest as [|z rest IH]; intros x; simpl.
  - split; [left; reflexivity|]. intros y [->|[]]. lia.
  - destruct (IH (Z.min x z)) as [Hin Hle]. split.
    + destruct Hin as [H|H]; [|right; right; exact H].
      destruct (Z.min_spec x z) as [[_ E]|[_ E]]; [left | right; left];
        congruence.
    + intros y [->|[->|Hy]].
      * specialize (Hle _ (or_introl eq_refl)). lia.
      * specialize (Hle _ (or_introl eq_refl)). lia.
      * apply Hle. right. exact Hy.
Qed.

Lemma fold_Zmax_spec rest : forall x,
  In (fold_left Z.max rest x) (x :: rest) /\
  forall y, In y (x :: rest) -> (y <= fold_left Z.max rest x)%Z.
Proof.
  induction rest as [|z rest IH]; intros x; simpl.
  - split; [left; reflexivity|]. intros y [->|[]]. lia.
  - destruct (IH (Z.max x z)) as [Hin Hle]. split.
    + destruct Hin as [H|H]; [|right; right; exact H].
      destruct (Z.max_spec x z) as [[_ E]|[_ E]]; [right; left | left];
        congruence.
    + intros y [->|[->|Hy]].
      * specialize (Hle _ (or_introl eq_refl)). lia.
      * specialize (Hle _ (or_introl eq_refl)). lia.
      * apply Hle. right. exact Hy.
Qed.

Lemma sumLoads_inject loads : forall a,
  (inject_Z (fold_left Z.add loads a)
   == fold_left Qplus (map inject_Z loads) (inject_Z a))%Q.
Proof.
  induction loads as [|x rest IH]; intros a; simpl; [reflexivity|].
  rewrite IH. rewrite inject_Z_plus. reflexivity.
Qed.

Lemma fold_Qplus_compat l : forall a b,
  (a == b)%Q -> (fold_left Qplus l a == fold_left Qplus l b)%Q.
Proof.
  induction l as [|x l IH]; intros a b Hab; simpl; [exact Hab|].
  apply IH. rewrite Hab. reflexivity.
Qed.

Lemma sumSquaredDeviations_from mean loads : forall a,
  (a <= fold_left
          (fun sum load =>
             (sum + (inject_Z load - mean) * (inject_Z load - mean))%Q)
          loads a)%Q.
Proof.
  induction loads as [|x rest IH]; intros a; simpl; [apply Qle_refl|].
  eapply Qle_trans; [|apply IH].
  rewrite <- (Qplus_0_r a) at 1.
  apply Qplus_le_compat; [apply Qle_refl|].
  destruct (Qlt_le_dec (inject_Z x - mean) 0) as [Hneg|Hpos].
  - setoid_replace ((inject_Z x - mean) * (inject_Z x - mean))%Q
      with ((- (inject_Z x - mean)) * (- (inject_Z x - mean)))%Q
      using relation Qeq by ring.
    assert (0 <= - (inject_Z x - mean))%Q.
    { apply (Qopp_le_compat (inject_Z x - mean) 0). apply Qlt_le_weak.
      exact Hneg. }
    apply Qmult_le_0_compat; assumption.
  - apply Qmult_le_0_compat; assumption.
Qed.

Lemma sumSquaredDeviations_equal c mean loads :
  (mean == inject_Z c)%Q -> (forall x, In x loads -> x = c) ->
  (sumSquaredDeviations mean loads == 0)%Q.
Proof.
  intros Hmean Hall. unfold sumSquaredDeviations.
  induction loads as [|x rest IH]; simpl; [reflexivity|].
  rewrite (Hall x (or_introl eq_refl)).
  assert (E : (0 + (inject_Z c - mean) * (inject_Z c - mean) == 0)%Q)
    by (rewrite Hmean; ring).
  etransitivity; [|apply IH; intros y Hy; apply Hall; right; exact Hy].
  clear IH.
  generalize dependent (0 + (inject_Z c - mean) * (inject_Z c - mean))%Q.
  intros q Hq.
  assert (Hcompat : forall l a b, (a == b)%Q ->
    (fold_left (fun sum load =>
                  (sum + (inject_Z load - mean) * (inject_Z load - mean))%Q) l a
     == fold_left (fun sum load =>
                  (sum + (inject_Z load - mean) * (inject_Z load - mean))%Q) l b)%Q).
  { clear. induction l as [|x l IH]; intros a b Hab; simpl; [exact Hab|].
    apply IH. rewrite Hab. reflexivity. }
  apply Hcompat. exact Hq.
Qed.

Lemma length_pos_Q {A} (l : list A) :
  l <> [] -> (0 < inject_Z (Z.of_nat (length l)))%Q.
Proof.
  intros H. destruct l; [contradiction|].
  change 0%Q with (inject_Z 0). rewrite <- Zlt_Qlt. simpl. lia.
Qed.

Lemma mean_of_loads loads :
  (inject_Z (sumLoads loads) / inject_Z (Z.of_nat (length loads))
   == fold_left Qplus (map inject_Z loads) 0
      / inject_Z (Z.of_nat (length (map inject_Z loads))))%Q.
Proof.
  unfold sumLoads. rewrite sumLoads_inject, length_map. reflexivity.
Qed.

(** X3.  For a load table that is not empty, [min] and [max] are loads of
    the table and bound every load, [range] is [max - min] and is not
    negative, and [mean] lies between [min] and [max]. *)
Theorem load_stats_bounds teacherLoads :
  teacherLoads <> [] ->
  let loads := JsObject.values teacherLoads in
  let s := calculateLoadStats teacherLoads in
  In (stat_min s) loads /\ In (stat_max s) loads /\
  (forall load, In load loads -> (stat_min s <= load <= stat_max s)%Z) /\
  stat_range s = (stat_max s - stat_min s)%Z /\ (0 <= stat_range s)%Z /\
  (inject_Z (stat_min s) <= stat_mean s <= inject_Z (stat_max s))%Q.
Proof.
  intros Hne. cbv zeta. unfold calculateLoadStats.
  destruct (JsObject.values teacherLoads) as [|x rest] eqn:E.
  { destruct teacherLoads; [contradiction|discriminate]. }
  cbn [length Nat.eqb stat_min stat_max stat_range stat_mean minLoad maxLoad].
  destruct (fold_Zmin_spec rest x) as [Hmin_in Hmin].
  destruct (fold_Zmax_spec rest x) as [Hmax_in Hmax].
  split; [exact Hmin_in|]. split; [exact Hmax_in|].
  split; [intros load Hl; split; [apply Hmin | apply Hmax]; exact Hl|].
  split; [reflexivity|].
  split; [specialize (Hmin _ Hmax_in); lia|].
  change (S (length rest)) with (length (x :: rest)).
  rewrite mean_of_loads.
  apply average_bounds; [discriminate|].
  intros y Hy. apply in_map_iff in Hy as (z & <- & Hz).
  rewrite <- !Zle_Qle. split; [apply Hmin | apply Hmax]; exact Hz.
Qed.

Lemma load_stats_bounds_witness :
  let s := calculateLoadStats [("a", 3%Z); ("b", 5%Z)] in
  (inject_Z (stat_min s) <= stat_mean s <= inject_Z (stat_max s))%Q.
Proof.
  apply (load_stats_bounds [("a", 3%Z); ("b", 5%Z)]). discriminate.
Defined.

(** X4.  For a load table that is not empty, [variance] is not negative
    and [stdDev] is a number, not NaN, and not negative; [range] is 0
    exactly when all loads are equal, and then [variance] and [stdDev]
    are 0. *)
Theorem load_stats_spread teacherLoads :
  teacherLoads <> [] ->
  let loads := JsObject.values teacherLoads in
  let s := calculateLoadStats teacherLoads in
  (0 <= stat_variance s)%Q /\
  (exists r, stat_stdDev s = Finite r /\ (0 <= r)%R) /\
  (stat_range s = 0%Z <->
   forall x y, In x loads -> In y loads -> x = y) /\
  (stat_range s = 0%Z ->
   (stat_variance s == 0)%Q /\ stat_stdDev s = Finite 0).
Proof.
  intros Hne. cbv zeta. unfold calculateLoadStats.
  destruct (JsObject.values teacherLoads) as [|x0 rest] eqn:E.
  { destruct teacherLoads; [contradiction|discriminate]. }
  set (loads := x0 :: rest).
  assert (Hl : loads <> []) by discriminate.
  change (S (length rest)) with (length loads).
  replace (length loads =? 0)%nat with false by reflexivity.
  cbn [stat_variance stat_stdDev stat_range].
  pose proof (length_pos_Q loads Hl) as Hn.
  set (mean := (inject_Z (sumLoads loads) / inject_Z (Z.of_nat (length loads)))%Q).
  set (variance :=
         (sumSquaredDeviations mean loads / inject_Z (Z.of_nat (length loads)))%Q).
  assert (Hvar : (0 <= variance)%Q).
  { unfold variance. apply Qle_shift_div_l; [exact Hn|].
    rewrite Qmult_0_l. apply sumSquaredDeviations_from. }
  assert (HvarR : (0 <= Q2R variance)%R).
  { replace 0%R with (Q2R 0) by (unfold Q2R; simpl; lra).
    apply Qreals.Qle_Rle. exact Hvar. }
  destruct (fold_Zmin_spec rest x0) as [Hmin_in Hmin].
  destruct (fold_Zmax_spec rest x0) as [Hmax_in Hmax].
  fold loads in Hmin_in, Hmin, Hmax_in, Hmax.
  change (fold_left Z.min rest x0) with (minLoad loads) in *.
  change (fold_left Z.max rest x0) with (maxLoad loads) in *.
  assert (Hequal : (maxLoad loads - minLoad loads)%Z = 0%Z ->
                   forall x, In x loads -> x = minLoad loads).
  { intros H0 x Hx. specialize (Hmin x Hx). specialize (Hmax x Hx). lia. }
  split; [exact Hvar|]. split.
  { rewrite sqrt_Finite by exact HvarR.
    exists (R_sqrt.sqrt (Q2R variance)).
    split; [reflexivity|apply sqrt_pos]. }
  split.
  { split.
    - intros H0 x y Hx Hy.
      rewrite (Hequal H0 x Hx), (Hequal H0 y Hy). reflexivity.
    - intros Hall. rewrite (Hall _ _ Hmax_in Hmin_in). lia. }
  intros H0.
  assert (Hv0 : (variance == 0)%Q).
  { unfold variance.
    assert (Hmean : (mean == inject_Z (minLoad loads))%Q).
    { unfold mean. rewrite mean_of_loads.
      assert (Hb : forall y, In y (map inject_Z loads) ->
                (inject_Z (minLoad loads) <= y <= inject_Z (minLoad loads))%Q).
      { intros y Hy. apply in_map_iff in Hy as (z & <- & Hz).
        rewrite (Hequal H0 z Hz). split; apply Qle_refl. }
      destruct (average_bounds _ _ (map inject_Z loads)
                  ltac:(discriminate) Hb) as [H1 H2].
      apply Qle_antisym; assumption. }
    rewrite (sumSquaredDeviations_equal (minLoad loads) mean loads Hmean
               (Hequal H0)).
    unfold Qdiv. apply Qmult_0_l. }
  split; [exact Hv0|].
  rewrite sqrt_Finite by exact HvarR. f_equal.
  apply Qreals.Qeq_eqR in Hv0. rewrite Hv0.
  replace (Q2R 0) with 0%R by (unfold Q2R; simpl; lra).
  apply sqrt_0.
Qed.

Lemma load_stats_spread_witness :
  (0 <= stat_variance (calculateLoadStats [("a", 3%Z); ("b", 5%Z)]))%Q.
Proof.
  apply (load_stats_spread [("a", 3%Z); ("b", 5%Z)]). discriminate.
Defined.

End AssignmentStatsProofs.

Module AutoAssignmentMore.
Import Types AutoAssignment AutoAssignmentSpec AutoAssignmentSamples QFacts.
Import AutoAssignmentProofs.

Section Loops.
Variable scoreFn : CompatibilityScoreFn.
Variable options : AutoAssignmentOptions.
Variable averageLoad : Q.
Variable maxLoad : Z.

Local Abbreviation teacherStep := (teacherStep scoreFn options averageLoad maxLoad).
Local Abbreviation teachersLoop := (teachersLoop scoreFn options averageLoad maxLoad).
Local Abbreviation studentsLoop := (studentsLoop scoreFn options averageLoad maxLoad).

(** The retained score passed the threshold check and belongs to one
    of the teachers scanned. *)
Lemma teachersLoop_kept teacherLoads student (P : string -> CompatibilityScore -> Prop)
    teachers :
  (forall t, In t teachers ->
     forall sc, belowThreshold options sc = false -> P (tc_id t) sc) ->
  forall best,
    (forall id sc, bestTeacherId best = Some id -> bestScore best = Some sc ->
       P id sc) ->
    forall id sc,
      bestTeacherId (teachersLoop teacherLoads student teachers best) = Some id ->
      bestScore (teachersLoop teacherLoads student teachers best) = Some sc ->
      P id sc.
Proof.
  induction teachers as [|t rest IH]; intros HP best Hbest; simpl.
  - exact Hbest.
  - apply IH; [intros u Hu; apply HP; right; exact Hu|].
    unfold AutoAssignment.teacherStep.
    destruct (maxLoad <=? _)%Z; [exact Hbest|].
    destruct (belowThreshold options _) eqn:Hth; [exact Hbest|].
    destruct (improves best _); [|exact Hbest].
    simpl. intros id sc Hid Hsc. injection Hid as <-. injection Hsc as <-.
    apply (HP t (or_introl eq_refl)). exact Hth.
Qed.

Lemma studentsLoop_Forall teachers students : forall teacherLoads,
  Forall
    (fun a =>
       teacherId a <> "" /\
       (exists t, In t teachers /\ tc_id t = teacherId a) /\
       (exists s, In s students /\ sc_id s = studentId a) /\
       belowThreshold options (score a) = false)
    (snd (studentsLoop teachers students (teacherLoads, []))).
Proof.
  induction students as [|s rest IH]; intros teacherLoads.
  - simpl. constructor.
  - rewrite studentsLoop_cons.
    assert (Hrest : forall l,
      Forall
        (fun a =>
           teacherId a <> "" /\
           (exists t, In t teachers /\ tc_id t = teacherId a) /\
           (exists s0, In s0 (s :: rest) /\ sc_id s0 = studentId a) /\
           belowThreshold options (score a) = false)
        (snd (studentsLoop teachers rest (l, [])))).
    { intros l. eapply List.Forall_impl; [|apply IH].
      intros a (H1 & H2 & (s0 & Hs0 & Hid) & H4).
      split; [exact H1|]. split; [exact H2|]. split; [|exact H4].
      exists s0. split; [right; exact Hs0 | exact Hid]. }
    destruct (committed _) as [[id sc]|] eqn:Hc; [|apply Hrest].
    apply committed_id in Hc as (Hid & Hsc & Hne).
    simpl. constructor; [|apply Hrest]. simpl.
    split; [exact Hne|].
    assert (HP : (exists t, In t teachers /\ tc_id t = id) /\
                 belowThreshold options sc = false).
    { apply (teachersLoop_kept teacherLoads s
               (fun id sc => (exists t, In t teachers /\ tc_id t = id) /\
                             belowThreshold options sc = false)
               teachers) with (best := noBest) (id := id) (sc := sc).
      - intros t Ht sc0 Hth. split; [exists t; auto | exact Hth].
      - intros ? ? H. discriminate H.
      - exact Hid.
      - exact Hsc. }
    destruct HP as [Ht Hth].
    split; [exact Ht|]. split; [|exact Hth].
    exists s. split; [left; reflexivity | reflexivity].
Qed.
End Loops.

(** X5.  Every returned assignment pairs a student of the input with a
    teacher of the input whose id is not the empty string, and when a
    non-zero [minCompatibilityThreshold] is set its overall score is not
    below that threshold. *)
Theorem assignments_pair_inputs_above_threshold students teachers scoreFn
    options a :
  In a (generateAutoAssignment students teachers scoreFn options) ->
  teacherId a <> "" /\
  (exists t, In t teachers /\ tc_id t = teacherId a) /\
  (exists s, In s students /\ sc_id s = studentId a) /\
  forall threshold,
    minCompatibilityThreshold options = Some threshold ->
    ~ (threshold == 0)%Q -> (threshold <= overall (score a))%Q.
Proof.
  intros Hin.
  destruct (generateAutoAssignment_run students teachers scoreFn options)
    as [E | [_ E]]; rewrite E in Hin; [|destruct Hin].
  unfold run in Hin.
  pose proof (studentsLoop_Forall scoreFn options
                (averageLoadOf students teachers)
                (maxLoadOf options (averageLoadOf students teachers))
                teachers students (seedLoads teachers ∅)) as HF.
  rewrite Forall_forall in HF.
  destruct (HF a ltac:(apply list_elem_of_In; exact Hin))
    as (H1 & H2 & H3 & H4).
  split; [exact H1|]. split; [exact H2|]. split; [exact H3|].
  intros threshold Hth Hnz. unfold belowThreshold in H4. rewrite Hth in H4.
  apply andb_false_iff in H4 as [H4|H4].
  - apply negb_false_iff, Qeq_bool_iff in H4. contradiction.
  - apply Qlt_bool_false. exact H4.
Qed.

Lemma assignments_pair_inputs_above_threshold_witness :
  (50 <= overall (scoreOfValue 80))%Q.
Proof.
  destruct (assignments_pair_inputs_above_threshold
              [student "s1"] [teacher "a" 0] always80
              {| maxStudentsPerTeacher := None;
                 minCompatibilityThreshold := Some 50%Q |}
              {| studentId := "s1"; teacherId := "a";
                 score := scoreOfValue 80 |})
    as (_ & _ & _ & H).
  - left. reflexivity.
  - apply (H 50%Q); [reflexivity | discriminate].
Defined.

(** ** No backtracking *)

Lemma teachersLoop_average_ext scoreFn options a1 a2 maxLoad teacherLoads
    student teachers :
  (forall t s x y, scoreFn t s x = scoreFn t s y) ->
  forall best,
    teachersLoop scoreFn options a1 maxLoad teacherLoads student teachers best
    = teachersLoop scoreFn options a2 maxLoad teacherLoads student teachers best.
Proof.
  intros Hext. induction teachers as [|t rest IH]; intros best; simpl.
  - reflexivity.
  - unfold teacherStep. rewrite (Hext _ _ a1 a2). apply IH.
Qed.

Lemma studentsLoop_average_ext scoreFn options a1 a2 maxLoad teachers students :
  (forall t s x y, scoreFn t s x = scoreFn t s y) ->
  forall st,
    studentsLoop scoreFn options a1 maxLoad teachers students st
    = studentsLoop scoreFn options a2 maxLoad teachers students st.
Proof.
  intros Hext. induction students as [|s rest IH]; intros st; simpl.
  - reflexivity.
  - unfold studentStep. destruct st as [teacherLoads acc].
    rewrite (teachersLoop_average_ext scoreFn options a1 a2) by exact Hext.
    apply IH.
Qed.

(** X6.  With [maxStudentsPerTeacher] supplied and a scoring function that
    does not look at the average load, students added at the end of the
    input leave the assignments of the earlier students as they were: the
    result for the longer list starts with the result for the shorter. *)
Theorem earlier_assignments_are_kept students more teachers scoreFn options cap :
  maxStudentsPerTeacher options = Some cap ->
  (forall t s x y, scoreFn t s x = scoreFn t s y) ->
  exists later,
    generateAutoAssignment (students ++ more) teachers scoreFn options
    = generateAutoAssignment students teachers scoreFn options ++ later.
Proof.
  intros Hcap Hext.
  destruct teachers as [|t0 ts] eqn:Et.
  { exists []. reflexivity. }
  destruct students as [|s0 ss] eqn:Es.
  { eexists. reflexivity. }
  rewrite <- Et, <- Es.
  rewrite !generateAutoAssignment_nonempty
    by (subst; discriminate).
  unfold run, maxLoadOf. rewrite Hcap.
  rewrite studentsLoop_app.
  rewrite (studentsLoop_average_ext scoreFn options
             (averageLoadOf (students ++ more) teachers)
             (averageLoadOf students teachers) cap teachers students Hext).
  destruct (studentsLoop scoreFn options (averageLoadOf students teachers) cap
              teachers students (seedLoads teachers ∅, [])) as [l1 acc1].
  rewrite studentsLoop_acc. simpl. eexists. reflexivity.
Qed.

Lemma earlier_assignments_are_kept_witness :
  exists later,
    generateAutoAssignment ([student "s1"] ++ [student "s2"])
      [teacher "a" 0; teacher "b" 0] always80 (capOf 1)
    = generateAutoAssignment [student "s1"]
        [teacher "a" 0; teacher "b" 0] always80 (capOf 1) ++ later.
Proof.
  apply (earlier_assignments_are_kept [student "s1"] [student "s2"]
           [teacher "a" 0; teacher "b" 0] always80 (capOf 1) 1%Z).
  - reflexivity.
  - reflexivity.
Defined.

(** ** Enough room for everybody *)

Section Room.
Variable scoreFn : CompatibilityScoreFn.
Variable options : AutoAssignmentOptions.
Variable averageLoad : Q.
Variable maxLoad : Z.
Hypothesis no_threshold : minCompatibilityThreshold options = None.

Local Abbreviation teachersLoop := (teachersLoop scoreFn options averageLoad maxLoad).
Local Abbreviation studentsLoop := (studentsLoop scoreFn options averageLoad maxLoad).

(** Once a teacher is retained, one stays retained to the end. *)
Lemma teachersLoop_keeps teacherLoads student teachers : forall best,
  bestTeacherId best <> None -> bestScore best <> None ->
  bestTeacherId (teachersLoop teacherLoads student teachers best) <> None /\
  bestScore (teachersLoop teacherLoads student teachers best) <> None.
Proof.
  induction teachers as [|t rest IH]; intros best H1 H2; simpl; [auto|].
  apply IH; unfold teacherStep;
    destruct (maxLoad <=? _)%Z; try assumption;
    destruct (belowThreshold options _); try assumption;
    destruct (improves best _); try assumption; discriminate.
Qed.

(** A teacher below the cap makes the scan retain somebody. *)
Lemma teachersLoop_finds teacherLoads student teachers t :
  In t teachers -> (getLoad teacherLoads (tc_id t) < maxLoad)%Z ->
  forall best,
    (bestTeacherId best = None <-> bestScore best = None) ->
    bestTeacherId (teachersLoop teacherLoads student teachers best) <> None /\
    bestScore (teachersLoop teacherLoads student teachers best) <> None.
Proof.
  intros Hin Hroom.
  induction teachers as [|u rest IH]; intros best Hboth; [destruct Hin|].
  simpl. destruct Hin as [->|Hin].
  - assert (Hstep :
      bestTeacherId (teacherStep scoreFn options averageLoad maxLoad
                       teacherLoads student best t) <> None /\
      bestScore (teacherStep scoreFn options averageLoad maxLoad
                   teacherLoads student best t) <> None).
    { unfold teacherStep.
      destruct (Z.leb_spec maxLoad (getLoad teacherLoads (tc_id t))); [lia|].
      unfold belowThreshold. rewrite no_threshold.
      unfold improves. destruct (bestScore best) as [b|] eqn:Eb.
      - destruct (Qlt_bool _ _); simpl; [split; discriminate|].
        rewrite Eb. split; [|discriminate].
        intros Hn. apply Hboth in Hn. congruence.
      - simpl. split; discriminate. }
    destruct Hstep. apply teachersLoop_keeps; assumption.
  - apply IH; [exact Hin|].
    unfold teacherStep.
    destruct (maxLoad <=? _)%Z; [exact Hboth|].
    destruct (belowThreshold options _); [exact Hboth|].
    destruct (improves best _); [|exact Hboth].
    simpl. split; discriminate.
Qed.

(** While one teacher has room for all the students that remain, each
    of them is placed. *)
Lemma studentsLoop_places_all teachers t :
  (forall u, In u teachers -> tc_id u <> "") ->
  In t teachers ->
  forall students teacherLoads,
    (getLoad teacherLoads (tc_id t) + Z.of_nat (length students)
     <= maxLoad)%Z ->
    map studentId (snd (studentsLoop teachers students (teacherLoads, [])))
    = map sc_id students.
Proof.
  intros Hids Hin.
  induction students as [|s rest IH]; intros teacherLoads Hroom;
    [reflexivity|].
  rewrite studentsLoop_cons.
  assert (Hlt : (getLoad teacherLoads (tc_id t) < maxLoad)%Z)
    by (simpl length in Hroom; lia).
  destruct (teachersLoop_finds teacherLoads s teachers t Hin Hlt noBest)
    as [Hsome1 Hsome2]; [split; reflexivity|].
  destruct (committed _) as [[id sc]|] eqn:Hc.
  - simpl. f_equal. apply IH.
    unfold getLoad. rewrite lookup_insert.
    destruct (decide (id = tc_id t)) as [->|_].
    + simpl. fold (getLoad teacherLoads (tc_id t)).
      simpl length in Hroom. lia.
    + fold (getLoad teacherLoads (tc_id t)). simpl length in Hroom. lia.
  - exfalso. unfold committed in Hc.
    destruct (bestTeacherId _) as [id|] eqn:Eid; [|contradiction].
    destruct (bestScore _) as [sc|]; [|contradiction].
    destruct (decide (id = "")) as [->|]; [|discriminate].
    apply teachersLoop_id in Eid as [Eid|(u & Hu & Hid & _)];
      [discriminate|].
    exact (Hids u Hu Hid).
Qed.
End Room.

(** X7.  Without a minimum threshold, when the teachers' ids are
    pairwise distinct and none is the empty string, and some teacher's
    own starting load leaves room under the effective cap for all the
    students, every student is assigned: the result lists the students'
    ids in input order. *)
Theorem every_student_is_placed_when_a_teacher_has_room
    students teachers scoreFn options t :
  minCompatibilityThreshold options = None ->
  NoDup (map tc_id teachers) ->
  (forall u, In u teachers -> tc_id u <> "") ->
  In t teachers ->
  (tc_currentLoad t + Z.of_nat (length students)
   <= effectiveCap students teachers options)%Z ->
  map studentId (generateAutoAssignment students teachers scoreFn options)
  = map sc_id students.
Proof.
  intros Hth Hnd Hids Hin Hroom.
  pose proof (startingLoad_distinct teachers t Hnd Hin) as Hstart.
  destruct students as [|s0 ss] eqn:Es.
  { destruct teachers; reflexivity. }
  rewrite <- Es in *.
  rewrite generateAutoAssignment_nonempty;
    [|intros ->; destruct Hin|subst; discriminate].
  unfold run. rewrite maxLoadOf_effectiveCap.
  apply (studentsLoop_places_all scoreFn options _ _ Hth teachers t Hids Hin).
  unfold getLoad. unfold startingLoad in Hstart. rewrite Hstart. exact Hroom.
Qed.

Lemma every_student_is_placed_when_a_teacher_has_room_witness :
  map studentId
    (generateAutoAssignment [student "s1"; student "s2"; student "s3"]
       [teacher "a" 0; teacher "b" 1] always80 (capOf 3))
  = ["s1"; "s2"; "s3"].
Proof.
  apply (every_student_is_placed_when_a_teacher_has_room
           [student "s1"; student "s2"; student "s3"]
           [teacher "a" 0; teacher "b" 1] always80 (capOf 3)
           (teacher "a" 0)).
  - reflexivity.
  - apply NoDup_cons. split.
    + intros Hin. apply list_elem_of_singleton in Hin. discriminate.
    + apply NoDup_singleton.
  - intros u [<-|[<-|[]]]; discriminate.
  - left. reflexivity.
  - vm_compute. discriminate.
Defined.

End AutoAssignmentMore.

(* ================================================================== *)
(** * The stable sort *)
(* ================================================================== *)

Module JsArrayFacts.
Import JsArray.

Lemma filter_head_split {A} (p : A -> bool) (l : list A) h r :
  List.filter p l = h :: r ->
  exists before after,
    l = before ++ h :: after /\ Forall (fun x => p x = false) before /\
    p h = true.
Proof.
  induction l as [|x l IH]; simpl; [discriminate|].
  destruct (p x) eqn:Ep.
  - intros [= -> _]. exists [], l. repeat split; [constructor|exact Ep].
  - intros H. destruct (IH H) as (b & a & -> & Hb & Hh).
    exists (x :: b), a. repeat split; [constructor; assumption|exact Hh].
Qed.

Lemma StronglySorted_app_lt {A} (R : A -> A -> Prop) l1 l2 x y :
  StronglySorted R (l1 ++ l2) -> In x l1 -> In y l2 -> R x y.
Proof.
  induction l1 as [|a l1 IH]; simpl; [intros _ []|].
  intros Hs [->|Hx] Hy; apply StronglySorted_inv in Hs as [Hs Ha].
  - rewrite List.Forall_forall in Ha. apply Ha, in_or_app. right. exact Hy.
  - apply IH; assumption.
Qed.

Lemma StronglySorted_impl {A} (R R' : A -> A -> Prop) l :
  (forall a b, R a b -> R' a b) -> StronglySorted R l -> StronglySorted R' l.
Proof.
  intros Himpl. induction 1 as [|a l Hs IH Ha]; constructor; [exact IH|].
  eapply List.Forall_impl; [|exact Ha]. intros b. apply Himpl.
Qed.

Lemma StronglySorted_app_inv {A} (R : A -> A -> Prop) l1 l2 :
  StronglySorted R (l1 ++ l2) -> StronglySorted R l1 /\ StronglySorted R l2.
Proof.
  induction l1 as [|a l1 IH]; simpl; intros Hs.
  - split; [constructor|exact Hs].
  - apply StronglySorted_inv in Hs as [Hs Ha].
    destruct (IH Hs) as [H1 H2]. split; [|exact H2].
    constructor; [exact H1|].
    rewrite List.Forall_forall in *. intros x Hx. apply Ha, in_or_app.
    left. exact Hx.
Qed.

Lemma StronglySorted_snoc {A} (R : A -> A -> Prop) l a :
  StronglySorted R l -> Forall (fun x => R x a) l ->
  StronglySorted R (l ++ [a]).
Proof.
  induction 1 as [|b l Hs IH Hb]; intros Hall; simpl.
  - repeat constructor.
  - apply List.Forall_cons_iff in Hall as [Hba Hall].
    constructor; [apply IH; exact Hall|].
    rewrite List.Forall_forall in *. intros x Hx.
    apply in_app_or in Hx as [Hx|[<-|[]]]; [apply Hb; exact Hx|exact Hba].
Qed.

Lemma StronglySorted_rev {A} (R : A -> A -> Prop) l :
  StronglySorted R l -> StronglySorted (fun a b => R b a) (rev l).
Proof.
  induction 1 as [|a l Hs IH Ha]; simpl; [constructor|].
  apply StronglySorted_snoc; [exact IH|].
  rewrite List.Forall_forall in *. intros x Hx. apply Ha.
  apply in_rev. exact Hx.
Qed.

Section Sort.
Context {A : Type}.
Variable cmp : A -> A -> Q.

Lemma insertSorted_Permutation x l :
  Permutation (insertSorted cmp x l) (x :: l).
Proof.
  induction l as [|y l IH]; simpl; [reflexivity|].
  destruct (Qle_bool (cmp y x) 0); [|reflexivity].
  rewrite IH. apply perm_swap.
Qed.

Lemma sort_from_Permutation l : forall acc,
  Permutation (fold_left (fun sorted x => insertSorted cmp x sorted) l acc)
    (acc ++ l).
Proof.
  induction l as [|x l IH]; intros acc; simpl.
  - rewrite app_nil_r. reflexivity.
  - rewrite IH, insertSorted_Permutation.
    simpl. apply Permutation_middle.
Qed.

Lemma sort_Permutation l : Permutation (sort cmp l) l.
Proof. unfold sort. rewrite sort_from_Permutation. reflexivity. Qed.

Lemma sort_In l x : In x (sort cmp l) <-> In x l.
Proof.
  split; apply Permutation_in;
    [apply sort_Permutation|symmetry; apply sort_Permutation].
Qed.

Lemma sort_length l : length (sort cmp l) = length l.
Proof. apply Permutation_length, sort_Permutation. Qed.

(** A comparator that is the difference of a key sorts by that key. *)
Variable key : A -> Q.
Hypothesis cmp_key : forall a b, (cmp a b == key a - key b)%Q.

Lemma cmp_le a b : Qle_bool (cmp a b) 0 = true <-> (key a <= key b)%Q.
Proof.
  rewrite Qle_bool_iff, cmp_key. split; intros H.
  - apply Qplus_le_l with (z := (- key b)%Q).
    rewrite Qplus_opp_r. exact H.
  - apply Qplus_le_l with (z := (- key b)%Q) in H.
    rewrite Qplus_opp_r in H. exact H.
Qed.

Lemma insertSorted_sorted x l :
  StronglySorted (fun a b => (key a <= key b)%Q) l ->
  StronglySorted (fun a b => (key a <= key b)%Q) (insertSorted cmp x l).
Proof.
  induction l as [|y l IH]; intros Hs; simpl.
  - repeat constructor.
  - apply StronglySorted_inv in Hs as [Hs Hy].
    destruct (Qle_bool (cmp y x) 0) eqn:E.
    + apply cmp_le in E. constructor; [apply IH; exact Hs|].
      rewrite List.Forall_forall in *. intros z Hz.
      apply (Permutation_in _ (insertSorted_Permutation x l)) in Hz.
      destruct Hz as [<-|Hz]; [exact E|apply Hy; exact Hz].
    + assert (Hlt : (key x < key y)%Q).
      { apply Qnot_le_lt. intros H. apply cmp_le in H. congruence. }
      constructor; [constructor; assumption|].
      constructor; [apply Qlt_le_weak; exact Hlt|].
      rewrite List.Forall_forall in *. intros z Hz.
      apply Qle_trans with (key y); [apply Qlt_le_weak; exact Hlt|].
      apply Hy; exact Hz.
Qed.

Lemma sort_from_sorted l : forall acc,
  StronglySorted (fun a b => (key a <= key b)%Q) acc ->
  StronglySorted (fun a b => (key a <= key b)%Q)
    (fold_left (fun sorted x => insertSorted cmp x sorted) l acc).
Proof.
  induction l as [|x l IH]; intros acc Hs; simpl; [exact Hs|].
  apply IH, insertSorted_sorted, Hs.
Qed.

Lemma sort_sorted l :
  StronglySorted (fun a b => (key a <= key b)%Q) (sort cmp l).
Proof. apply sort_from_sorted. constructor. Qed.

(** Stability: the elements of one key keep their order. *)
Lemma insertSorted_stable v x l :
  StronglySorted (fun a b => (key a <= key b)%Q) l ->
  List.filter (fun a => Qeq_bool (key a) v) (insertSorted cmp x l)
  = List.filter (fun a => Qeq_bool (key a) v) (l ++ [x]).
Proof.
  induction l as [|y l IH]; intros Hs; simpl; [reflexivity|].
  apply StronglySorted_inv in Hs as [Hs Hy].
  destruct (Qle_bool (cmp y x) 0) eqn:E.
  - simpl. rewrite (IH Hs). reflexivity.
  - assert (Hlt : (key x < key y)%Q).
    { apply Qnot_le_lt. intros H. apply cmp_le in H. congruence. }
    simpl. rewrite List.filter_app. simpl.
    destruct (Qeq_bool (key x) v) eqn:Ex.
    + apply Qeq_bool_iff in Ex.
      assert (Hnone : forall z, In z (y :: l) -> Qeq_bool (key z) v = false).
      { intros z Hz. apply not_true_is_false. intros Hzv.
        apply Qeq_bool_iff in Hzv.
        assert (key y <= key z)%Q.
        { destruct Hz as [<-|Hz]; [apply Qle_refl|].
          rewrite List.Forall_forall in Hy. apply Hy; exact Hz. }
        rewrite Hzv, <- Ex in H.
        exact (Qlt_not_le _ _ Hlt H). }
      rewrite (Hnone y) by (left; reflexivity).
      assert (Hl : List.filter (fun a => Qeq_bool (key a) v) l = []).
      { clear -Hnone. induction l as [|z l IH]; [reflexivity|].
        simpl. rewrite (Hnone z) by (right; left; reflexivity).
        apply IH. intros w [<-|Hw]; apply Hnone;
          [left; reflexivity|right; right; exact Hw]. }
      rewrite Hl. reflexivity.
    + rewrite app_nil_r. reflexivity.
Qed.

Lemma sort_from_stable v l : forall acc,
  StronglySorted (fun a b => (key a <= key b)%Q) acc ->
  List.filter (fun a => Qeq_bool (key a) v)
    (fold_left (fun sorted x => insertSorted cmp x sorted) l acc)
  = List.filter (fun a => Qeq_bool (key a) v) (acc ++ l).
Proof.
  induction l as [|x l IH]; intros acc Hs; simpl.
  - rewrite app_nil_r. reflexivity.
  - rewrite IH by (apply insertSorted_sorted; exact Hs).
    rewrite List.filter_app, insertSorted_stable by exact Hs.
    rewrite <- List.filter_app, <- app_assoc. reflexivity.
Qed.

Lemma sort_stable v l :
  List.filter (fun a => Qeq_bool (key a) v) (sort cmp l)
  = List.filter (fun a => Qeq_bool (key a) v) l.
Proof. apply (sort_from_stable v l []). constructor. Qed.

(** The first element of the result is the first of the input among
    those of the least key. *)
Lemma sort_head l h rest :
  sort cmp l = h :: rest ->
  exists before after,
    l = before ++ h :: after /\
    Forall (fun x => (key h < key x)%Q) before /\
    Forall (fun x => (key h <= key x)%Q) after.
Proof.
  intros Hsort.
  pose proof (sort_sorted l) as Hs. rewrite Hsort in Hs.
  apply StronglySorted_inv in Hs as [_ Hh].
  assert (Hall : forall x, In x l -> (key h <= key x)%Q).
  { intros x Hx. apply sort_In in Hx. rewrite Hsort in Hx.
    destruct Hx as [<-|Hx]; [apply Qle_refl|].
    rewrite List.Forall_forall in Hh. apply Hh; exact Hx. }
  pose proof (sort_stable (key h) l) as Hst. rewrite Hsort in Hst.
  simpl in Hst.
  rewrite (proj2 (Qeq_bool_iff (key h) (key h)) (Qeq_refl _)) in Hst.
  symmetry in Hst. apply filter_head_split in Hst
    as (before & after & -> & Hb & _).
  exists before, after. split; [reflexivity|]. split.
  - rewrite List.Forall_forall in *. intros x Hx.
    destruct (Qle_lt_or_eq _ _ (Hall x (in_or_app _ _ _ (or_introl Hx))))
      as [Hc|Hc]; [exact Hc|].
    apply Hb in Hx. symmetry in Hc. apply Qeq_bool_iff in Hc. congruence.
  - rewrite List.Forall_forall. intros x Hx. apply Hall, in_or_app.
    right. right. exact Hx.
Qed.
End Sort.

End JsArrayFacts.

(* ================================================================== *)
(** * More on the composition analyzer *)
(* ================================================================== *)

Module TeamCompositionMore.
Import Types TeamComposition TeamCompositionSpec AnalysisSamples QFacts.
Import JsObjectFacts JsObjectTally TeamCompositionProofs RosterSpec.

(** ** Experience tiers *)

(** [experienceYears < k], on the milliseconds. *)
Lemma tenure_below (d k : Z) :
  Qlt_bool (inject_Z d / inject_Z msPerYear) (inject_Z k)
  = (d <? k * msPerYear)%Z.
Proof.
  destruct (Z.ltb_spec d (k * msPerYear)) as [H|H].
  - apply Qlt_bool_true. apply Qlt_shift_div_r; [reflexivity|].
    rewrite <- inject_Z_mult, <- Zlt_Qlt. exact H.
  - apply Qlt_bool_false. apply Qle_shift_div_l; [reflexivity|].
    rewrite <- inject_Z_mult, <- Zle_Qle. exact H.
Qed.

Lemma coverage_tiers now teachers : forall acc,
  let tenure t := (now - tt_createdAt t)%Z in
  let final := fold_left (coverageStep now) teachers acc in
  cov_junior final
  = (cov_junior acc
     + length (List.filter (fun t => (tenure t <? msPerYear)%Z) teachers))%nat /\
  cov_mid final
  = (cov_mid acc
     + length (List.filter
                 (fun t => (msPerYear <=? tenure t)%Z
                           && (tenure t <? 3 * msPerYear)%Z) teachers))%nat /\
  cov_senior final
  = (cov_senior acc
     + length (List.filter (fun t => (3 * msPerYear <=? tenure t)%Z)
                 teachers))%nat.
Proof.
  induction teachers as [|t rest IH]; intros acc; cbv zeta.
  - simpl. repeat split; lia.
  - cbn [fold_left List.filter].
    destruct (IH (coverageStep now acc t)) as (Hj & Hm & Hs).
    cbv zeta in Hj, Hm, Hs. rewrite Hj, Hm, Hs. clear IH Hj Hm Hs.
    unfold coverageStep.
    change 1%Q with (inject_Z 1). change 3%Q with (inject_Z 3).
    rewrite !tenure_below. rewrite Z.mul_1_l.
    destruct (Z.ltb_spec (now - tt_createdAt t) msPerYear) as [H1|H1];
      destruct (Z.ltb_spec (now - tt_createdAt t) (3 * msPerYear)) as [H3|H3];
      destruct (Z.leb_spec msPerYear (now - tt_createdAt t));
      destruct (Z.leb_spec (3 * msPerYear) (now - tt_createdAt t));
      try lia; cbn [cov_junior cov_mid cov_senior andb length];
      repeat split; try lia;
      unfold msPerYear in *; lia.
Qed.

(** X8.  The experience tiers partition the roster by the time between a
    teacher's [createdAt] and the clock reading, in milliseconds: junior
    below 365 days, mid from there to below 3 x 365 days, senior from
    there on; every teacher is in exactly one tier. *)
Theorem experience_tiers_partition_the_roster teachers clock reads :
  let levels :=
    experienceLevels (fst (analyzeExpertiseCoverage teachers clock reads)) in
  let tenure t := (clock reads - tt_createdAt t)%Z in
  junior levels
  = length (List.filter (fun t => (tenure t <? msPerYear)%Z) teachers) /\
  mid levels
  = length (List.filter
              (fun t => (msPerYear <=? tenure t)%Z
                        && (tenure t <? 3 * msPerYear)%Z) teachers) /\
  senior levels
  = length (List.filter (fun t => (3 * msPerYear <=? tenure t)%Z) teachers) /\
  (junior levels + mid levels + senior levels = length teachers)%nat.
Proof.
  cbv zeta.
  change (fst (analyzeExpertiseCoverage teachers clock reads))
    with (expertiseCoverageAt (clock reads) teachers).
  unfold expertiseCoverageAt.
  cbn [experienceLevels junior mid senior].
  destruct (coverage_tiers (clock reads) teachers
              {| cov_grades := []; cov_junior := 0; cov_mid := 0;
                 cov_senior := 0 |}) as (Hj & Hm & Hs).
  cbv zeta in Hj, Hm, Hs. rewrite Hj, Hm, Hs.
  cbn [cov_junior cov_mid cov_senior]. repeat split; try reflexivity.
  clear. induction teachers as [|t rest IH]; [reflexivity|].
  cbn [List.filter].
  destruct (Z.ltb_spec (clock reads - tt_createdAt t) msPerYear);
    destruct (Z.ltb_spec (clock reads - tt_createdAt t) (3 * msPerYear));
    destruct (Z.leb_spec msPerYear (clock reads - tt_createdAt t));
    destruct (Z.leb_spec (3 * msPerYear) (clock reads - tt_createdAt t));
    cbn [andb length]; try lia; unfold msPerYear in *; lia.
Qed.

(** ** Roles *)

Lemma roles_from teachers : forall acc,
  let count role :=
    length (List.filter (fun t => String.eqb (tt_role t) role) teachers) in
  let final := fold_left roleStep teachers acc in
  TEAM_LEADER final = (TEAM_LEADER acc + count "TEAM_LEADER")%nat /\
  MANAGER final = (MANAGER acc + count "MANAGER")%nat /\
  TEACHER final = (TEACHER acc + count "TEACHER")%nat.
Proof.
  induction teachers as [|t rest IH]; intros acc; cbv zeta.
  - simpl. repeat split; lia.
  - cbn [fold_left List.filter].
    destruct (IH (roleStep acc t)) as (Hl & Hm & Ht).
    cbv zeta in Hl, Hm, Ht. rewrite Hl, Hm, Ht. clear IH Hl Hm Ht.
    unfold roleStep.
    destruct (String.eqb_spec (tt_role t) "TEAM_LEADER") as [->|_];
      [cbn; repeat split; lia|].
    destruct (String.eqb_spec (tt_role t) "MANAGER") as [->|_];
      [cbn; repeat split; lia|].
    destruct (String.eqb_spec (tt_role t) "TEACHER") as [_|_];
      cbn; repeat split; lia.
Qed.

(** X9.  Each of the three role counters is the number of teachers with
    exactly that role string; a teacher with any other role is counted
    nowhere, so the three add up to at most the size of the roster. *)
Theorem role_counters_count_exact_roles teachers :
  let d := analyzeRoleDistribution teachers in
  let count role :=
    length (List.filter (fun t => String.eqb (tt_role t) role) teachers) in
  TEAM_LEADER d = count "TEAM_LEADER" /\
  MANAGER d = count "MANAGER" /\
  TEACHER d = count "TEACHER" /\
  (TEAM_LEADER d + MANAGER d + TEACHER d
   = length (List.filter
               (fun t => String.eqb (tt_role t) "TEAM_LEADER"
                         || String.eqb (tt_role t) "MANAGER"
                         || String.eqb (tt_role t) "TEACHER") teachers))%nat /\
  (TEAM_LEADER d + MANAGER d + TEACHER d <= length teachers)%nat.
Proof.
  cbv zeta. unfold analyzeRoleDistribution.
  destruct (roles_from teachers
              {| TEAM_LEADER := 0; MANAGER := 0; TEACHER := 0 |})
    as (Hl & Hm & Ht).
  cbv zeta in Hl, Hm, Ht. rewrite Hl, Hm, Ht.
  cbn [TEAM_LEADER MANAGER TEACHER].
  repeat split; try reflexivity.
  - clear. induction teachers as [|t rest IH]; [reflexivity|].
    cbn [List.filter].
    destruct (String.eqb_spec (tt_role t) "TEAM_LEADER") as [->|_];
      [cbn in *; lia|].
    destruct (String.eqb_spec (tt_role t) "MANAGER") as [->|_];
      [cbn in *; lia|].
    destruct (String.eqb_spec (tt_role t) "TEACHER") as [_|_];
      cbn in *; lia.
  - clear. induction teachers as [|t rest IH]; [simpl; lia|].
    cbn [List.filter].
    destruct (String.eqb_spec (tt_role t) "TEAM_LEADER") as [->|_];
      [cbn in *; lia|].
    destruct (String.eqb_spec (tt_role t) "MANAGER") as [->|_];
      [cbn in *; lia|].
    destruct (String.eqb_spec (tt_role t) "TEACHER") as [_|_];
      cbn in *; lia.
Qed.

(** ** Grade labels *)

Lemma gradeToLabel_inj g1 g2 : gradeToLabel g1 = gradeToLabel g2 -> g1 = g2.
Proof.
  unfold gradeToLabel.
  destruct (g1 <=? 3)%Z, (g2 <=? 3)%Z; cbn [String.append]; intros H.
  - injection H as H. apply pretty_Z_inj in H. exact H.
  - discriminate H.
  - discriminate H.
  - injection H as H. apply pretty_Z_inj in H. lia.
Qed.

(** X10.  [gradeToLabel] gives different labels to different grade
    numbers, and its label is one of the six fixed grades exactly for the
    numbers 1 to 6. *)
Theorem gradeToLabel_fixed_grades :
  (forall g1 g2, gradeToLabel g1 = gradeToLabel g2 -> g1 = g2) /\
  (forall g, In (gradeToLabel g) GRADES <-> (1 <= g <= 6)%Z).
Proof.
  split; [exact gradeToLabel_inj|].
  intros g. split.
  - change GRADES
      with [gradeToLabel 1; gradeToLabel 2; gradeToLabel 3;
            gradeToLabel 4; gradeToLabel 5; gradeToLabel 6].
    intros [H|[H|[H|[H|[H|[H|[]]]]]]]; apply gradeToLabel_inj in H; lia.
  - intros H.
    assert (Hg : (g = 1 \/ g = 2 \/ g = 3 \/ g = 4 \/ g = 5 \/ g = 6)%Z) by lia.
    destruct Hg as [-> | [-> | [-> | [-> | [-> | ->]]]]]; vm_compute; tauto.
Qed.

(** ** Grade tallies *)

Lemma fillDefaults_default keys : forall o k,
  default 0%nat (JsObject.get (fillDefaults keys o) k)
  = default 0%nat (JsObject.get o k).
Proof.
  unfold fillDefaults.
  induction keys as [|key rest IH]; intros o k; simpl; [reflexivity|].
  rewrite IH, get_set.
  destruct (String.eqb_spec key k) as [->|_]; reflexivity.
Qed.

Lemma set_default_total (o : JsObject.t nat) k :
  FairnessMetricsSpec.total
    (JsObject.values (JsObject.set o k (default 0%nat (JsObject.get o k))))
  = FairnessMetricsSpec.total (JsObject.values o).
Proof.
  unfold FairnessMetricsSpec.total, JsObject.values.
  induction o as [|[k' v'] rest IH]; simpl; [reflexivity|].
  destruct (String.eqb k' k); simpl; [reflexivity|].
  rewrite IH. reflexivity.
Qed.

Lemma fillDefaults_total keys : forall o,
  FairnessMetricsSpec.total (JsObject.values (fillDefaults keys o))
  = FairnessMetricsSpec.total (JsObject.values o).
Proof.
  unfold fillDefaults.
  induction keys as [|key rest IH]; intros o; simpl; [reflexivity|].
  rewrite IH. apply set_default_total.
Qed.

Lemma sumCounts_total counts :
  sumCounts counts = FairnessMetricsSpec.total counts.
Proof.
  unfold sumCounts, FairnessMetricsSpec.total.
  assert (H : forall n,
    fold_left Nat.add counts n = (n + fold_right Nat.add 0 counts)%nat).
  { induction counts as [|c rest IH]; intros n; simpl; [lia|].
    rewrite IH. lia. }
  apply H.
Qed.

Lemma occurrences_grade g teachers :
  occurrences (gradeToLabel g) teachers
  = length (List.filter (Z.eqb g) (gradeEntries teachers)).
Proof.
  unfold occurrences, gradeLabels, gradeEntries.
  induction teachers as [|t rest IH]; [reflexivity|].
  cbn [flat_map]. rewrite !List.filter_app, !length_app, IH. f_equal.
  clear. induction (default [] (tt_studentGrades t)) as [|x l IH];
    [reflexivity|].
  cbn [map List.filter].
  destruct (Z.eqb_spec g x) as [->|Hne].
  - rewrite String.eqb_refl. simpl. rewrite IH. reflexivity.
  - destruct (String.eqb_spec (gradeToLabel g) (gradeToLabel x)) as [E|_];
      [apply gradeToLabel_inj in E; contradiction|exact IH].
Qed.

(** X11.  The tally kept under the label of a grade number is the number
    of entries equal to that number across the teachers' [studentGrades]
    lists, for every integer grade; and the tallies of the [grades] record
    add up to the number of all those entries (not to the number of
    teachers). *)
Theorem grade_tallies_count_grade_numbers teachers clock reads :
  let cov := fst (analyzeExpertiseCoverage teachers clock reads) in
  (forall g,
     default 0%nat (JsObject.get (grades cov) (gradeToLabel g))
     = length (List.filter (Z.eqb g) (gradeEntries teachers))) /\
  sumCounts (JsObject.values (grades cov)) = length (gradeEntries teachers).
Proof.
  cbv zeta.
  change (fst (analyzeExpertiseCoverage teachers clock reads))
    with (expertiseCoverageAt (clock reads) teachers).
  unfold expertiseCoverageAt. cbn [grades].
  rewrite coverage_grades. cbn [cov_grades]. split.
  - intros g. rewrite fillDefaults_default, get_tally. simpl.
    apply occurrences_grade.
  - rewrite sumCounts_total, fillDefaults_total, tally_total. simpl.
    unfold gradeLabels, gradeEntries. clear.
    induction teachers as [|t rest IH]; [reflexivity|].
    cbn [flat_map]. rewrite !length_app, length_map, IH. reflexivity.
Qed.

(** ** The Shannon diversity outside the regular case *)

Import JsNumber JsNumberFacts RealTactics.

(** [Math.min(Math.max(x, 0), 100)] *)
Lemma clamp_0_100 x :
  min (max x (Finite 0)) (Finite 100) = NaN \/
  exists r, min (max x (Finite 0)) (Finite 100) = Finite r /\
            (0 <= r <= 100)%R.
Proof.
  destruct x as [a| | |].
  - right. rewrite max_Finite, min_Finite. eexists. split; [reflexivity|].
    apply clamp_range. lra.
  - right. exists 100%R. split; [reflexivity|lra].
  - right. exists 0%R. split; [|lra].
    cbn. destruct (Rlt_dec 100 0); [lra|reflexivity].
  - left. reflexivity.
Qed.

(** X12.  Whatever the counts and the total, numbers, infinities or NaN,
    [calculateShannonDiversity] returns NaN or a number from 0 to 100:
    never an infinity, never a number outside that range. *)
Theorem shannon_diversity_is_NaN_or_in_range counts total :
  calculateShannonDiversity counts total = NaN \/
  exists r, calculateShannonDiversity counts total = Finite r /\
            (0 <= r <= 100)%R.
Proof.
  unfold calculateShannonDiversity.
  destruct (isZero total).
  - right. exists 0%R. split; [reflexivity|lra].
  - apply clamp_0_100.
Qed.

(** A single category that does not hold the total: [Math.log(1)] is 0
    and the quotient is an infinity. *)
Lemma calculateShannonDiversity_one_category c total :
  (0 < c)%R -> (0 < total)%R -> c <> total ->
  calculateShannonDiversity [Finite c] (Finite total)
  = Finite (if Rlt_dec c total then 100 else 0).
Proof.
  intros Hc Ht Hne. unfold calculateShannonDiversity.
  rewrite (isZero_nonzero total) by lra.
  cbn [fold_left length]. unfold shannonStep.
  rewrite (isZero_nonzero c) by lra.
  rewrite (div_Finite c total) by lra.
  assert (Hp : (0 < c / total)%R) by (apply Rdiv_lt_0_compat; lra).
  rewrite log_Finite by exact Hp.
  unfold ofNat. cbn [INR]. rewrite log_Finite by lra. rewrite ln_1.
  cbn [mul add neg].
  destruct (Rlt_dec c total) as [Hlt|Hge].
  - assert (Hln : (ln (c / total) < 0)%R).
    { rewrite <- ln_1. apply ln_increasing; [exact Hp|].
      apply Rmult_lt_reg_r with total; [lra|].
      unfold Rdiv. rewrite Rmult_assoc, Rinv_l by lra. lra. }
    assert (Hs : (0 < - (0 + c / total * ln (c / total)))%R) by nra.
    unfold div.
    destruct (Req_dec_T 0 0) as [_|?]; [|lra].
    destruct (Req_dec_T _ 0) as [E|_]; [lra|].
    destruct (Rlt_dec 0 _) as [_|?]; [|lra].
    cbn [mul]. unfold scaleInf.
    destruct (Req_dec_T 100 0); [lra|].
    destruct (Rlt_dec 0 100); [|lra]. reflexivity.
  - assert (Hln : (0 < ln (c / total))%R).
    { rewrite <- ln_1. apply ln_increasing; [lra|].
      apply Rmult_lt_reg_r with total; [lra|].
      unfold Rdiv. rewrite Rmult_assoc, Rinv_l by lra. lra. }
    assert (Hs : (- (0 + c / total * ln (c / total)) < 0)%R) by nra.
    unfold div.
    destruct (Req_dec_T 0 0) as [_|?]; [|lra].
    destruct (Req_dec_T _ 0) as [E|_]; [lra|].
    destruct (Rlt_dec 0 _) as [?|_]; [lra|].
    cbn [mul]. unfold scaleInf.
    destruct (Req_dec_T 100 0); [lra|].
    destruct (Rlt_dec 0 100); [|lra].
    cbn. destruct (Rlt_dec 100 0); [lra|]. reflexivity.
Qed.



(** The sum over [n] equal counts. *)
Lemma shannon_sum_equal c total n : forall s,
  (0 < c)%R -> (0 < total)%R ->
  fold_left (shannonStep (Finite total)) (replicate n (Finite c)) (Finite s)
  = Finite (s + INR n * (c / total * ln (c / total))).
Proof.
  induction n as [|n IH]; intros s Hc Ht.
  - simpl. f_equal. lra.
  - cbn [replicate fold_left]. unfold shannonStep at 2.
    rewrite (isZero_nonzero c) by lra.
    rewrite (div_Finite c total) by lra.
    rewrite log_Finite by (apply Rdiv_lt_0_compat; lra).
    cbn [mul add]. rewrite IH by assumption. f_equal.
    rewrite S_INR. lra.
Qed.

(** In exact arithmetic, two or more categories of one and the same
    positive count that together make up the total have diversity 100. *)
Lemma calculateShannonDiversity_equal_counts n c :
  (2 <= n)%nat -> (0 < c)%R ->
  calculateShannonDiversity (replicate n (Finite c)) (Finite (INR n * c))
  = Finite 100.
Proof.
  intros Hn Hc.
  assert (Hk : (2 <= INR n)%R).
  { replace 2%R with (INR 2) by (simpl; lra). apply le_INR. exact Hn. }
  assert (Ht : (0 < INR n * c)%R) by nra.
  unfold calculateShannonDiversity.
  rewrite (isZero_nonzero (INR n * c)) by lra.
  rewrite shannon_sum_equal by assumption.
  rewrite length_replicate. unfold ofNat.
  rewrite log_Finite by lra.
  assert (Hln : (0 < ln (INR n))%R).
  { rewrite <- ln_1. apply ln_increasing; lra. }
  assert (Hp : (c / (INR n * c) = / INR n)%R) by (field; lra).
  rewrite Hp, ln_Rinv by lra.
  cbn [neg]. rewrite div_Finite by lra. cbn [mul].
  rewrite max_Finite, min_Finite. f_equal.
  assert (E : (- (0 + INR n * (/ INR n * - ln (INR n))) / ln (INR n) * 100
               = 100)%R) by (field; lra).
  rewrite E. minmax_cases.
Qed.

Lemma round_hundred : JsNumber.round (Finite 100) = Finite 100.
Proof.
  unfold JsNumber.round. f_equal. unfold Int_part.
  rewrite <- (tech_up (100 + / 2) 101); [reflexivity|simpl; lra|simpl; lra].
Qed.

(** X14.  The even distribution is reported as 100: for two or more
    categories of one and the same positive count that together make up
    the total, [Math.round] of the diversity, which is what
    [calculateDiversityScore] reports for a component, is 100. *)
Theorem even_distribution_is_reported_as_100 n c :
  (2 <= n)%nat -> (0 < c)%R ->
  JsNumber.round
    (calculateShannonDiversity (replicate n (Finite c)) (Finite (INR n * c)))
  = Finite 100.
Proof.
  intros Hn Hc. rewrite calculateShannonDiversity_equal_counts by assumption.
  apply round_hundred.
Qed.

Lemma even_distribution_is_reported_as_100_witness :
  JsNumber.round
    (calculateShannonDiversity (replicate 3 (Finite 7)) (Finite (INR 3 * 7)))
  = Finite 100.
Proof.
  apply (even_distribution_is_reported_as_100 3 7); [lia|lra].
Defined.

(** ** The recommendations *)

Import JsArrayFacts.

(** The ids of the rules that fire, in the order the sort leaves them. *)
Lemma sorted_rule_ids (c1 c2 c3 c4 c5 c6 : bool) :
  map rec_id
    (JsArray.sort
       (fun a b =>
          inject_Z (priorityOrder (rec_priority a)
                    - priorityOrder (rec_priority b)))
       (pushIf c6
          {| rec_id := "rec-6"; rec_type := balance; rec_priority := low |}
          (pushIf c5
             {| rec_id := "rec-5"; rec_type := diversity;
                rec_priority := medium |}
             (pushIf c4
                {| rec_id := "rec-4"; rec_type := coverage;
                   rec_priority := medium |}
                (pushIf c3
                   {| rec_id := "rec-3"; rec_type := coverage;
                      rec_priority := high |}
                   (pushIf c2
                      {| rec_id := "rec-2"; rec_type := balance;
                         rec_priority := medium |}
                      (pushIf c1
                         {| rec_id := "rec-1"; rec_type := diversity;
                            rec_priority := high |} [])))))))
  = (if c1 then ["rec-1"] else []) ++ (if c3 then ["rec-3"] else [])
    ++ (if c2 then ["rec-2"] else []) ++ (if c4 then ["rec-4"] else [])
    ++ (if c5 then ["rec-5"] else []) ++ (if c6 then ["rec-6"] else []).
Proof. destruct c1, c2, c3, c4, c5, c6; reflexivity. Qed.

Lemma getTeamRecommendations_ids composition diversityScore :
  map rec_id (getTeamRecommendations composition diversityScore)
  = (if String.eqb (ls_dominant (learningStyleDistribution composition))
          "Visual"
        && (100 - ls_visual (learningStyleDistribution composition) <? 40)%Z
     then ["rec-1"] else [])
    ++ (if (0 <? length (weakSubjects (expertiseCoverage composition)))%nat
        then ["rec-3"] else [])
    ++ (if (0 <? length (se_deficient (sajuElementsDistribution composition)))%nat
        then ["rec-2"] else [])
    ++ (if (0 <? length (weakGrades (expertiseCoverage composition)))%nat
        then ["rec-4"] else [])
    ++ (if JsNumber.lt (ds_overall diversityScore) (Finite 50)
        then ["rec-5"] else [])
    ++ (if JsNumber.ge (ds_overall diversityScore) (Finite 70)
        then ["rec-6"] else []).
Proof. unfold getTeamRecommendations. cbv zeta. apply sorted_rule_ids. Qed.

Lemma below_50_not_from_70 x :
  JsNumber.lt x (Finite 50) = true -> JsNumber.ge x (Finite 70) = false.
Proof.
  destruct x as [a| | |]; cbn; try discriminate; try reflexivity.
  destruct (Rlt_dec a 50); [|discriminate].
  destruct (Rlt_dec a 70); [reflexivity|lra].
Qed.

(** X15.  Whatever the composition and the scores, the recommendations
    come out as a selection from rec-1, rec-3, rec-2, rec-4, rec-5, rec-6
    in this order (the high priority rules, then the medium ones, then the
    low one; rules of one priority in the order they were tested), each at
    most once; and rec-5 and rec-6 are never issued together. *)
Theorem recommendations_are_ordered_by_priority composition diversityScore :
  let ids := map rec_id (getTeamRecommendations composition diversityScore) in
  sublist ids ["rec-1"; "rec-3"; "rec-2"; "rec-4"; "rec-5"; "rec-6"] /\
  ~ (In "rec-5" ids /\ In "rec-6" ids).
Proof.
  cbv zeta. rewrite getTeamRecommendations_ids.
  pose proof (below_50_not_from_70 (ds_overall diversityScore)) as Hx.
  destruct (JsNumber.lt (ds_overall diversityScore) (Finite 50)).
  - rewrite (Hx eq_refl). split.
    + destruct (_ && _), (0 <? _)%nat, (0 <? _)%nat, (0 <? _)%nat;
        cbn [app];
        repeat first [apply sublist_nil | apply sublist_skip
                     | apply sublist_cons].
    + intros [_ H].
      destruct (_ && _), (0 <? _)%nat, (0 <? _)%nat, (0 <? _)%nat;
        cbn in H; intuition discriminate.
  - split.
    + destruct (_ && _), (0 <? _)%nat, (0 <? _)%nat, (0 <? _)%nat,
        (JsNumber.ge _ _); cbn [app];
        repeat first [apply sublist_nil | apply sublist_skip
                     | apply sublist_cons].
    + intros [H _].
      destruct (_ && _), (0 <? _)%nat, (0 <? _)%nat, (0 <? _)%nat,
        (JsNumber.ge _ _); cbn in H; intuition discriminate.
Qed.

(** ** The analysis as a whole *)

(** The composition [analyzeTeamComposition] builds. *)
Lemma composition_fields team teachers clock :
  let c := composition (Clock.result (analyzeTeamComposition team teachers) clock) in
  teacherCount c = length teachers /\
  mbtiDistribution c = analyzeMBTIDistribution teachers /\
  learningStyleDistribution c = analyzeLearningStyleDistribution teachers /\
  sajuElementsDistribution c = analyzeSajuElementsDistribution teachers /\
  expertiseCoverage c = expertiseCoverageAt (clock 0%nat) teachers /\
  roleDistribution c = analyzeRoleDistribution teachers.
Proof. repeat split; reflexivity. Qed.

Lemma analysis_scores team teachers clock :
  let a := Clock.result (analyzeTeamComposition team teachers) clock in
  diversityScore a = calculateDiversityScore (composition a) /\
  recommendations a
  = getTeamRecommendations (composition a) (diversityScore a).
Proof. split; reflexivity. Qed.

Lemma round_zero : JsNumber.round (Finite 0) = Finite 0.
Proof.
  unfold JsNumber.round. f_equal. unfold Int_part.
  rewrite <- (tech_up (0 + / 2) 1); [reflexivity|simpl; lra|simpl; lra].
Qed.

(** X16.  The roster holds no subject datum: as soon as there is a
    teacher all five subjects are weak, and the subject coverage
    recommendation rec-3 is issued exactly when the roster is not empty. *)
Theorem subject_coverage_is_never_met team teachers clock :
  let a := Clock.result (analyzeTeamComposition team teachers) clock in
  weakSubjects (expertiseCoverage (composition a))
  = (if (length teachers =? 0)%nat then [] else SUBJECTS) /\
  (In "rec-3" (map rec_id (recommendations a)) <-> teachers <> []).
Proof.
  cbv zeta.
  destruct (analysis_scores team teachers clock) as [Hd Hr].
  destruct (composition_fields team teachers clock)
    as (_ & _ & _ & _ & Hcov & _).
  cbv zeta in Hd, Hr, Hcov. rewrite Hr, Hd.
  assert (Hweak :
    weakSubjects (expertiseCoverageAt (clock 0%nat) teachers)
    = if (length teachers =? 0)%nat then [] else SUBJECTS).
  { destruct teachers as [|t rest]; [reflexivity|].
    apply (every_subject_is_weak (t :: rest) clock 0%nat). discriminate. }
  split.
  - rewrite Hcov. exact Hweak.
  - rewrite getTeamRecommendations_ids, Hcov, Hweak.
    destruct teachers as [|t rest]; cbn [length Nat.eqb].
    + change (0 <? 0)%nat with false.
      split; [|intros H; contradiction].
      intros H. exfalso.
      repeat match type of H with
             | context [if ?c then _ else _] => destruct c
             end;
        cbn in H; intuition discriminate.
    + split; [discriminate|]. intros _.
      apply in_or_app. right. apply in_or_app. left. left. reflexivity.
Qed.

End TeamCompositionMore.

(* ================================================================== *)
(** * C2: what the coverage tallies *)
(* ================================================================== *)

Module CoverageProofs.
Import Types TeamComposition TeamCompositionSpec AnalysisSamples QFacts.
Import RosterSpec CoverageSpec TeamCompositionProofs TeamCompositionMore.






End CoverageProofs.

(* ================================================================== *)
(** * The type distribution *)
(* ================================================================== *)

Module TypeDistributionProofs.
Import Types TeamComposition TeamCompositionSpec AnalysisSamples QFacts.
Import JsObjectFacts JsObjectTally TeamCompositionProofs RosterSpec.
Import TeamCompositionMore JsArrayFacts.

(** The loop tallies the type codes. *)
Lemma mbtiLoop_typeCodes teachers : forall acc,
  tally_typeCounts (fold_left mbtiStep teachers acc)
  = fold_left JsObject.increment (typeCodes teachers) (tally_typeCounts acc).
Proof.
  induction teachers as [|t rest IH]; intros acc; [reflexivity|].
  cbn [fold_left]. rewrite IH. unfold typeCodes. cbn [flat_map].
  rewrite fold_left_app. f_equal.
  unfold mbtiStep. destruct (tt_mbtiType t) as [mbti|]; [|reflexivity].
  destruct (String.eqb mbti ""); reflexivity.
Qed.

Lemma typeCounts_typeCodes teachers :
  typeCounts (analyzeMBTIDistribution teachers)
  = fold_left JsObject.increment (typeCodes teachers) [].
Proof.
  unfold analyzeMBTIDistribution. cbv zeta. cbn [typeCounts].
  unfold mbtiLoop. rewrite mbtiLoop_typeCodes. reflexivity.
Qed.

Lemma keys_increment o k :
  JsObject.keys (JsObject.increment o k)
  = if existsb (String.eqb k) (JsObject.keys o) then JsObject.keys o
    else JsObject.keys o ++ [k].
Proof.
  unfold JsObject.keys.
  induction o as [|[k' v'] rest IH]; [reflexivity|].
  rewrite increment_cons. cbn [map fst existsb].
  rewrite (String.eqb_sym k k').
  destruct (String.eqb k' k); [reflexivity|].
  cbn [map fst orb]. rewrite IH.
  destruct (existsb _ _); reflexivity.
Qed.

Lemma keys_tally_NoDup l : forall o,
  NoDup (JsObject.keys o) ->
  NoDup (JsObject.keys (fold_left JsObject.increment l o)).
Proof.
  induction l as [|k l IH]; intros o Ho; [exact Ho|].
  cbn [fold_left]. apply IH. rewrite keys_increment.
  destruct (existsb _ _) eqn:E; [exact Ho|].
  apply NoDup_app. split; [exact Ho|]. split; [|apply NoDup_singleton].
  intros x Hx Hk. apply list_elem_of_singleton in Hk as ->.
  apply list_elem_of_In in Hx.
  assert (existsb (String.eqb k) (JsObject.keys o) = true); [|congruence].
  apply existsb_exists. exists k. split; [exact Hx|apply String.eqb_refl].
Qed.

Lemma keys_get {V} (o : JsObject.t V) k :
  In k (JsObject.keys o) <-> JsObject.get o k <> None.
Proof.
  unfold JsObject.keys.
  induction o as [|[k' v'] rest IH]; simpl; [tauto|].
  destruct (String.eqb_spec k' k) as [->|Hne].
  - split; [discriminate|auto].
  - rewrite <- IH. tauto.
Qed.

Lemma type_counts_keys_NoDup teachers :
  NoDup (JsObject.keys (typeCounts (analyzeMBTIDistribution teachers))).
Proof. rewrite typeCounts_typeCodes. apply keys_tally_NoDup. constructor. Qed.

(** X17.  When no type code of the roster is a property name that
    objects inherit (["__proto__"], ["constructor"], ["toString"], ...),
    the type counts tally the type codes as they are written: the entry
    of a code is the number of teachers with exactly that code, a code no
    teacher has has no entry, no code is listed twice, and the counts add
    up to the number of teachers that have a code. *)
Theorem type_counts_tally_the_type_codes teachers :
  (forall c, In c (typeCodes teachers) -> JsNames.ownKey c) ->
  let d := analyzeMBTIDistribution teachers in
  (forall mbti,
     JsObject.get (typeCounts d) mbti
     = if (typeCount mbti teachers =? 0)%nat then None
       else Some (typeCount mbti teachers)) /\
  NoDup (JsObject.keys (typeCounts d)) /\
  sumCounts (JsObject.values (typeCounts d)) = length (typeCodes teachers).
Proof.
  intros _. cbv zeta. split; [|split].
  - intros mbti. rewrite typeCounts_typeCodes. apply tally_get.
  - apply type_counts_keys_NoDup.
  - rewrite typeCounts_typeCodes, sumCounts_total, tally_total. reflexivity.
Qed.

Lemma type_counts_tally_the_type_codes_witness :
  JsObject.get
    (typeCounts
       (analyzeMBTIDistribution
          [member (Some "INTJ") []; member (Some "ENFP") [];
           member (Some "INTJ") []]))
    "INTJ"
  = Some 2%nat.
Proof.
  destruct (type_counts_tally_the_type_codes
              [member (Some "INTJ") []; member (Some "ENFP") [];
               member (Some "INTJ") []]) as [H _].
  - intros c [<-|[<-|[<-|[]]]] Hin; cbn in Hin;
      repeat (destruct Hin as [Hin|Hin]; [discriminate|]); exact Hin.
  - rewrite H. reflexivity.
Defined.

Lemma countOf_typeCount teachers mbti :
  countOf (typeCounts (analyzeMBTIDistribution teachers)) mbti
  = inject_Z (Z.of_nat (typeCount mbti teachers)).
Proof.
  unfold countOf. rewrite typeCounts_typeCodes, tally_get. cbv zeta.
  fold (typeCount mbti teachers).
  destruct (typeCount mbti teachers =? 0)%nat eqn:E; [|reflexivity].
  apply Nat.eqb_eq in E. rewrite E. reflexivity.
Qed.

Lemma typeCount_listed teachers mbti :
  In mbti (JsObject.keys (typeCounts (analyzeMBTIDistribution teachers)))
  <-> (1 <= typeCount mbti teachers)%nat.
Proof.
  rewrite keys_get, typeCounts_typeCodes, tally_get. cbv zeta.
  fold (typeCount mbti teachers).
  destruct (Nat.eqb_spec (typeCount mbti teachers) 0) as [E|E].
  - split; [intros H; contradiction|lia].
  - split; [lia|discriminate].
Qed.

(** The keys of the type counts, sorted as [analyzeMBTIDistribution]
    sorts them: by count, largest first. *)
Lemma sorted_types teachers :
  let tc := typeCounts (analyzeMBTIDistribution teachers) in
  let sorted :=
    JsArray.sort (fun a b => (countOf tc b - countOf tc a)%Q)
      (JsObject.keys tc) in
  mostCommon (analyzeMBTIDistribution teachers) = take 3 sorted /\
  rarest (analyzeMBTIDistribution teachers)
  = rev (drop (length sorted - 3) sorted) /\
  Permutation sorted (JsObject.keys tc) /\
  StronglySorted
    (fun a b => (typeCount b teachers <= typeCount a teachers)%nat) sorted.
Proof.
  cbv zeta. split; [reflexivity|]. split; [reflexivity|].
  split; [apply sort_Permutation|].
  eapply StronglySorted_impl;
    [|apply (sort_sorted _
               (fun a => (- countOf
                             (typeCounts (analyzeMBTIDistribution teachers))
                             a)%Q))].
  - intros a b. cbv beta. rewrite !countOf_typeCount.
    intros H. apply Qopp_le_compat in H. rewrite !Qopp_opp in H.
    rewrite <- Zle_Qle in H. lia.
  - intros a b. cbv beta. ring.
Qed.

(** X18.  When no type code of the roster is a property name that
    objects inherit, [mostCommon] lists the up to three type codes with
    the largest counts, largest first, and [rarest] the up to three with
    the smallest counts, smallest first: no code is listed twice, every
    listed code is the code of some teacher, and no code left out of
    [mostCommon] has a larger count than a listed one, no code of the
    roster left out of [rarest] a smaller one. *)
Theorem most_common_and_rarest_types teachers :
  (forall c, In c (typeCodes teachers) -> JsNames.ownKey c) ->
  let d := analyzeMBTIDistribution teachers in
  let count mbti := typeCount mbti teachers in
  let listed := length (JsObject.keys (typeCounts d)) in
  (length (mostCommon d) = Nat.min 3 listed /\
   NoDup (mostCommon d) /\
   StronglySorted (fun a b => (count b <= count a)%nat) (mostCommon d) /\
   forall m k, In m (mostCommon d) -> ~ In k (mostCommon d) ->
     (count k <= count m)%nat) /\
  (length (rarest d) = Nat.min 3 listed /\
   NoDup (rarest d) /\
   StronglySorted (fun a b => (count a <= count b)%nat) (rarest d) /\
   forall m k, In m (rarest d) -> ~ In k (rarest d) -> (1 <= count k)%nat ->
     (count m <= count k)%nat) /\
  (forall m, In m (mostCommon d) \/ In m (rarest d) -> (1 <= count m)%nat).
Proof.
  intros _. cbv zeta.
  destruct (sorted_types teachers) as (Hmost & Hrare & Hperm & Hsorted).
  cbv zeta in Hmost, Hrare, Hperm, Hsorted.
  set (tc := typeCounts (analyzeMBTIDistribution teachers)) in *.
  set (sorted := JsArray.sort _ _) in *.
  assert (Hnd : List.NoDup sorted).
  { apply (Permutation_NoDup (symmetry Hperm)). apply NoDup_ListNoDup.
    apply type_counts_keys_NoDup. }
  assert (Hlen : length sorted = length (JsObject.keys tc))
    by (apply Permutation_length; exact Hperm).
  assert (Hin : forall m, In m sorted <-> (1 <= typeCount m teachers)%nat).
  { intros m. rewrite <- typeCount_listed. fold tc.
    split; apply Permutation_in; [exact Hperm|symmetry; exact Hperm]. }
  rewrite Hmost, Hrare. clear Hmost Hrare.
  split; [|split].
  - pose proof (take_drop 3 sorted) as Hsplit.
    rewrite <- Hsplit in Hnd, Hsorted.
    split; [rewrite length_take, Hlen; reflexivity|].
    split; [apply NoDup_ListNoDup; apply NoDup_app_remove_r in Hnd; exact Hnd|].
    split; [apply StronglySorted_app_inv in Hsorted; tauto|].
    intros m k Hm Hk.
    destruct (Nat.eq_dec (typeCount k teachers) 0) as [->|Hpos]; [lia|].
    assert (Hks : In k sorted) by (apply Hin; lia).
    rewrite <- Hsplit in Hks. apply in_app_or in Hks as [Hks|Hks];
      [contradiction|].
    exact (StronglySorted_app_lt _ _ _ _ _ Hsorted Hm Hks).
  - pose proof (take_drop (length sorted - 3) sorted) as Hsplit.
    rewrite <- Hsplit in Hnd, Hsorted.
    split; [rewrite length_rev, length_drop, Hlen; lia|].
    split; [apply NoDup_ListNoDup, NoDup_rev;
            apply NoDup_app_remove_l in Hnd; exact Hnd|].
    split.
    { apply StronglySorted_app_inv in Hsorted as [_ Hs].
      apply StronglySorted_rev in Hs. exact Hs. }
    intros m k Hm Hk Hpos.
    apply in_rev in Hm.
    assert (Hks : In k sorted) by (apply Hin; exact Hpos).
    rewrite <- Hsplit in Hks. apply in_app_or in Hks as [Hks|Hks].
    + exact (StronglySorted_app_lt _ _ _ _ _ Hsorted Hks Hm).
    + exfalso. apply Hk. apply in_rev in Hks. exact Hks.
  - intros m [Hm|Hm]; apply Hin.
    + rewrite <- (take_drop 3 sorted). apply in_or_app. left. exact Hm.
    + apply in_rev in Hm.
      rewrite <- (take_drop (length sorted - 3) sorted).
      apply in_or_app. right. exact Hm.
Qed.

Lemma most_common_and_rarest_types_witness :
  let d :=
    analyzeMBTIDistribution
      [member (Some "INTJ") []; member (Some "ENFP") [];
       member (Some "INTJ") []] in
  length (mostCommon d) = Nat.min 3 (length (JsObject.keys (typeCounts d))) /\
  NoDup (mostCommon d).
Proof.
  cbv zeta.
  destruct (most_common_and_rarest_types
              [member (Some "INTJ") []; member (Some "ENFP") [];
               member (Some "INTJ") []]) as [(Hlen & Hnd & _) _].
  - intros c [<-|[<-|[<-|[]]]] Hin; cbn in Hin;
      repeat (destruct Hin as [Hin|Hin]; [discriminate|]); exact Hin.
  - split; assumption.
Defined.

(** ** One shared type *)

Import JsNumber JsNumberFacts.

Lemma tally_one_code mbti n : forall k,
  fold_left JsObject.increment (replicate n mbti) [(mbti, k)]
  = [(mbti, (k + n)%nat)].
Proof.
  induction n as [|n IH]; intros k; simpl.
  - rewrite Nat.add_0_r. reflexivity.
  - rewrite increment_cons, String.eqb_refl, IH. do 2 f_equal. lia.
Qed.

Lemma typeCodes_shared teachers mbti :
  (forall c, In c (typeCodes teachers) -> c = mbti) ->
  typeCodes teachers = replicate (length (typeCodes teachers)) mbti.
Proof.
  induction (typeCodes teachers) as [|c l IH]; intros H; [reflexivity|].
  simpl. rewrite (H c) by (left; reflexivity). f_equal.
  apply IH. intros x Hx. apply H. right. exact Hx.
Qed.

Lemma typeCounts_shared teachers mbti :
  typeCodes teachers <> [] ->
  (forall c, In c (typeCodes teachers) -> c = mbti) ->
  JsObject.values (typeCounts (analyzeMBTIDistribution teachers))
  = [length (typeCodes teachers)].
Proof.
  intros Hne Hall. rewrite typeCounts_typeCodes.
  rewrite (typeCodes_shared teachers mbti Hall).
  rewrite length_replicate.
  destruct (length (typeCodes teachers)) as [|n] eqn:El.
  - destruct (typeCodes teachers); [contradiction|discriminate].
  - cbn [replicate fold_left]. unfold JsObject.increment at 2.
    cbn [JsObject.get JsObject.set default].
    rewrite tally_one_code. reflexivity.
Qed.

Lemma mbtiDiversity_of c :
  mbtiDiversity (calculateDiversityScore c)
  = JsNumber.round
      (calculateShannonDiversity
         (map ofNat (JsObject.values (typeCounts (mbtiDistribution c))))
         (ofNat (teacherCount c))).
Proof. reflexivity. Qed.

Lemma overall_NaN c :
  calculateShannonDiversity
    (map ofNat (JsObject.values (typeCounts (mbtiDistribution c))))
    (ofNat (teacherCount c)) = NaN ->
  ds_overall (calculateDiversityScore c) = NaN.
Proof.
  intros H. unfold calculateDiversityScore. cbv zeta. cbn [ds_overall].
  rewrite H. reflexivity.
Qed.

(** X19.  A roster whose type codes are all the same code, which is not
    a property name that objects inherit.  When every teacher has the
    code, the MBTI diversity and the overall score are NaN, and neither
    rec-5 (overall below 50) nor rec-6 (overall from 70) is issued; when
    some teacher has no code, the MBTI diversity is 100. *)
Theorem one_shared_type_code team teachers clock mbti :
  JsNames.ownKey mbti ->
  typeCodes teachers <> [] ->
  (forall c, In c (typeCodes teachers) -> c = mbti) ->
  let a := Clock.result (analyzeTeamComposition team teachers) clock in
  let typed := length (typeCodes teachers) in
  (typed = length teachers ->
     mbtiDiversity (diversityScore a) = NaN /\
     ds_overall (diversityScore a) = NaN /\
     ~ In "rec-5" (map rec_id (recommendations a)) /\
     ~ In "rec-6" (map rec_id (recommendations a))) /\
  ((typed < length teachers)%nat ->
     mbtiDiversity (diversityScore a) = Finite 100).
Proof.
  intros _ Hne Hall. cbv zeta.
  destruct (analysis_scores team teachers clock) as [Hd Hr].
  destruct (composition_fields team teachers clock)
    as (Hcount & Hmbti & _).
  cbv zeta in Hd, Hr, Hcount, Hmbti.
  assert (Hpos : (0 < INR (length (typeCodes teachers)))%R).
  { apply lt_0_INR. destruct (typeCodes teachers); [contradiction|].
    simpl. lia. }
  assert (Hshannon :
    calculateShannonDiversity
      (map ofNat
         (JsObject.values
            (typeCounts
               (mbtiDistribution
                  (composition
                     (Clock.result (analyzeTeamComposition team teachers)
                        clock))))))
      (ofNat
         (teacherCount
            (composition
               (Clock.result (analyzeTeamComposition team teachers) clock))))
    = calculateShannonDiversity [Finite (INR (length (typeCodes teachers)))]
        (Finite (INR (length teachers)))).
  { rewrite Hmbti, Hcount, (typeCounts_shared teachers mbti Hne Hall).
    reflexivity. }
  split.
  - intros Htyped. rewrite <- Htyped in Hshannon.
    rewrite calculateShannonDiversity_single in Hshannon by lra.
    rewrite Hr, Hd, mbtiDiversity_of, Hshannon.
    split; [reflexivity|].
    rewrite getTeamRecommendations_ids, (overall_NaN _ Hshannon).
    split; [reflexivity|].
    cbn [JsNumber.lt JsNumber.ge].
    split; intros H;
      repeat match type of H with
             | context [if ?c then _ else _] => destruct c
             end;
      cbn in H; intuition discriminate.
  - intros Htyped. apply lt_INR in Htyped.
    rewrite calculateShannonDiversity_one_category in Hshannon by lra.
    destruct (Rlt_dec _ _) as [_|?]; [|lra].
    rewrite Hd, mbtiDiversity_of, Hshannon. apply round_hundred.
Qed.

Lemma one_shared_type_code_witness :
  let a :=
    Clock.result
      (analyzeTeamComposition "team-1"
         [member (Some "INTJ") []; member (Some "INTJ") []])
      (clockAt 0) in
  mbtiDiversity (diversityScore a) = NaN /\
  ds_overall (diversityScore a) = NaN.
Proof.
  destruct (one_shared_type_code "team-1"
              [member (Some "INTJ") []; member (Some "INTJ") []]
              (clockAt 0) "INTJ") as [H _].
  - intros Hin. cbn in Hin.
    repeat (destruct Hin as [Hin|Hin]; [discriminate|]). exact Hin.
  - discriminate.
  - intros c [<-|[<-|[]]]; reflexivity.
  - destruct (H eq_refl) as (H1 & H2 & _). split; assumption.
Defined.

End TypeDistributionProofs.

(* ================================================================== *)
(** * Dominant learning style and dominant element *)
(* ================================================================== *)

Module DominantProofs.
Import Types TeamComposition TeamCompositionSpec AnalysisSamples QFacts.
Import RosterSpec RosterSamples JsArrayFacts.

(** ** Learning styles *)

Lemma styleStep_count teachers : forall acc,
  sum_count (fold_left styleStep teachers acc)
  = (sum_count acc
     + length (List.filter
                 (fun t => match tt_mbtiPercentages t with
                           | Some _ => true
                           | None => false
                           end) teachers))%nat.
Proof.
  induction teachers as [|t rest IH]; intros acc; simpl; [lia|].
  rewrite IH. unfold styleStep.
  destruct (tt_mbtiPercentages t); simpl; lia.
Qed.

Lemma style_order (x y : string * Z) :
  (inject_Z (snd y - snd x)
   == - inject_Z (snd x) - (- inject_Z (snd y)))%Q.
Proof.
  unfold Z.sub. rewrite inject_Z_plus, inject_Z_opp. ring.
Qed.

(** X20.  Without any teacher that has percentages the learning style
    distribution is all 0 with the dominant style "-".  Otherwise the
    dominant style is, among Visual, Auditory, Reading and Kinesthetic in
    this order, the first one whose rounded average is the largest. *)
Theorem dominant_learning_style teachers :
  let d := analyzeLearningStyleDistribution teachers in
  (Forall (fun t => tt_mbtiPercentages t = None) teachers ->
   d = {| ls_visual := 0; ls_auditory := 0; ls_reading := 0;
          ls_kinesthetic := 0; ls_dominant := "-" |}) /\
  (Exists (fun t => tt_mbtiPercentages t <> None) teachers ->
   exists before value after,
     [("Visual", ls_visual d); ("Auditory", ls_auditory d);
      ("Reading", ls_reading d); ("Kinesthetic", ls_kinesthetic d)]
     = before ++ (ls_dominant d, value) :: after /\
     Forall (fun style => (snd style < value)%Z) before /\
     Forall (fun style => (snd style <= value)%Z) after).
Proof.
  cbv zeta. unfold analyzeLearningStyleDistribution. cbv zeta.
  rewrite styleStep_count. cbn [sum_count Nat.add].
  split.
  - intros Hnone.
    assert (E : List.filter
                  (fun t => match tt_mbtiPercentages t with
                            | Some _ => true
                            | None => false
                            end) teachers = []).
    { induction Hnone as [|t rest Ht _ IH]; [reflexivity|].
      simpl. rewrite Ht. exact IH. }
    rewrite E. reflexivity.
  - intros Hsome.
    assert (E : (length (List.filter
                  (fun t => match tt_mbtiPercentages t with
                            | Some _ => true
                            | None => false
                            end) teachers) =? 0)%nat = false).
    { apply Nat.eqb_neq.
      induction Hsome as [t rest Ht|t rest _ IH]; simpl.
      - destruct (tt_mbtiPercentages t); [discriminate|contradiction].
      - destruct (tt_mbtiPercentages t); [discriminate|exact IH]. }
    rewrite E. cbn [ls_visual ls_auditory ls_reading ls_kinesthetic ls_dominant].
    match goal with
    | |- context [JsArray.sort ?cmp ?l] =>
        set (styles := l);
        pose proof (sort_length cmp styles) as Hlen;
        destruct (JsArray.sort cmp styles) as [|h rest] eqn:Hsorted
    end.
    { discriminate Hlen. }
    destruct (sort_head _ (fun x : string * Z => (- inject_Z (snd x))%Q)
                style_order styles h rest Hsorted)
      as (before & after & Hsplit & Hb & Ha).
    exists before, (snd h), after. split; [|split].
    + rewrite Hsplit. destruct h. reflexivity.
    + eapply List.Forall_impl; [|exact Hb]. intros x Hx. cbv beta in Hx.
      apply Qopp_lt_compat in Hx. rewrite !Qopp_opp in Hx.
      rewrite <- Zlt_Qlt in Hx. exact Hx.
    + eapply List.Forall_impl; [|exact Ha]. intros x Hx. cbv beta in Hx.
      apply Qopp_le_compat in Hx. rewrite !Qopp_opp in Hx.
      rewrite <- Zle_Qle in Hx. exact Hx.
Qed.

Lemma dominant_learning_style_witness :
  let d :=
    analyzeLearningStyleDistribution
      [styled 20 40 40 0; styled 30 40 30 0] in
  exists before value after,
    [("Visual", ls_visual d); ("Auditory", ls_auditory d);
     ("Reading", ls_reading d); ("Kinesthetic", ls_kinesthetic d)]
    = before ++ (ls_dominant d, value) :: after /\
    Forall (fun style => (snd style < value)%Z) before /\
    Forall (fun style => (snd style <= value)%Z) after.
Proof.
  apply (proj2 (dominant_learning_style
                  [styled 20 40 40 0; styled 30 40 30 0])).
  left. discriminate.
Defined.

(** ** The five elements *)

Lemma addIfTruthy_nonneg count v :
  (0 <= count)%Q -> (forall x, v = Some x -> (0 <= x)%Q) ->
  (0 <= addIfTruthy count v)%Q.
Proof.
  intros Hc Hv. unfold addIfTruthy. destruct v as [x|]; [|exact Hc].
  destruct (Qeq_bool x 0); [exact Hc|].
  apply Qle_trans with (0 + 0)%Q; [apply Qle_refl|].
  apply Qplus_le_compat; [exact Hc|apply Hv; reflexivity].
Qed.

Lemma sajuStep_nonneg teachers : forall acc,
  Forall nonNegativeElements teachers ->
  (0 <= ec_wood acc /\ 0 <= ec_fire acc /\ 0 <= ec_earth acc /\
   0 <= ec_metal acc /\ 0 <= ec_water acc)%Q ->
  let final := fold_left sajuStep teachers acc in
  (0 <= ec_wood final /\ 0 <= ec_fire final /\ 0 <= ec_earth final /\
   0 <= ec_metal final /\ 0 <= ec_water final)%Q.
Proof.
  induction teachers as [|t rest IH]; intros acc Hall Hacc; [exact Hacc|].
  apply List.Forall_cons_iff in Hall as [Ht Hall].
  cbn [fold_left]. apply IH; [exact Hall|].
  unfold sajuStep.
  destruct (tt_sajuResult t) as [result|] eqn:Er; [|exact Hacc].
  destruct (fiveElements result) as [elements|] eqn:Ee; [|exact Hacc].
  destruct Hacc as (H1 & H2 & H3 & H4 & H5).
  cbn [ec_wood ec_fire ec_earth ec_metal ec_water].
  repeat split; apply addIfTruthy_nonneg; try assumption;
    intros x Hx; exact (Ht result elements _ x Er Ee Hx).
Qed.

Lemma roundQ_le x y : (x <= y)%Q -> (JsArray.roundQ x <= JsArray.roundQ y)%Z.
Proof.
  intros H. unfold JsArray.roundQ. apply Qfloor_resp_le.
  apply Qplus_le_compat; [exact H|apply Qle_refl].
Qed.

Lemma percent_le total x y :
  (0 < total)%Q -> (x <= y)%Q ->
  (JsArray.roundQ (x / total * 100) <= JsArray.roundQ (y / total * 100))%Z.
Proof.
  intros Ht H. apply roundQ_le.
  apply Qmult_le_compat_r; [|discriminate].
  apply Qmult_le_compat_r; [exact H|].
  apply Qlt_le_weak, Qinv_lt_0_compat. exact Ht.
Qed.

Lemma element_order (x y : string * Q) :
  (snd y - snd x == - snd x - (- snd y))%Q.
Proof. ring. Qed.

(** X21.  When no teacher has a negative element value: the dominant
    element is never listed as deficient; and unless all the counts are
    zero (dominant "-", nothing deficient) it is one of the five elements
    and no element has a larger percentage. *)
Theorem dominant_element_is_not_deficient teachers :
  Forall nonNegativeElements teachers ->
  let d := analyzeSajuElementsDistribution teachers in
  ~ In (se_dominant d) (se_deficient d) /\
  ((se_dominant d = "-" /\ se_deficient d = []) \/
   exists value,
     In (se_dominant d, value)
       [("목", se_wood d); ("화", se_fire d); ("토", se_earth d);
        ("금", se_metal d); ("수", se_water d)] /\
     (se_wood d <= value /\ se_fire d <= value /\ se_earth d <= value /\
      se_metal d <= value /\ se_water d <= value)%Z).
Proof.
  intros Hall. cbv zeta. unfold analyzeSajuElementsDistribution. cbv zeta.
  destruct (sajuStep_nonneg teachers
              {| ec_wood := 0; ec_fire := 0; ec_earth := 0; ec_metal := 0;
                 ec_water := 0 |} Hall)
    as (Hw & Hf & He & Hm & Hwa);
    [cbn; repeat split; apply Qle_refl|].
  cbv zeta in Hw, Hf, He, Hm, Hwa.
  set (counts := fold_left sajuStep teachers _) in *.
  set (total := (ec_wood counts + ec_fire counts + ec_earth counts
                 + ec_metal counts + ec_water counts)%Q).
  destruct (Qeq_bool total 0) eqn:Ezero.
  { cbn. split; [tauto|]. left. split; reflexivity. }
  assert (Hpos : (0 < total)%Q).
  { assert (Hge : (0 <= total)%Q).
    { unfold total.
      repeat (apply Qle_trans with (0 + 0)%Q;
              [apply Qle_refl|apply Qplus_le_compat]); assumption. }
    destruct (Qle_lt_or_eq _ _ Hge) as [Hlt|Heq]; [exact Hlt|].
    symmetry in Heq. apply Qeq_bool_iff in Heq. congruence. }
  cbn [se_wood se_fire se_earth se_metal se_water se_dominant se_deficient].
  match goal with
  | |- context [JsArray.sort ?cmp ?l] =>
      set (elements := l);
      pose proof (sort_length cmp elements) as Hlen;
      pose proof (sort_Permutation cmp elements) as Hperm;
      destruct (JsArray.sort cmp elements) as [|h rest] eqn:Hsorted
  end.
  { discriminate Hlen. }
  destruct (sort_head _ (fun x : string * Q => (- snd x)%Q)
              element_order elements h rest Hsorted)
    as (before & after & Hsplit & Hb & Ha).
  assert (Hmax : forall x, In x elements -> (snd x <= snd h)%Q).
  { intros x Hx. rewrite Hsplit in Hx.
    rewrite List.Forall_forall in Hb, Ha.
    apply in_app_or in Hx as [Hx|[<-|Hx]].
    - apply Hb in Hx. cbv beta in Hx. apply Qlt_le_weak.
      apply Qopp_lt_compat in Hx. rewrite !Qopp_opp in Hx. exact Hx.
    - apply Qle_refl.
    - apply Ha in Hx. cbv beta in Hx.
      apply Qopp_le_compat in Hx. rewrite !Qopp_opp in Hx. exact Hx. }
  assert (Hin : In h elements).
  { rewrite Hsplit. apply in_or_app. right. left. reflexivity. }
  split.
  - cbn [List.filter].
    assert (Hkeep : Qlt_bool (snd h) (total / 5 * 0.7) = false).
    { apply Qlt_bool_false.
      assert (H5 : (total <= 5 * snd h)%Q).
      { pose proof (Hmax ("목", ec_wood counts)) as M1.
        pose proof (Hmax ("화", ec_fire counts)) as M2.
        pose proof (Hmax ("토", ec_earth counts)) as M3.
        pose proof (Hmax ("금", ec_metal counts)) as M4.
        pose proof (Hmax ("수", ec_water counts)) as M5.
        cbn [snd] in M1, M2, M3, M4, M5.
        specialize (M1 (or_introl eq_refl)).
        specialize (M2 (or_intror (or_introl eq_refl))).
        specialize (M3 (or_intror (or_intror (or_introl eq_refl)))).
        specialize (M4 (or_intror (or_intror (or_intror (or_introl eq_refl))))).
        specialize (M5 (or_intror (or_intror (or_intror
                          (or_intror (or_introl eq_refl)))))).
        unfold total.
        assert (E : (5 * snd h == snd h + snd h + snd h + snd h + snd h)%Q)
          by ring.
        rewrite E.
        repeat apply Qplus_le_compat; assumption. }
      apply Qle_trans with (total / 5)%Q.
      - assert (E : (total / 5 * 0.7 == total * (7 # 50))%Q) by (field).
        assert (E' : (total / 5 == total * (1 # 5))%Q) by (field).
        rewrite E, E'. rewrite !(Qmult_comm total).
        apply Qmult_le_compat_r; [discriminate|apply Qlt_le_weak; exact Hpos].
      - apply Qle_shift_div_r; [reflexivity|].
        rewrite Qmult_comm. exact H5. }
    rewrite Hkeep. intros Hdef.
    apply in_map_iff in Hdef as (x & Hname & Hx).
    apply List.filter_In in Hx as [Hx _].
    assert (Hnd : List.NoDup (map fst (h :: rest))).
    { apply (Permutation_NoDup
               (Permutation_map fst (Permutation_sym Hperm))).
      cbn. repeat constructor; cbn; intuition discriminate. }
    cbn [map] in Hnd. apply List.NoDup_cons_iff in Hnd as [Hfresh _].
    apply Hfresh. rewrite <- Hname. apply in_map. exact Hx.
  - right. exists (JsArray.roundQ (snd h / total * 100)). split.
    + assert (Hmap : forall x, In x elements ->
        In (fst x, JsArray.roundQ (snd x / total * 100))
          (map (fun x : string * Q =>
                  (fst x, JsArray.roundQ (snd x / total * 100))) elements)).
      { intros x Hx.
        apply (in_map (fun x : string * Q =>
                         (fst x, JsArray.roundQ (snd x / total * 100)))).
        exact Hx. }
      exact (Hmap h Hin).
    + repeat split; apply percent_le; try exact Hpos.
      * apply (Hmax ("목", ec_wood counts)). cbn. tauto.
      * apply (Hmax ("화", ec_fire counts)). cbn. tauto.
      * apply (Hmax ("토", ec_earth counts)). cbn. tauto.
      * apply (Hmax ("금", ec_metal counts)). cbn. tauto.
      * apply (Hmax ("수", ec_water counts)). cbn. tauto.
Qed.

Lemma dominant_element_is_not_deficient_witness :
  let d := analyzeSajuElementsDistribution [withElements 3 1 1 1 0] in
  ~ In (se_dominant d) (se_deficient d).
Proof.
  apply (dominant_element_is_not_deficient [withElements 3 1 1 1 0]).
  constructor; [|constructor].
  intros result elements key value [= <-] [= <-] Hvalue.
  repeat (apply lookup_insert_Some in Hvalue as [[_ <-]|[_ Hvalue]];
          [discriminate|]).
  rewrite lookup_empty in Hvalue. discriminate.
Defined.

End DominantProofs.

(* ================================================================== *)
(** * More on the fairness auditor *)
(* ================================================================== *)

Module FairnessMetricsMore.
Import FairnessMetrics FairnessMetricsSpec AnalysisSamples QFacts QListFacts.
Import JsObjectFacts FairnessMetricsProofs.

(** ** The histogram of [calculateABROCA] *)

Lemma total_alter_S (h : list nat) i :
  (i < length h)%nat -> total (alter S i h) = S (total h).
Proof.
  unfold total, alter. revert i.
  induction h as [|c h IH]; intros i Hi; simpl in Hi; [lia|].
  destruct i as [|i]; simpl; [reflexivity|].
  rewrite IH by lia. lia.
Qed.

Lemma histogramStep_total bins binSize h score :
  length h = bins -> (0 < bins)%nat ->
  length (histogramStep bins binSize h score) = bins /\
  (total (histogramStep bins binSize h score) <= S (total h))%nat.
Proof.
  intros Hlen Hbins. unfold histogramStep.
  destruct (Z.ltb_spec (Z.min (Qfloor (score / binSize)) (Z.of_nat bins - 1)) 0)
    as [Hneg|Hpos].
  - split; [exact Hlen|lia].
  - rewrite length_alter. split; [exact Hlen|].
    rewrite total_alter_S; [lia|]. lia.
Qed.

Lemma histogram_total bins binSize scores : forall h,
  length h = bins -> (0 < bins)%nat ->
  let final := fold_left (histogramStep bins binSize) scores h in
  length final = bins /\
  (total final <= total h + length scores)%nat.
Proof.
  induction scores as [|s rest IH]; intros h Hlen Hbins; cbv zeta.
  - simpl. split; [exact Hlen|lia].
  - cbn [fold_left length].
    destruct (histogramStep_total bins binSize h s Hlen Hbins) as [Hl Ht].
    destruct (IH _ Hl Hbins) as [Hl' Ht']. cbv zeta in Hl', Ht'.
    split; [exact Hl'|lia].
Qed.

(** ** The L1 distance to the even histogram *)

Lemma inject_S n :
  (inject_Z (Z.of_nat (S n)) == inject_Z (Z.of_nat n) + 1)%Q.
Proof. rewrite Nat2Z.inj_succ, <- Z.add_1_r, inject_Z_plus. reflexivity. Qed.

Lemma inject_add n m :
  (inject_Z (Z.of_nat (n + m))
   == inject_Z (Z.of_nat n) + inject_Z (Z.of_nat m))%Q.
Proof. rewrite Nat2Z.inj_add, inject_Z_plus. reflexivity. Qed.

Lemma inject_nonneg n : (0 <= inject_Z (Z.of_nat n))%Q.
Proof. change 0%Q with (inject_Z 0). rewrite <- Zle_Qle. lia. Qed.

Lemma l1_upper a h : forall s,
  (0 <= a)%Q ->
  (fold_left (fun l1 c => l1 + Qabs (inject_Z (Z.of_nat c) - a)) h s
   <= s + inject_Z (Z.of_nat (total h))
      + inject_Z (Z.of_nat (length h)) * a)%Q.
Proof.
  induction h as [|c h IH]; intros s Ha.
  - simpl. change (inject_Z (Z.of_nat 0)) with 0%Q. Lqa.lra.
  - cbn [fold_left]. eapply Qle_trans; [apply IH; exact Ha|].
    change (total (c :: h)) with (c + total h)%nat.
    cbn [length]. rewrite inject_S, inject_add.
    pose proof (inject_nonneg c).
    apply (Qabs_case (inject_Z (Z.of_nat c) - a)); intros; Lqa.lra.
Qed.

Lemma l1_some_full a h : forall s,
  (0 <= a)%Q -> Exists (fun c => (a <= inject_Z (Z.of_nat c))%Q) h ->
  (fold_left (fun l1 c => l1 + Qabs (inject_Z (Z.of_nat c) - a)) h s
   <= s + inject_Z (Z.of_nat (total h))
      + inject_Z (Z.of_nat (length h)) * a - 2 * a)%Q.
Proof.
  intros s Ha Hex. revert s.
  induction Hex as [c h Hc|c h _ IH]; intros s; cbn [fold_left].
  - eapply Qle_trans; [apply l1_upper; exact Ha|].
    change (total (c :: h)) with (c + total h)%nat.
    cbn [length]. rewrite inject_S, inject_add.
    rewrite Qabs_pos by Lqa.lra. Lqa.lra.
  - eapply Qle_trans; [apply IH|].
    change (total (c :: h)) with (c + total h)%nat.
    cbn [length]. rewrite inject_S, inject_add.
    pose proof (inject_nonneg c).
    apply (Qabs_case (inject_Z (Z.of_nat c) - a)); intros; Lqa.lra.
Qed.

Lemma l1_none_full a h : forall s,
  Forall (fun c => (inject_Z (Z.of_nat c) < a)%Q) h ->
  (fold_left (fun l1 c => l1 + Qabs (inject_Z (Z.of_nat c) - a)) h s
   == s + inject_Z (Z.of_nat (length h)) * a
      - inject_Z (Z.of_nat (total h)))%Q.
Proof.
  intros s Hall. revert s.
  induction Hall as [|c h Hc _ IH]; intros s; cbn [fold_left].
  - simpl. change (inject_Z (Z.of_nat 0)) with 0%Q. Lqa.lra.
  - rewrite IH.
    change (total (c :: h)) with (c + total h)%nat.
    cbn [length]. rewrite inject_S, inject_add.
    rewrite Qabs_neg by Lqa.lra. Lqa.lra.
Qed.

Lemma full_or_not a (h : list nat) :
  Forall (fun c => (inject_Z (Z.of_nat c) < a)%Q) h \/
  Exists (fun c => (a <= inject_Z (Z.of_nat c))%Q) h.
Proof.
  induction h as [|c h [IH|IH]].
  - left. constructor.
  - destruct (Qlt_le_dec (inject_Z (Z.of_nat c)) a) as [H|H].
    + left. constructor; assumption.
    + right. left. exact H.
  - right. right. exact IH.
Qed.

Lemma clamp01_bounds x hi :
  (0 <= hi)%Q -> (x <= hi)%Q -> (0 <= clamp01 x <= hi)%Q.
Proof.
  intros Hhi Hx. unfold clamp01. split.
  - apply Q.min_glb; [discriminate|apply Q.le_max_l].
  - eapply Qle_trans; [apply Q.le_min_r|].
    apply Q.max_lub; assumption.
Qed.

(** In exact arithmetic the L1 distance is at most 1.8 times the number
    of scores, because the histogram holds at most as many entries as
    there are scores. *)
Lemma calculateABROCA_bound assignments :
  (0 <= calculateABROCA assignments <= 9 # 10)%Q.
Proof.
  unfold calculateABROCA.
  destruct (length assignments =? 0)%nat eqn:En; [split; discriminate|].
  apply Nat.eqb_neq in En. cbv zeta.
  rewrite length_map.
  set (n := inject_Z (Z.of_nat (length assignments))).
  set (a := (n / inject_Z (Z.of_nat 10))%Q).
  assert (Hn : (1 <= n)%Q).
  { unfold n. change 1%Q with (inject_Z 1). rewrite <- Zle_Qle. lia. }
  assert (Ea : (n == 10 * a)%Q).
  { unfold a. change (inject_Z (Z.of_nat 10)) with 10%Q. field. }
  destruct (histogram_total 10 (100 / inject_Z (Z.of_nat 10))
              (map score assignments) (replicate 10 0%nat)
              eq_refl ltac:(lia)) as [Hlen Htot].
  cbv zeta in Hlen, Htot. rewrite length_map in Htot.
  change (total (replicate 10 0%nat)) with 0%nat in Htot.
  set (h := fold_left _ (map score assignments) _) in *.
  assert (Hm : (inject_Z (Z.of_nat (total h)) <= n)%Q).
  { unfold n. rewrite <- Zle_Qle. lia. }
  pose proof (inject_nonneg (total h)) as Hm0.
  apply clamp01_bounds; [discriminate|].
  apply Qle_shift_div_r; [Lqa.lra|].
  destruct (full_or_not a h) as [Hall|Hex].
  - rewrite (l1_none_full a h 0 Hall), Hlen.
    change (inject_Z (Z.of_nat 10)) with 10%Q. Lqa.lra.
  - eapply Qle_trans; [apply (l1_some_full a h 0); [Lqa.lra|exact Hex]|].
    rewrite Hlen. change (inject_Z (Z.of_nat 10)) with 10%Q. Lqa.lra.
Qed.

(** X22.  The ABROCA value is never negative and never reaches 1: the
    ten bins hold at most as many entries as there are scores, which
    keeps the L1 distance well below twice their number, so that the
    upper clamp at 1 does not come into play. *)
Theorem abroca_never_reaches_one assignments :
  (0 <= calculateABROCA assignments < 1)%Q.
Proof.
  destruct (calculateABROCA_bound assignments) as [H0 H9].
  split; [exact H0|].
  apply Qle_lt_trans with (9 # 10); [exact H9|reflexivity].
Qed.

(** ** The distribution balance *)

Import JsNumber RealTactics.

Lemma squares_zero m counts :
  squares m counts = 0%R -> Forall (fun c => INR c = m) counts.
Proof.
  induction counts as [|c rest IH]; intros H; [constructor|].
  change (squares m (c :: rest))
    with ((INR c - m) * (INR c - m) + squares m rest)%R in H.
  pose proof (squares_nonneg m rest) as Hrest.
  pose proof (Rle_0_sqr (INR c - m)) as Hc. unfold Rsqr in Hc.
  constructor; [|apply IH; lra].
  assert (E : ((INR c - m) * (INR c - m) = 0)%R) by lra.
  apply Rmult_integral in E. lra.
Qed.

Lemma balance_range counts : (0 <= balance counts <= 1)%R.
Proof. unfold balance. minmax_cases. Qed.

Lemma balance_one counts :
  counts <> [] -> (0 < total counts)%nat -> balance counts = 1%R ->
  Forall (fun c => INR c = mean counts) counts.
Proof.
  intros Hne Hpos Hone.
  pose proof (length_pos_INR counts Hne) as Hn.
  assert (Ht : (0 < INR (total counts))%R) by (apply lt_0_INR; exact Hpos).
  assert (Hm : (0 < mean counts)%R)
    by (unfold mean; apply Rdiv_lt_0_compat; assumption).
  assert (Hsd : (0 <= stdDev counts)%R) by (unfold stdDev; apply sqrt_pos).
  assert (Hx : (1 <= 1 - stdDev counts / mean counts)%R).
  { revert Hone. unfold balance. minmax_cases. }
  assert (Hq : (0 <= stdDev counts / mean counts)%R).
  { apply Rmult_le_pos; [exact Hsd|].
    left. apply Rinv_0_lt_compat. exact Hm. }
  assert (Hzero : stdDev counts = 0%R).
  { assert (E : (stdDev counts / mean counts = 0)%R) by lra.
    unfold Rdiv in E. apply Rmult_integral in E as [E|E]; [exact E|].
    pose proof (Rinv_0_lt_compat _ Hm). lra. }
  unfold stdDev in Hzero.
  assert (Hv : (0 <= squares (mean counts) counts / INR (length counts))%R).
  { apply Rmult_le_pos; [apply squares_nonneg|].
    left. apply Rinv_0_lt_compat. exact Hn. }
  apply sqrt_eq_0 in Hzero; [|exact Hv].
  apply squares_zero.
  unfold Rdiv in Hzero. apply Rmult_integral in Hzero as [E|E]; [exact E|].
  pose proof (Rinv_0_lt_compat _ Hn). lra.
Qed.

(** X23.  The distribution balance is always a number from 0 to 1, never
    NaN; and it is 1 exactly when all the teachers that have an assignment
    have the same number of assignments. *)
Theorem balance_is_one_exactly_for_equal_counts assignments :
  exists r,
    calculateDistributionBalance assignments = Finite r /\
    (0 <= r <= 1)%R /\
    (r = 1%R <->
     forall id id',
       In id (teachersOf assignments) -> In id' (teachersOf assignments) ->
       assignmentsOf id assignments = assignmentsOf id' assignments).
Proof.
  destruct assignments as [|a0 rest] eqn:El.
  { exists 1%R. split; [reflexivity|]. split; [lra|].
    split; [intros _ id id' []|reflexivity]. }
  rewrite <- El. assert (Hne : assignments <> []) by (subst; discriminate).
  clear El.
  exists (balance (perTeacherCounts assignments)).
  split; [apply calculateDistributionBalance_balance; exact Hne|].
  split; [apply balance_range|].
  destruct (perTeacherCounts_nonempty assignments Hne) as [Hc Ht].
  split.
  - intros Hone id id' Hid Hid'.
    pose proof (balance_one _ Hc Ht Hone) as Hall.
    rewrite List.Forall_forall in Hall.
    apply INR_eq.
    rewrite (Hall (assignmentsOf id assignments)),
      (Hall (assignmentsOf id' assignments)); [reflexivity| |];
      unfold perTeacherCounts;
      apply (in_map (fun id => assignmentsOf id assignments)); assumption.
  - intros Hequal.
    destruct (teachersOf assignments) as [|id0 ids] eqn:Eids.
    { exfalso. apply Hc. unfold perTeacherCounts. rewrite Eids. reflexivity. }
    pose proof (calculateDistributionBalance_equal assignments
                  (assignmentsOf id0 assignments)) as Heq.
    rewrite calculateDistributionBalance_balance in Heq by exact Hne.
    rewrite Eids in Heq.
    assert (E : Finite (balance (perTeacherCounts assignments)) = Finite 1).
    { apply Heq. intros id Hid. apply Hequal; [exact Hid|].
      left. reflexivity. }
    injection E as E. exact E.
Qed.

(** ** The disparity index *)

Import DisparitySpec.

Section Groups.
Variable studentGroupMap : gmap string string.

Local Abbreviation groupOf := (groupOf studentGroupMap).
Local Abbreviation groupsOf := (groupsOf studentGroupMap).
Local Abbreviation scoresOf := (scoresOf studentGroupMap).
Local Abbreviation inGroup := (inGroup studentGroupMap).

Lemma groupStep_groupOf groupScores a :
  groupStep studentGroupMap groupScores a
  = match groupOf a with
    | Some g =>
        JsObject.set groupScores g
          (default [] (JsObject.get groupScores g) ++ [score a])
    | None => groupScores
    end.
Proof.
  unfold groupStep, DisparitySpec.groupOf.
  destruct (studentGroupMap !! studentId a) as [g|]; [|reflexivity].
  destruct (String.eqb g ""); reflexivity.
Qed.

Lemma groupsOf_snoc l a :
  groupsOf (l ++ [a])
  = match groupOf a with
    | Some g =>
        if existsb (String.eqb g) (groupsOf l) then groupsOf l
        else groupsOf l ++ [g]
    | None => groupsOf l
    end.
Proof. unfold DisparitySpec.groupsOf. rewrite fold_left_app. reflexivity. Qed.

Lemma scoresOf_snoc g l a :
  scoresOf g (l ++ [a])
  = scoresOf g l ++ (if inGroup g a then [score a] else []).
Proof.
  unfold DisparitySpec.scoresOf. rewrite List.filter_app, map_app. simpl.
  destruct (inGroup g a); reflexivity.
Qed.

Lemma groupsOf_NoDup l : List.NoDup (groupsOf l).
Proof.
  induction l as [|a l IH] using rev_ind; [constructor|].
  rewrite groupsOf_snoc. destruct (groupOf a) as [g|]; [|exact IH].
  destruct (existsb _ _) eqn:E; [exact IH|].
  apply List.NoDup_app; [exact IH | repeat constructor; auto |].
  intros x Hx [<-|[]]. apply existsb_eqb_In in Hx. congruence.
Qed.

(** A group that is not listed has no score, a listed one has some. *)
Lemma scoresOf_listed l g :
  In g (groupsOf l) <-> scoresOf g l <> [].
Proof.
  induction l as [|a l IH] using rev_ind; [simpl; tauto|].
  rewrite groupsOf_snoc, scoresOf_snoc. unfold DisparitySpec.inGroup.
  destruct (groupOf a) as [ga|].
  - destruct (String.eqb_spec ga g) as [->|Hne].
    + split; [intros _ H; apply app_eq_nil in H as [_ H]; discriminate|].
      intros _. destruct (existsb _ _) eqn:E.
      * apply existsb_eqb_In. exact E.
      * apply in_or_app. right. left. reflexivity.
    + rewrite app_nil_r, <- IH.
      destruct (existsb _ _); [tauto|].
      rewrite in_app_iff. simpl. intuition congruence.
  - rewrite app_nil_r. exact IH.
Qed.

Lemma entries_get {V} (f : string -> V) ids k :
  JsObject.get (map (fun id => (id, f id)) ids) k
  = if existsb (String.eqb k) ids then Some (f k) else None.
Proof.
  induction ids as [|id rest IH]; simpl; [reflexivity|].
  rewrite (String.eqb_sym k id).
  destruct (String.eqb_spec id k) as [->|_]; simpl; [reflexivity|exact IH].
Qed.

Lemma entries_set_new {V} (f : string -> V) ids k v :
  ~ In k ids ->
  JsObject.set (map (fun id => (id, f id)) ids) k v
  = map (fun id => (id, f id)) ids ++ [(k, v)].
Proof.
  induction ids as [|id rest IH]; intros Hnot; simpl; [reflexivity|].
  destruct (String.eqb_spec id k) as [->|_].
  - exfalso. apply Hnot. left. reflexivity.
  - rewrite IH by (intros H; apply Hnot; right; exact H). reflexivity.
Qed.

Lemma entries_set_old {V} (f g : string -> V) ids k :
  List.NoDup ids -> In k ids ->
  (forall id, id <> k -> g id = f id) ->
  JsObject.set (map (fun id => (id, f id)) ids) k (g k)
  = map (fun id => (id, g id)) ids.
Proof.
  induction ids as [|id rest IH]; intros Hnd Hin Hg; [destruct Hin|].
  apply List.NoDup_cons_iff in Hnd as [Hid Hnd]. simpl.
  destruct (String.eqb_spec id k) as [->|Hne].
  - f_equal. apply map_ext_in. intros x Hx. f_equal. symmetry. apply Hg.
    intros ->. contradiction.
  - destruct Hin as [->|Hin]; [contradiction|].
    rewrite (Hg id Hne). f_equal. apply IH; assumption.
Qed.

(** The entries of [groupScores]: every group that has an assignment,
    in order of first appearance, with the scores of its assignments. *)
Lemma groupScores_entries l :
  fold_left (groupStep studentGroupMap) l []
  = map (fun g => (g, scoresOf g l)) (groupsOf l).
Proof.
  induction l as [|a l IH] using rev_ind; [reflexivity|].
  rewrite fold_left_app. cbn [fold_left]. rewrite IH.
  rewrite groupStep_groupOf, groupsOf_snoc.
  destruct (groupOf a) as [ga|] eqn:Ega.
  - rewrite entries_get.
    destruct (existsb (String.eqb ga) (groupsOf l)) eqn:E.
    + change (default [] (Some (scoresOf ga l))) with (scoresOf ga l).
      replace (scoresOf ga l ++ [score a]) with (scoresOf ga (l ++ [a])).
      * apply (entries_set_old (fun g => scoresOf g l)
                 (fun g => scoresOf g (l ++ [a]))).
        -- apply groupsOf_NoDup.
        -- apply existsb_eqb_In. exact E.
        -- intros g Hne. rewrite scoresOf_snoc.
           unfold DisparitySpec.inGroup. rewrite Ega.
           destruct (String.eqb_spec ga g); [congruence|].
           apply app_nil_r.
      * rewrite scoresOf_snoc. unfold DisparitySpec.inGroup.
        rewrite Ega, String.eqb_refl. reflexivity.
    + assert (Hnot : ~ In ga (groupsOf l)).
      { intros H. apply existsb_eqb_In in H. congruence. }
      rewrite entries_set_new by exact Hnot.
      rewrite map_app. cbn [map default]. f_equal.
      * apply map_ext_in. intros g Hg. f_equal.
        rewrite scoresOf_snoc. unfold DisparitySpec.inGroup. rewrite Ega.
        destruct (String.eqb_spec ga g) as [<-|_]; [contradiction|].
        symmetry. apply app_nil_r.
      * rewrite scoresOf_snoc. unfold DisparitySpec.inGroup.
        rewrite Ega, String.eqb_refl.
        assert (Hempty : scoresOf ga l = []).
        { destruct (scoresOf ga l) eqn:Es; [reflexivity|].
          exfalso. apply Hnot. apply scoresOf_listed. rewrite Es.
          discriminate. }
        rewrite Hempty. reflexivity.
  - apply map_ext. intros g. f_equal.
    rewrite scoresOf_snoc. unfold DisparitySpec.inGroup. rewrite Ega.
    symmetry. apply app_nil_r.
Qed.

Lemma averageStep_entries entries : forall acc,
  Forall (fun e : string * list Q => snd e <> []) entries ->
  fold_left averageStep entries acc
  = acc ++ map (fun e => mean (snd e)) entries.
Proof.
  induction entries as [|e rest IH]; intros acc Hall.
  - simpl. rewrite app_nil_r. reflexivity.
  - apply List.Forall_cons_iff in Hall as [He Hall].
    cbn [fold_left map]. rewrite IH by exact Hall.
    unfold averageStep.
    destruct (snd e) as [|x xs] eqn:Ee; [contradiction|].
    cbn [length Nat.ltb Nat.leb]. rewrite <- app_assoc. reflexivity.
Qed.

Lemma groupAverages_groupMeans l :
  fold_left averageStep (fold_left (groupStep studentGroupMap) l []) []
  = groupMeans studentGroupMap l.
Proof.
  rewrite groupScores_entries, averageStep_entries.
  - unfold groupMeans. rewrite map_map. reflexivity.
  - apply List.Forall_forall. intros e He.
    apply in_map_iff in He as (g & <- & Hg). cbn [snd].
    apply scoresOf_listed. exact Hg.
Qed.

Lemma calculateDisparityIndex_groups l :
  calculateDisparityIndex l studentGroupMap
  = if (length (groupsOf l) <? 2)%nat then 0%Q
    else clamp01 (spread (groupMeans studentGroupMap l) / 100).
Proof.
  unfold calculateDisparityIndex. cbv zeta.
  destruct l as [|a rest] eqn:El; [reflexivity|]. rewrite <- El.
  replace (length l =? 0)%nat with false by (rewrite El; reflexivity).
  rewrite groupAverages_groupMeans.
  unfold groupMeans at 1. rewrite length_map. reflexivity.
Qed.
End Groups.

Lemma clamp01_range x : (0 <= clamp01 x <= 1)%Q.
Proof.
  unfold clamp01. split.
  - apply Q.min_glb; [discriminate|apply Q.le_max_l].
  - apply Q.le_min_l.
Qed.

Lemma clamp01_inside x : (0 <= x <= 1)%Q -> (clamp01 x == x)%Q.
Proof.
  intros [H0 H1]. unfold clamp01.
  rewrite (Q.max_r 0 x) by exact H0. apply Q.min_r. exact H1.
Qed.

Lemma groupMeans_bounds studentGroupMap assignments lo hi :
  (forall a, In a assignments -> (lo <= score a <= hi)%Q) ->
  forall y, In y (groupMeans studentGroupMap assignments) ->
    (lo <= y <= hi)%Q.
Proof.
  intros Hall y Hy. unfold groupMeans in Hy.
  apply in_map_iff in Hy as (g & <- & Hg).
  apply average_bounds.
  - apply scoresOf_listed. exact Hg.
  - intros x Hx. unfold DisparitySpec.scoresOf in Hx.
    apply in_map_iff in Hx as (a & <- & Ha).
    apply List.filter_In in Ha as [Ha _]. apply Hall. exact Ha.
Qed.

(** X24.  The disparity index is the spread between the largest and the
    smallest group mean, divided by 100 and clamped to [0,1], where the
    groups are those of the students that have an assignment and a group
    other than the empty string, and the mean of a group is taken over the
    scores of its assignments; with fewer than two such groups it is 0.
    With all scores from 0 to 100 the clamp changes nothing. *)
Theorem disparity_index_is_the_spread_of_group_means
    assignments studentGroupMap :
  let groups := groupsOf studentGroupMap assignments in
  let means := groupMeans studentGroupMap assignments in
  calculateDisparityIndex assignments studentGroupMap
  = (if (length groups <? 2)%nat then 0%Q
     else clamp01 (spread means / 100)) /\
  (0 <= calculateDisparityIndex assignments studentGroupMap <= 1)%Q /\
  ((forall a, In a assignments -> (0 <= score a <= 100)%Q) ->
   (2 <= length groups)%nat ->
   (calculateDisparityIndex assignments studentGroupMap
    == spread means / 100)%Q).
Proof.
  cbv zeta. rewrite calculateDisparityIndex_groups.
  split; [reflexivity|]. split.
  - destruct (_ <? 2)%nat; [split; discriminate|apply clamp01_range].
  - intros Hscores Hgroups.
    destruct (Nat.ltb_spec (length (groupsOf studentGroupMap assignments)) 2)
      as [?|_]; [lia|].
    apply clamp01_inside.
    assert (Hne : groupMeans studentGroupMap assignments <> []).
    { unfold groupMeans.
      destruct (groupsOf studentGroupMap assignments); [simpl in *; lia|].
      discriminate. }
    pose proof (groupMeans_bounds studentGroupMap assignments 0 100 Hscores)
      as Hb.
    pose proof (Hb _ (maxOf_In _ Hne)) as [_ Hmax].
    pose proof (Hb _ (minOf_In _ Hne)) as [Hmin _].
    pose proof (minOf_le _ _ (maxOf_In _ Hne)) as Hle.
    unfold spread. split.
    + apply Qle_shift_div_l; [reflexivity|]. Lqa.lra.
    + apply Qle_shift_div_r; [reflexivity|]. Lqa.lra.
Qed.

(** ** The report *)

Lemma calculateDistributionBalance_finite assignments :
  exists r, calculateDistributionBalance assignments = Finite r /\
            (0 <= r <= 1)%R.
Proof.
  destruct assignments as [|a0 rest] eqn:El.
  - exists 1%R. split; [reflexivity|lra].
  - rewrite <- El. exists (balance (perTeacherCounts assignments)).
    split; [|apply balance_range].
    apply calculateDistributionBalance_balance. subst. discriminate.
Qed.

(** X25.  The report of [calculateFairnessMetrics] always carries one to
    three messages, and its balance is a number.  The message that the
    metrics are in the normal range never comes with another one, and it
    is issued exactly when the disparity index is at most 0.2, the ABROCA
    value at most 0.3 and the distribution balance at least 0.7. *)
Theorem fairness_report_is_never_empty assignments studentGroupMap :
  let m := calculateFairnessMetrics assignments studentGroupMap in
  let normal := "공정성 메트릭이 정상 범위입니다." in
  exists balance,
    distributionBalance m = Finite balance /\
    (1 <= length (recommendations m) <= 3)%nat /\
    (In normal (recommendations m) <-> recommendations m = [normal]) /\
    (recommendations m = [normal] <->
     (disparityIndex m <= 0.2)%Q /\ (abroca m <= 0.3)%Q /\
     (7 / 10 <= balance)%R).
Proof.
  cbv zeta. unfold calculateFairnessMetrics. cbv zeta.
  cbn [distributionBalance recommendations disparityIndex abroca].
  destruct (calculateDistributionBalance_finite assignments)
    as (r & Hr & _).
  exists r. split; [exact Hr|]. rewrite Hr.
  unfold generateFairnessRecommendations. cbv zeta.
  set (d := match studentGroupMap with
            | Some m => calculateDisparityIndex assignments m
            | None => 0%Q
            end).
  set (ab := calculateABROCA assignments).
  unfold JsNumber.lt.
  destruct (Qlt_bool 0.2 d) eqn:Ed; destruct (Qlt_bool 0.3 ab) eqn:Eab;
    destruct (Rlt_dec r (7 / 10)) as [Hlt|Hge];
    cbn [pushIf app length Nat.eqb];
    try apply Qlt_bool_true in Ed; try apply Qlt_bool_false in Ed;
    try apply Qlt_bool_true in Eab; try apply Qlt_bool_false in Eab;
    (split; [lia|]); (split; [split|split]);
    try (intros H; cbn in H; intuition discriminate);
    try reflexivity;
    try (intros _; repeat split; try assumption; lra);
    try (intros (H1 & H2 & H3); exfalso;
         first [exact (Qlt_not_le _ _ Ed H1)
               | exact (Qlt_not_le _ _ Eab H2) | lra]).
  intros _. left. reflexivity.
Qed.

End FairnessMetricsMore.

(* ================================================================== *)
(** * The range of the diversity score *)
(* ================================================================== *)

Module DiversityScoreProofs.
Import Types TeamComposition TeamCompositionSpec AnalysisSamples.
Import JsNumber JsNumberFacts RealTactics ScoreSpec.
Import TeamCompositionProofs TeamCompositionMore.

Lemma calculateShannonDiversity_cases counts total :
  calculateShannonDiversity counts total = NaN \/
  exists r, calculateShannonDiversity counts total = Finite r /\
            (0 <= r <= 100)%R.
Proof.
  unfold calculateShannonDiversity. destruct (isZero total).
  - right. exists 0%R. split; [reflexivity|lra].
  - apply clamp_0_100.
Qed.

(** [Math.round] of a number from 0 to [hi]. *)
Lemma round_range r hi :
  (0 <= r <= IZR hi)%R ->
  exists z, round (Finite r) = Finite (IZR z) /\ (0 <= z <= hi)%Z.
Proof.
  intros [H0 Hhi]. exists (Int_part (r + / 2)). split; [reflexivity|].
  destruct (base_Int_part (r + / 2)) as [Hle Hgt]. split.
  - assert (H : (IZR (-1) < IZR (Int_part (r + / 2)))%R) by (simpl; lra).
    apply lt_IZR in H. lia.
  - assert (H : (IZR (Int_part (r + / 2)) < IZR (hi + 1))%R)
      by (rewrite plus_IZR; simpl; lra).
    apply lt_IZR in H. lia.
Qed.

Lemma round_component x :
  (x = NaN \/ exists r, x = Finite r /\ (0 <= r <= 100)%R) ->
  wholeUpTo 100 (round x).
Proof.
  intros [->|(r & -> & Hr)]; [left; reflexivity|].
  right. apply round_range. simpl. exact Hr.
Qed.

Lemma round_overall m l s g :
  (m = NaN \/ exists r, m = Finite r /\ (0 <= r <= 100)%R) ->
  (l = NaN \/ exists r, l = Finite r /\ (0 <= r <= 100)%R) ->
  (s = NaN \/ exists r, s = Finite r /\ (0 <= r <= 100)%R) ->
  (g = NaN \/ exists r, g = Finite r /\ (0 <= r <= 100)%R) ->
  wholeUpTo 80
    (round (div (add (add (add (add m l) s) (Finite 0)) g) (Finite 5))).
Proof.
  intros [->|(a & -> & Ha)]; [intros; left; reflexivity|].
  intros [->|(b & -> & Hb)]; [intros; left; reflexivity|].
  intros [->|(c & -> & Hc)]; [intros; left; reflexivity|].
  intros [->|(d & -> & Hd)]; [left; reflexivity|].
  right. cbn [add]. rewrite div_Finite by lra.
  apply round_range. simpl. lra.
Qed.

Lemma calculateDiversityScore_range c :
  sumCounts (JsObject.values (subjects (expertiseCoverage c))) = 0%nat ->
  let d := calculateDiversityScore c in
  wholeUpTo 100 (mbtiDiversity d) /\
  wholeUpTo 100 (learningStyleDiversity d) /\
  wholeUpTo 100 (sajuElementsDiversity d) /\
  subjectDiversity d = Finite 0 /\
  wholeUpTo 100 (gradeDiversity d) /\
  wholeUpTo 80 (ds_overall d).
Proof.
  intros Hsub. cbv zeta. unfold calculateDiversityScore. cbv zeta.
  cbn [mbtiDiversity learningStyleDiversity sajuElementsDiversity
       subjectDiversity gradeDiversity ds_overall].
  rewrite Hsub. cbn [Nat.ltb Nat.leb].
  assert (Hgrade : forall counts total (b : bool),
    (if b then calculateShannonDiversity counts total else Finite 0) = NaN \/
    exists r, (if b then calculateShannonDiversity counts total else Finite 0)
              = Finite r /\ (0 <= r <= 100)%R).
  { intros counts total [|]; [apply calculateShannonDiversity_cases|].
    right. exists 0%R. split; [reflexivity|lra]. }
  split; [apply round_component, calculateShannonDiversity_cases|].
  split; [apply round_component, calculateShannonDiversity_cases|].
  split; [apply round_component, calculateShannonDiversity_cases|].
  split; [apply round_zero|].
  split; [apply round_component, Hgrade|].
  apply round_overall;
    first [apply calculateShannonDiversity_cases | apply Hgrade].
Qed.

(** X26.  In every analysis each diversity component is NaN or a whole
    number from 0 to 100, the subject component is 0, and the overall
    score is NaN or a whole number from 0 to 80: with the subject
    component at 0, the mean of the five can not be higher. *)
Theorem overall_diversity_is_at_most_80 team teachers clock :
  let d :=
    diversityScore
      (Clock.result (analyzeTeamComposition team teachers) clock) in
  wholeUpTo 100 (mbtiDiversity d) /\
  wholeUpTo 100 (learningStyleDiversity d) /\
  wholeUpTo 100 (sajuElementsDiversity d) /\
  subjectDiversity d = Finite 0 /\
  wholeUpTo 100 (gradeDiversity d) /\
  wholeUpTo 80 (ds_overall d).
Proof.
  cbv zeta.
  destruct (analysis_scores team teachers clock) as [Hd _].
  destruct (composition_fields team teachers clock)
    as (_ & _ & _ & _ & Hcov & _).
  cbv zeta in Hd, Hcov. rewrite Hd.
  apply calculateDiversityScore_range. rewrite Hcov. reflexivity.
Qed.

End DiversityScoreProofs.
